(** * Canonical state dicts for wrapped models: [torch/distributed/state_dict.py]

    A shallow embedding of the module that rewrites the state of a model
    and of its optimizers between the native naming of the parallelism
    wrappers (DDP, FSDP) and canonical fully-qualified names (FQNs), with
    the properties of the embedding that the specification states. *)

From Stdlib Require Import Ascii String.
From stdpp Require Import gmap strings list fin_maps.

Open Scope string_scope.
Open Scope list_scope.
Set Warnings "-register-all,-clear-no-such-hyp".

(** Dicts are finite maps and sets of names are finite sets.  Where the
    source iterates over one, the embedding iterates over its [elements],
    in the order in which stdpp lists them; the proofs rely on what is in
    them, not on that order.  The one place where the order of a set
    decides the result, the [zip] of two sets in
    [_load_model_state_dict], iterates them by the hash of their elements
    ([iter_set]). *)

(** ** Python strings *)

Module PyStr.

(** [sep.join(l)] *)
Fixpoint join (sep : string) (l : list string) : string :=
  match l with
  | [] => ""
  | [x] => x
  | x :: rest => x +:+ sep +:+ join sep rest
  end.

(** [s.split(".")]: the segments between the dots; never empty. *)
Fixpoint split_dot (s : string) : list string :=
  match s with
  | EmptyString => [""]
  | String c s' =>
      if Ascii.eqb c "."%char then "" :: split_dot s'
      else
        match split_dot s' with
        | x :: rest => String c x :: rest
        | [] => [String c ""]
        end
  end.

(** ["." in s] *)
Fixpoint has_dot (s : string) : bool :=
  match s with
  | EmptyString => false
  | String c s' => Ascii.eqb c "."%char || has_dot s'
  end.

(** [sub in s] *)
Fixpoint contains (sub s : string) : bool :=
  String.prefix sub s
  || match s with
     | EmptyString => false
     | String _ s' => contains sub s'
     end.

End PyStr.

(** ** Exceptions *)

Inductive error_msg : Type :=
| TPWithoutDTensor            (* "TP is used by but use_dtensor is set to False" *)
| UnsupportedFsdpStateDictType
| BothModelOnlyAndOptimOnly   (* "Both model_only and optim_only are set, ..." *)
| ModelOnlyWithOptims         (* "If model_only is True optims must be an empty ..." *)
| OptimOnlyWithoutOptims      (* "Optimizers are not passed in but optim_only ..." *)
| NoFsdpRoot                  (* "The model has FSDP modules but no FSDP root ..." *)
| ModelStateDictEmpty
| OptimStateDictEmpty
| FlatParamInKey              (* "{key} contains _flat_param. ..." *)
| UnexpectedKey               (* "An unexpected key, {key}, exists. FQN is {fqn}" *)
| GradientsNotNone.           (* raised by [_init_optim_state] *)

Inductive exn : Type :=
| AssertionError
| AttributeError
| IndexError
| KeyError
| TypeError
| RecursionError
| RuntimeError (msg : error_msg)
| NativeError (code : nat).   (* raised inside a collaborator's primitive *)

Inductive result (A : Type) : Type :=
| Ok (a : A)
| Raise (e : exn).
Arguments Ok {A} a.
Arguments Raise {A} e.

(** [result] is the error monad; [x ← r; k] is stdpp's notation for bind. *)
Global Instance result_ret : MRet result := fun A a => Ok a.
Global Instance result_bind : MBind result := fun A B k r =>
  match r with
  | Ok a => k a
  | Raise e => Raise e
  end.

(** ** The module tree *)

Definition FLAT_PARAM : string := "_flat_param".
Definition FSDP_WRAPPED_MODULE : string := "_fsdp_wrapped_module".
(** The literal ["module"] of the source: the child slot of DDP. *)
Definition DDP_MODULE : string := "module".

(** Tensor payloads are opaque to this code: it moves them and never looks
    inside.  [Zeros i] is [torch.zeros_like] of the parameter with identity [i]. *)
Inductive Value : Type :=
| Opaque (data : nat)
| Zeros (like : nat).

Global Instance Value_eq_dec : EqDecision Value.
Proof. solve_decision. Defined.

(** A parameter (or buffer) object.  [tensor_id] is the identity of the
    object: Python hashes tensors by identity, so dicts keyed by parameters
    are keyed by [tensor_id].  [_fqns] is the attribute that only a
    [FlatParameter] carries: the names of the original parameters it
    flattens. *)
Record Param : Type := mkParam {
  tensor_id : nat;
  requires_grad : bool;
  is_dtensor : bool;
  _fqns : option (list string)
}.

Global Instance Param_eq_dec : EqDecision Param.
Proof. solve_decision. Defined.

(** [Plain] is any [nn.Module] that is neither wrapper, with its registered
    [_parameters], [_buffers] and [_modules].  [DDP] has the one child
    [module].  [FSDP] has the one child [_fsdp_wrapped_module], its
    [_is_root] flag ([None] before lazy initialisation) and the flat
    parameter of its handle, if it has one. *)
Inductive Module : Type :=
| Plain (_parameters : list (string * Param)) (_buffers : list (string * Param))
        (_modules : list (string * Module))
| DDP (module : Module)
| FSDP (_is_root : option bool) (_flat_param : option Param)
       (_fsdp_wrapped_module : Module).

(** What a name can denote while a dotted path is walked. *)
Inductive Obj : Type :=
| OModule (m : Module)
| OTensor (p : Param)
| ONone.

Fixpoint assoc {A} (k : string) (l : list (string * A)) : option A :=
  match l with
  | [] => None
  | (k', v) :: rest => if String.eqb k k' then Some v else assoc k rest
  end.

(** [getattr(obj, name)] restricted to what is registered in the tree:
    [nn.Module.__getattr__] looks in [_parameters], [_buffers], [_modules],
    in this order; FSDP has the properties [module] and [_flat_param] and
    forwards missing attributes to the wrapped module.  Attributes that
    are not registered (those of tensors, such as [data], and plain
    attributes of a module) are not part of the tree: for such a name the
    [AttributeError] below is not Python's answer, and no property is
    stated about it. *)
Fixpoint getattr_module (m : Module) (name : string) : result Obj :=
  match m with
  | Plain ps bs cs =>
      match assoc name ps with
      | Some p => Ok (OTensor p)
      | None =>
          match assoc name bs with
          | Some b => Ok (OTensor b)
          | None =>
              match assoc name cs with
              | Some c => Ok (OModule c)
              | None => Raise AttributeError
              end
          end
      end
  | DDP c =>
      if String.eqb name DDP_MODULE then Ok (OModule c) else Raise AttributeError
  | FSDP _ fp c =>
      if String.eqb name FSDP_WRAPPED_MODULE then Ok (OModule c)
      else if String.eqb name DDP_MODULE then Ok (OModule c)
      else if String.eqb name FLAT_PARAM then
        Ok (match fp with Some p => OTensor p | None => ONone end)
      else getattr_module c name
  end.

Definition getattr (o : Obj) (name : string) : result Obj :=
  match o with
  | OModule m => getattr_module m name
  | OTensor _ | ONone => Raise AttributeError
  end.

(** ** [_get_fqns] *)

(** [f"{prefix}{fqn}"] after [if prefix: prefix = f"{prefix}."]. *)
Definition with_prefix (prefix fqn : string) : string :=
  if String.eqb prefix "" then fqn else prefix +:+ "." +:+ fqn.

(** The loop of [_get_fqns] over [obj_names[i:]]: [curr_obj] is the object
    reached and [fqn_obj_names] the canonical segments so far. *)
Fixpoint _get_fqns_loop (skip_ddp_prefix : bool) (curr_obj : Obj)
    (fqn_obj_names : list string) (obj_names : list string)
    : result (gset string) :=
  match obj_names with
  | [] => Ok {[ PyStr.join "." fqn_obj_names ]}
  | curr_obj_name :: rest =>
      match curr_obj with
      | OModule (DDP c) =>
          if String.eqb curr_obj_name DDP_MODULE
          then _get_fqns_loop skip_ddp_prefix (OModule c)
                 (if skip_ddp_prefix then fqn_obj_names
                  else (fqn_obj_names ++ [curr_obj_name])) rest
          else Raise AssertionError
      | OModule (FSDP _ fp c) =>
          match rest with
          | [] => Raise IndexError
          | next :: _ =>
              if String.eqb next FLAT_PARAM then
                match fp with
                | Some flat_param =>
                    match _fqns flat_param with
                    | Some fqns =>
                        Ok (list_to_set
                              (with_prefix (PyStr.join "." fqn_obj_names) <$> fqns))
                    | None => Raise AttributeError
                    end
                | None => Raise AttributeError
                end
              else if String.eqb curr_obj_name FSDP_WRAPPED_MODULE
              then _get_fqns_loop skip_ddp_prefix (OModule c) fqn_obj_names rest
              else
                match getattr_module c curr_obj_name with
                | Ok o => _get_fqns_loop skip_ddp_prefix o
                            (fqn_obj_names ++ [curr_obj_name]) rest
                | Raise e => Raise e
                end
          end
      | _ =>
          match getattr curr_obj curr_obj_name with
          | Ok o => _get_fqns_loop skip_ddp_prefix o
                      (fqn_obj_names ++ [curr_obj_name]) rest
          | Raise e => Raise e
          end
      end
  end.

Definition _get_fqns (model : Module) (name : string) (skip_ddp_prefix : bool)
    : result (gset string) :=
  if negb (PyStr.has_dot name) then Ok {[ name ]}
  else _get_fqns_loop skip_ddp_prefix (OModule model) [] (PyStr.split_dot name).


(** ** Collaborators' traversals *)

(** Modelled from the spec: [named_parameters()], the "standard depth-first
    named traversal" ([_named_members] of [nn.Module]): a module's own
    members under [prefix + ("." if prefix else "") + name], then its
    submodules in registration order; with [remove_duplicate], each object
    is reported once, under the first name that reaches it.  The wrappers
    hold no member of their own: FSDP registers its flat parameter in the
    module it wraps. *)
Fixpoint _named_members
    (get_members : list (string * Param) -> list (string * Param) -> list (string * Param))
    (prefix : string) (m : Module) : list (string * Param) :=
  match m with
  | Plain ps bs cs =>
      (((fun '(k, v) => (with_prefix prefix k, v)) <$> get_members ps bs)
       ++ (fix children (cs : list (string * Module)) :=
             match cs with
             | [] => []
             | (k, c) :: cs' =>
                 (_named_members get_members (with_prefix prefix k) c
                  ++ children cs')
             end) cs)
  | DDP c => _named_members get_members (with_prefix prefix DDP_MODULE) c
  | FSDP _ _ c => _named_members get_members (with_prefix prefix FSDP_WRAPPED_MODULE) c
  end.

Fixpoint remove_duplicate (memo : gset nat) (l : list (string * Param))
    : list (string * Param) :=
  match l with
  | [] => []
  | (name, v) :: rest =>
      if decide (tensor_id v ∈ memo) then remove_duplicate memo rest
      else (name, v) :: remove_duplicate ({[ tensor_id v ]} ∪ memo) rest
  end.

Definition named_parameters (m : Module) : list (string * Param) :=
  remove_duplicate ∅ (_named_members (fun ps _ => ps) "" m).

(** The names under which [state_dict()] of a module without wrappers
    saves its tensors: per module the parameters, then the buffers. *)
Definition state_dict_names (m : Module) : list string :=
  fst <$> _named_members (fun ps bs => ps ++ bs) "" m.

(** Modelled from the spec: [FSDP.fsdp_modules(model)], "enumerate wrapped
    instances in a tree", the module itself included, in traversal order. *)
Fixpoint fsdp_modules_of (m : Module) : list Module :=
  match m with
  | Plain _ _ cs =>
      (fix children (cs : list (string * Module)) :=
         match cs with
         | [] => []
         | (_, c) :: cs' => (fsdp_modules_of c ++ children cs')
         end) cs
  | DDP c => fsdp_modules_of c
  | FSDP _ _ c => m :: fsdp_modules_of c
  end.

(** [_get_module_fsdp_state_if_fully_sharded_module(module)._is_root]: the
    state of an FSDP wrapper is the wrapper; any other module has none. *)
Definition fsdp_state_is_root (m : Module) : result (option bool) :=
  match m with
  | FSDP r _ _ => Ok r
  | _ => Raise AttributeError
  end.

(** Python truthiness of an [Optional[bool]]. *)
Definition truthy (b : option bool) : bool :=
  match b with Some true => true | _ => false end.

(** ** Options and [_StateDictInfo] *)

Inductive StateDictType : Type :=
| FULL_STATE_DICT
| LOCAL_STATE_DICT
| SHARDED_STATE_DICT.

Record DistributedStateDictOptions : Type := mkOptions {
  use_dtensor : bool;
  fsdp_state_dict_type : StateDictType;
  save_to_cpu : bool;
  save_frozen_params : bool
}.

Definition default_options : DistributedStateDictOptions :=
  mkOptions true SHARDED_STATE_DICT true true.

Inductive StateDictConfig : Type :=
| FullStateDictConfig (offload_to_cpu rank0_only : bool)
| ShardedStateDictConfig (use_dtensor : bool).

Inductive OptimStateDictConfig : Type :=
| FullOptimStateDictConfig (offload_to_cpu rank0_only : bool)
| ShardedOptimStateDictConfig (use_dtensor : bool).

(** [contextlib.nullcontext], or [FSDP.state_dict_type] partially applied to
    the model and the three settings. *)
Inductive FsdpContext : Type :=
| nullcontext
| state_dict_type (ty : StateDictType) (state_dict_config : StateDictConfig)
    (optim_state_dict_config : OptimStateDictConfig).

(** The dict [fqn_param_mapping] holds both directions; its keys are
    tensors or strings, so the directions cannot collide and are kept as
    two maps. *)
Record FqnParamMapping : Type := mkMapping {
  by_param : gmap nat (gset string);
  by_fqn : gmap string Param
}.

Record _StateDictInfo : Type := mkInfo {
  info_options : DistributedStateDictOptions;
  fqn_param_mapping : FqnParamMapping;
  handle_model : bool;
  handle_optim : bool;
  fsdp_context : FsdpContext;
  fsdp_modules : list Module
}.

(** ** Optimizers *)

(** A group of [optim.param_groups]: its ["params"] and its other entries
    (learning rate and the like), which this code never reads. *)
Record ParamGroup : Type := mkGroup {
  params : list Param;
  hyper : nat
}.

Record Optimizer : Type := mkOptimizer {
  oid : nat;
  param_groups : list ParamGroup
}.

Fixpoint foldM {A B} (f : B -> A -> result B) (b : B) (l : list A) : result B :=
  match l with
  | [] => Ok b
  | a :: l' => b' ← f b a; foldM f b' l'
  end.

(** ** [_verify_options] *)

(** One turn of the loop over [model.named_parameters()]. *)
Definition index_step (model : Module) (options : DistributedStateDictOptions)
    (mapping : FqnParamMapping) (entry : string * Param) : result FqnParamMapping :=
  let '(name, param) := entry in
  fqns ← _get_fqns model name true;
  let mapping :=
    mkMapping (<[tensor_id param := fqns]> (by_param mapping))
              (foldl (fun m fqn => <[fqn := param]> m) (by_fqn mapping) (elements fqns)) in
  if is_dtensor param && negb (use_dtensor options)
  then Raise (RuntimeError TPWithoutDTensor)
  else Ok mapping.

Definition build_fqn_param_mapping (model : Module)
    (options : DistributedStateDictOptions) : result FqnParamMapping :=
  foldM (index_step model options) (mkMapping ∅ ∅) (named_parameters model).

Definition build_fsdp_context (fsdp_modules : list Module)
    (options : DistributedStateDictOptions) : result FsdpContext :=
  match fsdp_modules with
  | [] => Ok nullcontext
  | _ :: _ =>
      match fsdp_state_dict_type options with
      | FULL_STATE_DICT =>
          Ok (state_dict_type FULL_STATE_DICT
                (FullStateDictConfig true true) (FullOptimStateDictConfig true true))
      | SHARDED_STATE_DICT =>
          Ok (state_dict_type SHARDED_STATE_DICT
                (ShardedStateDictConfig (use_dtensor options))
                (ShardedOptimStateDictConfig (use_dtensor options)))
      | LOCAL_STATE_DICT => Raise (RuntimeError UnsupportedFsdpStateDictType)
      end
  end.

Definition nonempty {A} (l : list A) : bool :=
  match l with [] => false | _ :: _ => true end.

Definition _verify_options (model : Module) (optims : list Optimizer)
    (model_only optim_only : bool) (options : option DistributedStateDictOptions)
    : result _StateDictInfo :=
  let options := default default_options options in
  fqn_param_mapping ← build_fqn_param_mapping model options;
  let fsdp_modules := fsdp_modules_of model in
  fsdp_context ← build_fsdp_context fsdp_modules options;
  if model_only && optim_only then Raise (RuntimeError BothModelOnlyAndOptimOnly)
  else if model_only && nonempty optims then Raise (RuntimeError ModelOnlyWithOptims)
  else if optim_only && negb (nonempty optims)
  then Raise (RuntimeError OptimOnlyWithoutOptims)
  else
    Ok (mkInfo options fqn_param_mapping
          (model_only || negb optim_only)
          (optim_only || (negb model_only && nonempty optims))
          fsdp_context fsdp_modules).

(** ** State dicts *)

(** The optimizer state dict, native or canonical: ["state"] is keyed by
    positional parameter ids (numbers) or by FQNs (strings), and the
    ["params"] of a group list the same kind of keys.  A dict given by the
    caller may lack either entry.  [group_id] is the identity of the group
    object ([id(group)] in the source). *)
Record OsdGroup : Type := mkOsdGroup {
  group_id : nat;
  group_params : list (nat + string);
  group_hyper : nat
}.

Record OptimStateDict : Type := mkOsd {
  osd_state : option (gmap (nat + string) Value);
  osd_param_groups : option (list OsdGroup)
}.

(** [optim_state_dict["state"]] and [optim_state_dict["param_groups"]] *)
Definition get_state (osd : OptimStateDict) : result (gmap (nat + string) Value) :=
  match osd_state osd with Some s => Ok s | None => Raise KeyError end.

Definition get_param_groups (osd : OptimStateDict) : result (list OsdGroup) :=
  match osd_param_groups osd with Some g => Ok g | None => Raise KeyError end.

(** [not optim_state_dict]: the dict has no entry at all. *)
Definition osd_is_empty (osd : OptimStateDict) : bool :=
  match osd_state osd, osd_param_groups osd with
  | None, None => true
  | _, _ => false
  end.

Definition map_is_empty `{Countable K} {V} (m : gmap K V) : bool :=
  bool_decide (m = ∅).

(** [d[k]] and [d.pop(k)] *)
Definition dict_get `{Countable K} {V} (k : K) (d : gmap K V) : result V :=
  match d !! k with Some v => Ok v | None => Raise KeyError end.

Definition dict_pop `{Countable K} {V} (k : K) (d : gmap K V)
    : result (V * gmap K V) :=
  match d !! k with Some v => Ok (v, delete k d) | None => Raise KeyError end.

(** ** [_verify_state_dict] *)

(** The loop that looks for an FSDP root, leaving at the first one. *)
Fixpoint find_fsdp_root (modules : list Module) : result bool :=
  match modules with
  | [] => Ok false
  | module :: rest =>
      is_root ← fsdp_state_is_root module;
      if truthy is_root then Ok true else find_fsdp_root rest
  end.

Definition _verify_state_dict (model_state_dict : gmap string Value)
    (optim_state_dict : OptimStateDict) (info : _StateDictInfo) : result unit :=
  has_fsdp_root ← find_fsdp_root (fsdp_modules info);
  if nonempty (fsdp_modules info) && negb has_fsdp_root
  then Raise (RuntimeError NoFsdpRoot)
  else if handle_model info && map_is_empty model_state_dict
  then Raise (RuntimeError ModelStateDictEmpty)
  else
    let optim_is_empty : result bool :=
      if negb (handle_optim info) then Ok false
      else if osd_is_empty optim_state_dict then Ok true
      else state ← get_state optim_state_dict; Ok (map_is_empty state) in
    optim_empty ← optim_is_empty;
    if optim_empty : bool then Raise (RuntimeError OptimStateDictEmpty)
    else if existsb (PyStr.contains FLAT_PARAM) (elements (dom model_state_dict))
    then Raise (RuntimeError FlatParamInKey)
    else Ok ().

(** ** The mutable world and the collaborators' primitives *)

Global Instance StateDictType_eq_dec : EqDecision StateDictType.
Proof. solve_decision. Defined.

Global Instance Options_eq_dec : EqDecision DistributedStateDictOptions.
Proof. solve_decision. Defined.

(** What the attribute [state_dict] or [load_state_dict] of an object can
    be, and what [_state_dict_fn] can return: the bound method of the
    class; [functools.partial(getattr(obj.__class__, api), self=obj)], which
    gives the instance by keyword; or one of the two lambdas that
    [patch_model_state_dict] builds. *)
Inductive Callable : Type :=
| native_method (api : string)
| class_partial (api : string)
| state_dict_call (options : option DistributedStateDictOptions)
| load_state_dict_call (options : option DistributedStateDictOptions).

Global Instance Callable_eq_dec : EqDecision Callable.
Proof. solve_decision. Defined.

Inductive Owner : Type :=
| the_model
| the_optimizer (oid : nat).

Global Instance Owner_eq_dec : EqDecision Owner.
Proof. solve_decision. Defined.

(** Calls made to the collaborators, in order, with what they were given. *)
Inductive Event : Type :=
| EvStep (optim : nat) (grads : gmap nat Value)
| EvZeroGrad (optim : nat)
| EvLoadStateDict (ctx : FsdpContext) (state_dict : gmap string Value)
| EvOptimLoadStateDict (optim : nat) (state_dict : OptimStateDict).

(** [grads] is [param.grad] per parameter identity (absent is [None]);
    [optim_states] is [optim.state] per optimizer, keyed by parameter
    identity; [instance_attrs] are the attributes set on instances, the
    latest first; [_patched_state_dict] is the module-level set. *)
Record World : Type := mkWorld {
  grads : gmap nat Value;
  optim_states : gmap nat (gmap nat Value);
  instance_attrs : list (Owner * string * Callable);
  _patched_state_dict : list Callable;
  log : list Event
}.

Definition set_grads (g : gmap nat Value) (w : World) : World :=
  mkWorld g (optim_states w) (instance_attrs w) (_patched_state_dict w) (log w).

Definition set_optim_state (o : nat) (st : gmap nat Value) (w : World) : World :=
  mkWorld (grads w) (<[o := st]> (optim_states w)) (instance_attrs w)
          (_patched_state_dict w) (log w).

Definition emit (e : Event) (w : World) : World :=
  mkWorld (grads w) (optim_states w) (instance_attrs w) (_patched_state_dict w)
          (log w ++ [e]).

(** The primitives of the wrappers and of the optimizers, which this module
    calls and does not define, and the hash of Python's strings, which
    fixes the order in which a set of strings is iterated. *)
Record Collaborators : Type := mkCollaborators {
  nn_state_dict : FsdpContext -> Module -> result (gmap string Value);
  nn_load_state_dict : FsdpContext -> Module -> gmap string Value -> result nat;
  optim_step : Optimizer -> World -> result (gmap nat Value);
  optim_state_dict : Optimizer -> World -> result OptimStateDict;
  optim_load_state_dict :
    Optimizer -> OptimStateDict -> World -> result (gmap nat Value);
  FSDP_optim_state_dict :
    FsdpContext -> Module -> Optimizer -> OptimStateDict -> result OptimStateDict;
  FSDP_optim_state_dict_to_load :
    FsdpContext -> Module -> Optimizer -> OptimStateDict -> result OptimStateDict;
  str_hash : string -> nat
}.

(** A computation that reads and writes the world and may raise; the world
    at the raise is kept. *)
Inductive outcome (A : Type) : Type :=
| Done (a : A) (w : World)
| Fail (e : exn) (w : World).
Arguments Done {A} a w.
Arguments Fail {A} e w.

Definition M (A : Type) : Type := World -> outcome A.

Global Instance M_ret : MRet M := fun A a w => Done a w.
Global Instance M_bind : MBind M := fun A B k m w =>
  match m w with
  | Done a w' => k a w'
  | Fail e w' => Fail e w'
  end.

Definition lift {A} (r : result A) : M A := fun w =>
  match r with
  | Ok a => Done a w
  | Raise e => Fail e w
  end.

Definition read {A} (f : World -> A) : M A := fun w => Done (f w) w.
Definition write (f : World -> World) : M unit := fun w => Done () (f w).

Fixpoint forM_ {A} (f : A -> M unit) (l : list A) : M unit :=
  match l with
  | [] => mret ()
  | a :: l' => _ ← f a; forM_ f l'
  end.

(** ** [_state_dict_fn] *)

Fixpoint lookup_attr (obj : Owner) (api : string)
    (attrs : list (Owner * string * Callable)) : option Callable :=
  match attrs with
  | [] => None
  | (o, a, c) :: rest =>
      if bool_decide (o = obj) && String.eqb a api then Some c
      else lookup_attr obj api rest
  end.

Definition _state_dict_fn (obj : Owner) (api : string) : M Callable :=
  read (fun w =>
    let call := default (native_method api) (lookup_attr obj api (instance_attrs w)) in
    if bool_decide (call ∈ _patched_state_dict w) then class_partial api else call).

(** ** [_get_model_state_dict] *)

(** The loop of the inner [verify]: [fqn_rest] is [fqn_split[fqn_idx:]]. *)
Fixpoint verify_loop (key_split fqn_rest : list string) : result bool :=
  match key_split with
  | [] => Ok true
  | key_name :: key_rest =>
      match fqn_rest with
      | [] => Raise IndexError
      | fqn_name :: fqn_rest' =>
          if String.eqb key_name fqn_name then
            match fqn_rest' with
            | [] => Ok (negb (nonempty key_rest))
            | _ :: _ => verify_loop key_rest fqn_rest'
            end
          else if String.eqb key_name DDP_MODULE then verify_loop key_rest fqn_rest
          else Ok false
      end
  end.

Definition verify (key fqn : string) : result bool :=
  if Nat.leb (String.length key) (String.length fqn) then Ok false
  else verify_loop (PyStr.split_dot key) (PyStr.split_dot fqn).

(** One turn of the loop over [list(state_dict.keys())]. *)
Definition canonical_key_step (model : Module) (state_dict : gmap string Value)
    (key : string) : result (gmap string Value) :=
  fqns ← _get_fqns model key true;
  match elements fqns with
  | [fqn] =>
      if String.eqb fqn key then Ok state_dict
      else
        ok ← verify key fqn;
        if negb ok then Raise (RuntimeError UnexpectedKey)
        else
          popped ← dict_pop key state_dict;
          Ok (<[fqn := popped.1]> popped.2)
  | _ => Raise AssertionError
  end.

(** One turn of the loop that drops the frozen parameters. *)
Definition drop_frozen_step (model : Module) (state_dict : gmap string Value)
    (entry : string * Param) : result (gmap string Value) :=
  let '(key, param) := entry in
  if requires_grad param then Ok state_dict
  else
    fqns ← _get_fqns model key true;
    foldM (fun d fqn => popped ← dict_pop fqn d; Ok popped.2) state_dict
          (elements fqns).

Fixpoint mapM {A B} (f : A -> result B) (l : list A) : result (list B) :=
  match l with
  | [] => Ok []
  | a :: l' => b ← f a; bs ← mapM f l'; Ok (b :: bs)
  end.

(** ** [_split_optim_state_dict] *)

(** The body of [for fqn in info.fqn_param_mapping[param]]: [acc] is
    [return_osd["state"]] with [param_group_ids]. *)
Definition split_fqn_step (optim_state_dict : OptimStateDict)
    (acc : gmap (nat + string) Value * gset nat) (fqn : string)
    : result (gmap (nat + string) Value * gset nat) :=
  state ← get_state optim_state_dict;
  v ← dict_get (inr fqn) state;
  loaded_param_groups ← get_param_groups optim_state_dict;
  Ok (<[inr fqn := v]> acc.1,
      foldl (fun ids loaded_param_group =>
               if bool_decide (inr fqn ∈ group_params loaded_param_group)
               then {[ group_id loaded_param_group ]} ∪ ids else ids)
            acc.2 loaded_param_groups).

Definition split_param_step (optim_state_dict : OptimStateDict)
    (info : _StateDictInfo)
    (acc : gmap (nat + string) Value * gset nat) (param : Param)
    : result (gmap (nat + string) Value * gset nat) :=
  if negb (requires_grad param) then Ok acc
  else
    fqns ← dict_get (tensor_id param) (by_param (fqn_param_mapping info));
    foldM (split_fqn_step optim_state_dict) acc (elements fqns).

Definition _split_optim_state_dict (model : Module) (optim : Optimizer)
    (optim_state_dict : OptimStateDict) (info : _StateDictInfo)
    : result OptimStateDict :=
  acc ← foldM (fun acc param_group =>
                 foldM (split_param_step optim_state_dict info) acc
                       (params param_group))
              (∅, ∅) (param_groups optim);
  loaded_param_groups ← get_param_groups optim_state_dict;
  Ok (mkOsd (Some acc.1)
            (Some (filter (fun param_group => group_id param_group ∈ acc.2)
                          loaded_param_groups))).

(** ** [_get_optim_state_dict] without sharding wrappers: ids to FQNs *)

(** [dict(zip(params, range(len(params))))] over the parameters of all the
    groups, keyed by parameter identity; a later position overwrites. *)
Definition param_pid_mapping_of (optim : Optimizer) : gmap nat nat :=
  let params := concat (params <$> param_groups optim) in
  foldl (fun m entry => <[tensor_id entry.1 := entry.2]> m) ∅
        (zip params (seq 0 (length params))).

Definition fqn_pid_step (model : Module) (param_pid_mapping : gmap nat nat)
    (fqn_pid_mapping : gmap (nat + string) (nat + string))
    (entry : string * Param) : result (gmap (nat + string) (nat + string)) :=
  let '(key, param) := entry in
  fqns ← _get_fqns model key true;
  match elements fqns with
  | [fqn] =>
      match param_pid_mapping !! tensor_id param with
      | None => Ok fqn_pid_mapping
      | Some pid =>
          Ok (<[inl pid := inr fqn]> (<[inr fqn := inl pid]> fqn_pid_mapping))
      end
  | _ => Raise AssertionError
  end.

Definition ids_to_fqns (model : Module) (optim : Optimizer)
    (osd : OptimStateDict) : result OptimStateDict :=
  fqn_pid_mapping ← foldM (fqn_pid_step model (param_pid_mapping_of optim)) ∅
                          (named_parameters model);
  state ← get_state osd;
  state ← foldM (fun d key =>
                   fqn ← dict_get key fqn_pid_mapping;
                   popped ← dict_pop key d;
                   Ok (<[fqn := popped.1]> popped.2))
                state (elements (dom state));
  groups ← get_param_groups osd;
  groups ← mapM (fun group =>
                   ps ← mapM (fun pid => dict_get pid fqn_pid_mapping)
                             (group_params group);
                   Ok (mkOsdGroup (group_id group) ps (group_hyper group)))
                groups;
  Ok (mkOsd (Some state) (Some groups)).

(** ** The iteration order of a set of strings *)

(** Python iterates a set in the order of its hash table.  The elements
    are listed here by their hash: an order that is fixed for a run, not
    known, and unrelated between two sets of different strings. *)
Fixpoint insert_by (hash : string -> nat) (x : string) (l : list string)
    : list string :=
  match l with
  | [] => [x]
  | y :: l' => if Nat.leb (hash x) (hash y) then x :: l else y :: insert_by hash x l'
  end.

Definition iter_set (hash : string -> nat) (s : gset string) : list string :=
  foldr (insert_by hash) [] (elements s).

Section WithCollaborators.

Context (N : Collaborators).

(** Calling what [_state_dict_fn] returned with no positional argument,
    as [_state_dict_fn(obj, "state_dict")()] does: the bound method and
    the partial both run the method of the class.  The [state_dict] lambda
    of [patch_model_state_dict], returned when it is not in
    [_patched_state_dict], calls back into this module, which calls it
    again; the [load_state_dict] lambda lacks its argument. *)
Definition call_native {A} (call : Callable) (native : M A) : M A :=
  match call with
  | native_method _ | class_partial _ => native
  | state_dict_call _ => lift (Raise RecursionError)
  | load_state_dict_call _ => lift (Raise TypeError)
  end.

(** Calling it with one positional argument, as
    [_state_dict_fn(obj, "load_state_dict")(state_dict)] does.  For the
    partial the argument binds the first parameter of the function of the
    class, [self], which the partial gives by keyword too: Python raises
    [TypeError] (multiple values for [self]) before the method runs.  The
    [state_dict] lambda takes no argument, and the [load_state_dict] lambda
    passes a keyword that [distributed_load_state_dict] does not have. *)
Definition call_native_with_argument {A} (call : Callable) (native : M A) : M A :=
  match call with
  | native_method _ => native
  | class_partial _ | state_dict_call _ | load_state_dict_call _ =>
      lift (Raise TypeError)
  end.

Definition _get_model_state_dict (model : Module) (info : _StateDictInfo)
    : M (gmap string Value) :=
  call ← _state_dict_fn the_model "state_dict";
  state_dict ← call_native call (lift (nn_state_dict N (fsdp_context info) model));
  state_dict ← lift (foldM (canonical_key_step model) state_dict
                           (elements (dom state_dict)));
  if negb (save_frozen_params (info_options info))
  then lift (foldM (drop_frozen_step model) state_dict (named_parameters model))
  else mret state_dict.

(** ** [_load_model_state_dict] *)

(** The body of the loop over [zip(fqns, fqns_with_ddp_prefix)]. *)
Definition ddp_prefix_step (state_dict : gmap string Value)
    (pair : string * string) : result (gmap string Value) :=
  let '(fqn, fqn_with_ddp_prefix) := pair in
  if String.eqb fqn fqn_with_ddp_prefix then Ok state_dict
  else
    popped ← dict_pop fqn state_dict;
    Ok (<[fqn_with_ddp_prefix := popped.1]> popped.2).

(** One turn of the loop over [model.named_parameters()]: the two sets
    are zipped in their iteration orders. *)
Definition ddp_prefix_param_step (model : Module)
    (state_dict : gmap string Value) (entry : string * Param)
    : result (gmap string Value) :=
  fqns ← _get_fqns model entry.1 true;
  fqns_with_ddp_prefix ← _get_fqns model entry.1 false;
  foldM ddp_prefix_step state_dict
        (zip (iter_set (str_hash N) fqns)
             (iter_set (str_hash N) fqns_with_ddp_prefix)).

(** The result is what the native load returned, with the caller's dict
    as the loop left it: the dict is changed in place. *)
Definition _load_model_state_dict (model : Module)
    (state_dict : gmap string Value) (info : _StateDictInfo)
    : M (nat * gmap string Value) :=
  state_dict ← lift (foldM (ddp_prefix_param_step model) state_dict
                           (named_parameters model));
  call ← _state_dict_fn the_model "load_state_dict";
  ack ← call_native_with_argument call
          (_ ← write (emit (EvLoadStateDict (fsdp_context info) state_dict));
           lift (nn_load_state_dict N (fsdp_context info) model state_dict));
  mret (ack, state_dict).

(** ** [_init_optim_state] *)

Definition init_param_grad (param : Param) : M unit := fun w =>
  match grads w !! tensor_id param with
  | Some _ => Fail (RuntimeError GradientsNotNone) w
  | None =>
      if requires_grad param
      then Done () (set_grads (<[tensor_id param := Zeros (tensor_id param)]> (grads w)) w)
      else Done () w
  end.

(** [optim.step(closure=None)] *)
Definition step (optim : Optimizer) : M unit := fun w =>
  match optim_step N optim w with
  | Ok st => Done () (set_optim_state (oid optim) st (emit (EvStep (oid optim) (grads w)) w))
  | Raise e => Fail e w
  end.

(** Modelled from the spec: [optim.zero_grad(set_to_none=True)], "then
    clear gradients": the gradient of every parameter of every group
    becomes [None]. *)
Definition zero_grad (optim : Optimizer) : M unit :=
  write (fun w =>
    emit (EvZeroGrad (oid optim))
      (set_grads (foldl (fun g param => delete (tensor_id param) g) (grads w)
                        (concat (params <$> param_groups optim))) w)).

Definition _init_optim_state (optim : Optimizer) : M unit :=
  state ← read (fun w => default ∅ (optim_states w !! oid optim));
  if negb (map_is_empty state) then mret ()
  else
    _ ← forM_ (fun param_group => forM_ init_param_grad (params param_group))
              (param_groups optim);
    _ ← step optim;
    zero_grad optim.

(** ** [_get_optim_state_dict] *)

(** One turn of the loop over [optims]; [acc] is [optim_state_dict]. *)
Definition get_optim_step (model : Module) (info : _StateDictInfo)
    (acc : gmap (nat + string) Value * list OsdGroup) (optim : Optimizer)
    : M (gmap (nat + string) Value * list OsdGroup) :=
  _ ← _init_optim_state optim;
  call ← _state_dict_fn (the_optimizer (oid optim)) "state_dict";
  osd ← call_native call (fun w => lift (optim_state_dict N optim w) w);
  osd ← lift (if nonempty (fsdp_modules info)
              then FSDP_optim_state_dict N (fsdp_context info) model optim osd
              else ids_to_fqns model optim osd);
  state ← lift (get_state osd);
  groups ← lift (get_param_groups osd);
  mret (state ∪ acc.1, (acc.2 ++ groups)).

Fixpoint foldM_M {A B} (f : B -> A -> M B) (b : B) (l : list A) : M B :=
  match l with
  | [] => mret b
  | a :: l' => b' ← f b a; foldM_M f b' l'
  end.

Definition _get_optim_state_dict (model : Module) (optims : list Optimizer)
    (info : _StateDictInfo) : M OptimStateDict :=
  acc ← foldM_M (get_optim_step model info) (∅, []) optims;
  mret (mkOsd (Some acc.1) (Some acc.2)).

(** ** [_load_optim_state_dict] *)

Definition load_optim_step (model : Module) (state_dict : OptimStateDict)
    (info : _StateDictInfo) (optim : Optimizer) : M unit :=
  optim_state_dict ← lift (_split_optim_state_dict model optim state_dict info);
  optim_state_dict ←
    lift (if nonempty (fsdp_modules info)
          then FSDP_optim_state_dict_to_load N (fsdp_context info) model optim
                 optim_state_dict
          else Ok optim_state_dict);
  _ ← _init_optim_state optim;
  call ← _state_dict_fn (the_optimizer (oid optim)) "load_state_dict";
  call_native_with_argument call
    (fun w =>
       match optim_load_state_dict N optim optim_state_dict w with
       | Ok st =>
           Done () (set_optim_state (oid optim) st
                      (emit (EvOptimLoadStateDict (oid optim) optim_state_dict) w))
       | Raise e => Fail e w
       end).

Definition _load_optim_state_dict (model : Module) (optims : list Optimizer)
    (state_dict : OptimStateDict) (info : _StateDictInfo) : M unit :=
  forM_ (load_optim_step model state_dict info) optims.

(** ** The two operations *)

Definition distributed_state_dict (model : Module) (optims : list Optimizer)
    (model_only optim_only : bool) (options : option DistributedStateDictOptions)
    : M (gmap string Value * OptimStateDict) :=
  info ← lift (_verify_options model optims model_only optim_only options);
  model_state_dict ← _get_model_state_dict model info;
  optim_state_dict ← _get_optim_state_dict model optims info;
  _ ← lift (_verify_state_dict model_state_dict optim_state_dict info);
  mret (model_state_dict, optim_state_dict).

(** The source returns [None]; the result here is the caller's
    [model_state_dict] object as the call leaves it. *)
Definition distributed_load_state_dict (model : Module) (optims : list Optimizer)
    (model_state_dict : gmap string Value) (optim_state_dict : OptimStateDict)
    (model_only optim_only : bool) (options : option DistributedStateDictOptions)
    : M (gmap string Value) :=
  info ← lift (_verify_options model optims model_only optim_only options);
  _ ← lift (_verify_state_dict model_state_dict optim_state_dict info);
  loaded ← _load_model_state_dict model model_state_dict info;
  _ ← _load_optim_state_dict model optims optim_state_dict info;
  mret loaded.2.

(** ** Calls by keyword *)

Inductive PyArg : Type :=
| ArgModule (m : Module)
| ArgOptims (optims : list Optimizer)
| ArgModelStateDict (d : gmap string Value)
| ArgOptimStateDict (d : OptimStateDict)
| ArgBool (b : bool)
| ArgOptions (options : option DistributedStateDictOptions).

(** The parameters of [distributed_load_state_dict]. *)
Definition distributed_load_state_dict_parameters : list string :=
  ["model"; "optims"; "model_state_dict"; "optim_state_dict"; "model_only";
   "optim_only"; "options"].

Definition kw_optims (kwargs : list (string * PyArg)) : list Optimizer :=
  match assoc "optims" kwargs with Some (ArgOptims l) => l | _ => [] end.
Definition kw_model_state_dict (kwargs : list (string * PyArg)) : gmap string Value :=
  match assoc "model_state_dict" kwargs with Some (ArgModelStateDict d) => d | _ => ∅ end.
Definition kw_optim_state_dict (kwargs : list (string * PyArg)) : OptimStateDict :=
  match assoc "optim_state_dict" kwargs with
  | Some (ArgOptimStateDict d) => d
  | _ => mkOsd None None
  end.
Definition kw_bool (name : string) (kwargs : list (string * PyArg)) : bool :=
  match assoc name kwargs with Some (ArgBool b) => b | _ => false end.
Definition kw_options (kwargs : list (string * PyArg))
    : option DistributedStateDictOptions :=
  match assoc "options" kwargs with Some (ArgOptions o) => o | _ => None end.

(** [distributed_load_state_dict] called with keywords: Python binds the
    arguments before it runs the body; a keyword that names no parameter,
    or a missing [model], is a [TypeError]. *)
Definition call_distributed_load_state_dict (kwargs : list (string * PyArg))
    : M (gmap string Value) :=
  if negb (forallb (fun kw => bool_decide (kw.1 ∈ distributed_load_state_dict_parameters))
                   kwargs)
  then lift (Raise TypeError)
  else
    match assoc "model" kwargs with
    | Some (ArgModule model) =>
        distributed_load_state_dict model (kw_optims kwargs)
          (kw_model_state_dict kwargs) (kw_optim_state_dict kwargs)
          (kw_bool "model_only" kwargs) (kw_bool "optim_only" kwargs)
          (kw_options kwargs)
    | _ => lift (Raise TypeError)
    end.

(** ** [patch_model_state_dict] *)

(** [lambda: _state_dict_call()[0]] *)
Definition run_state_dict_call (model : Module)
    (options : option DistributedStateDictOptions) : M (gmap string Value) :=
  r ← distributed_state_dict model [] true false options;
  mret r.1.

(** [lambda state_dict: _load_state_dict_call(state_dict=state_dict)[1]]:
    the partial application gives [model], [optims], [model_only] and
    [options]; the call adds the keyword [state_dict]; the result of the
    call is [None], and [None[1]] is a [TypeError]. *)
Definition run_load_state_dict_call (model : Module)
    (options : option DistributedStateDictOptions)
    (state_dict : gmap string Value) : M nat :=
  _ ← call_distributed_load_state_dict
        [("model", ArgModule model); ("optims", ArgOptims []);
         ("model_only", ArgBool true); ("options", ArgOptions options);
         ("state_dict", ArgModelStateDict state_dict)];
  lift (Raise TypeError).

Definition patch_model_state_dict (model : Module)
    (options : option DistributedStateDictOptions) : M unit :=
  write (fun w =>
    mkWorld (grads w) (optim_states w)
      ((the_model, "load_state_dict", load_state_dict_call options)
         :: (the_model, "state_dict", state_dict_call options)
         :: instance_attrs w)
      (load_state_dict_call options :: state_dict_call options
         :: _patched_state_dict w)
      (log w)).

(** [model.state_dict()] and [model.load_state_dict(state_dict)] as a
    caller writes them: the instance attribute if one is set, otherwise
    the method of the class. *)
Definition model_state_dict_entry (model : Module) : M (gmap string Value) :=
  attr ← read (fun w => lookup_attr the_model "state_dict" (instance_attrs w));
  match attr with
  | Some (state_dict_call options) => run_state_dict_call model options
  | Some (load_state_dict_call _) => lift (Raise TypeError)
  | Some (native_method _) | Some (class_partial _) | None =>
      lift (nn_state_dict N nullcontext model)
  end.

Definition model_load_state_dict_entry (model : Module)
    (state_dict : gmap string Value) : M nat :=
  attr ← read (fun w => lookup_attr the_model "load_state_dict" (instance_attrs w));
  match attr with
  | Some (load_state_dict_call options) =>
      run_load_state_dict_call model options state_dict
  | Some (state_dict_call _) | Some (class_partial _) => lift (Raise TypeError)
  | Some (native_method _) | None =>
      _ ← write (emit (EvLoadStateDict nullcontext state_dict));
      lift (nn_load_state_dict N nullcontext model state_dict)
  end.

End WithCollaborators.

(** ** The lambdas of [patch_optimizer_state_dict] *)

Section OptimizerLambdas.

Context (N : Collaborators).

(** [lambda: _state_dict_call()[1]]: the partial application gives
    [model], [optims], [optim_only=True] and [options]. *)
Definition run_optim_state_dict_call (model : Module) (optims : list Optimizer)
    (options : option DistributedStateDictOptions) : M OptimStateDict :=
  r ← distributed_state_dict N model optims false true options;
  mret r.2.

(** [lambda state_dict: _load_state_dict_call(optim_state_dict=state_dict)]:
    the call adds the keyword [optim_state_dict]; [model_state_dict] keeps
    its default, the empty dict. *)
Definition run_optim_load_state_dict_call (model : Module) (optims : list Optimizer)
    (options : option DistributedStateDictOptions) (state_dict : OptimStateDict)
    : M unit :=
  _ ← call_distributed_load_state_dict N
        [("model", ArgModule model); ("optims", ArgOptims optims);
         ("optim_only", ArgBool true); ("options", ArgOptions options);
         ("optim_state_dict", ArgOptimStateDict state_dict)];
  mret ().

End OptimizerLambdas.

(** * Notions used to state the properties *)

(** A name that [split(".")] leaves whole. *)
Definition dotfree (s : string) : Prop := PyStr.has_dot s = false.

(** [descends model path fqn m]: following [path], the names that
    [named_parameters] composes, from [model] leads to the module [m], and
    [fqn] are the names on the way that belong to plain modules: the
    canonical path of [m]. *)
Inductive descends : Module -> list string -> list string -> Module -> Prop :=
| descends_here m : descends m [] [] m
| descends_ddp c path fqn m :
    descends c path fqn m -> descends (DDP c) (DDP_MODULE :: path) fqn m
| descends_fsdp r fp c path fqn m :
    descends c path fqn m ->
    head path ≠ Some FLAT_PARAM ->
    descends (FSDP r fp c) (FSDP_WRAPPED_MODULE :: path) fqn m
| descends_plain ps bs cs name c path fqn m :
    getattr_module (Plain ps bs cs) name = Ok (OModule c) ->
    descends c path fqn m ->
    descends (Plain ps bs cs) (name :: path) (name :: fqn) m.

(** [flat_param_of fp model]: [fp] is the flat parameter of a sharding
    wrapper of the tree. *)
Inductive flat_param_of (fp : Param) : Module -> Prop :=
| flat_param_here r c : flat_param_of fp (FSDP r (Some fp) c)
| flat_param_fsdp r fp' c : flat_param_of fp c -> flat_param_of fp (FSDP r fp' c)
| flat_param_ddp c : flat_param_of fp c -> flat_param_of fp (DDP c)
| flat_param_plain ps bs cs k c :
    (k, c) ∈ cs -> flat_param_of fp c -> flat_param_of fp (Plain ps bs cs).

(** The names [fqns] recorded on a flat parameter, under the canonical path
    [fqn] of its wrapper. *)
Definition fan_out (fqn : list string) (fqns : list string) : gset string :=
  list_to_set (with_prefix (PyStr.join "." fqn) <$> fqns).

(** * Example trees *)

Definition w0 : Param := mkParam 0 true false None.
Definition fp0 : Param := mkParam 1 true false (Some ["a"; "b"; "c"]).

(** A sharded submodule [sub] in a replicated model with a parameter [w]. *)
Definition shard_inner : Module :=
  FSDP (Some true) (Some fp0) (Plain [("_flat_param", fp0)] [] []).
Definition replica_shard : Module :=
  DDP (Plain [("w", w0)] [] [("sub", shard_inner)]).

(** A flat parameter that records no original name, registered in the
    module its root wrapper wraps. *)
Definition fp_empty : Param := mkParam 2 true false (Some []).
Definition shard_no_names : Module :=
  FSDP (Some true) (Some fp_empty) (Plain [("_flat_param", fp_empty)] [] []).

(** Two sharded submodules side by side, each the root of its own group. *)
Definition fp_left : Param := mkParam 3 true false (Some ["weight"]).
Definition fp_right : Param := mkParam 4 true false (Some ["weight"]).
Definition two_roots : Module :=
  Plain [] []
    [("left", FSDP (Some true) (Some fp_left) (Plain [("_flat_param", fp_left)] [] []));
     ("right", FSDP (Some true) (Some fp_right) (Plain [("_flat_param", fp_right)] [] []))].

(** An optimizer whose one group lists the trainable parameter [w0] twice,
    in a world where no parameter has a gradient and no optimizer a state. *)
Definition twice_listed : Optimizer := mkOptimizer 0 [mkGroup [w0; w0] 0].
Definition fresh_world : World := mkWorld ∅ ∅ [] [] [].

(** Induction on the module tree, through the lists of children. *)
Section ModuleInduction.

Variable P : Module -> Prop.
Hypothesis on_plain : forall ps bs cs, Forall (fun kc => P kc.2) cs -> P (Plain ps bs cs).
Hypothesis on_ddp : forall c, P c -> P (DDP c).
Hypothesis on_fsdp : forall r fp c, P c -> P (FSDP r fp c).

Fixpoint Module_tree_ind (m : Module) : P m :=
  match m with
  | Plain ps bs cs =>
      on_plain ps bs cs
        ((fix children (cs : list (string * Module)) : Forall (fun kc => P kc.2) cs :=
            match cs with
            | [] => @List.Forall_nil _ (fun kc => P kc.2)
            | (k, c) :: cs' =>
                @List.Forall_cons _ (fun kc => P kc.2) (k, c) cs'
                  (Module_tree_ind c) (children cs')
            end) cs)
  | DDP c => on_ddp c (Module_tree_ind c)
  | FSDP r fp c => on_fsdp r fp c (Module_tree_ind c)
  end.

End ModuleInduction.

(** The three intents that [_verify_options] rejects. *)
Definition contradictory (optims : list Optimizer) (model_only optim_only : bool)
    : Prop :=
  (model_only = true /\ optim_only = true)
  \/ (model_only = true /\ optims ≠ [])
  \/ (optim_only = true /\ optims = []).

Definition intent_error {A} (r : result A) : Prop :=
  r = Raise (RuntimeError BothModelOnlyAndOptimOnly)
  \/ r = Raise (RuntimeError ModelOnlyWithOptims)
  \/ r = Raise (RuntimeError OptimOnlyWithoutOptims).

(** The wrapper is the coordinating root of its shard group. *)
Definition is_root (m : Module) : Prop := fsdp_state_is_root m = Ok (Some true).

(** The world after [patch_model_state_dict(model, options=options)]. *)
Definition patched (options : option DistributedStateDictOptions) (w : World) : World :=
  mkWorld (grads w) (optim_states w)
    ((the_model, "load_state_dict", load_state_dict_call options)
       :: (the_model, "state_dict", state_dict_call options) :: instance_attrs w)
    (load_state_dict_call options :: state_dict_call options :: _patched_state_dict w)
    (log w).

(** [fqn] is a canonical name of a trainable parameter of [optim]. *)
Definition trainable_fqn (optim : Optimizer) (info : _StateDictInfo)
    (fqn : string) : Prop :=
  exists param_group param fqns,
    param_group ∈ param_groups optim /\ param ∈ params param_group /\
    requires_grad param = true /\
    by_param (fqn_param_mapping info) !! tensor_id param = Some fqns /\
    fqn ∈ fqns.

(** The group of a merged state dict names a trainable parameter of [optim]. *)
Definition mentions_trainable (optim : Optimizer) (info : _StateDictInfo)
    (group : OsdGroup) : Prop :=
  exists fqn, trainable_fqn optim info fqn /\ inr fqn ∈ group_params group.

(** The names that [_split_optim_state_dict] visits for a parameter. *)
Definition fqns_to_pull (info : _StateDictInfo) (param : Param) : list string :=
  if requires_grad param
  then elements (default ∅ (by_param (fqn_param_mapping info) !! tensor_id param))
  else [].

(** A model with a trainable and a frozen parameter, an optimizer that
    holds both, the index of that model, and a merged optimizer state dict
    that has state for both and for a parameter of another optimizer. *)
Definition frozen0 : Param := mkParam 6 false false None.
Definition plain_two : Module := Plain [("w", w0); ("frozen", frozen0)] [] [].
Definition optim_two : Optimizer := mkOptimizer 1 [mkGroup [w0; frozen0] 0].
Definition info_two : _StateDictInfo :=
  mkInfo default_options
    (mkMapping {[ 0 := {[ "w" ]}; 6 := {[ "frozen" ]} ]}
               {[ "w" := w0; "frozen" := frozen0 ]})
    true true nullcontext [].
Definition merged_osd : OptimStateDict :=
  mkOsd (Some {[ inr "w" := Opaque 20; inr "frozen" := Opaque 21;
                 inr "other" := Opaque 22 ]})
        (Some [mkOsdGroup 0 [inr "w"; inr "frozen"] 0; mkOsdGroup 1 [inr "other"] 0]).

(** A replicated module with a parameter [w] and a buffer [b], as
    [DDP(BatchNorm-like module)] is; its state dict under the native names,
    under the canonical names, and with the parameter alone re-prefixed. *)
Definition b0 : Param := mkParam 5 false false None.
Definition replica_with_buffer : Module := DDP (Plain [("w", w0)] [("b", b0)] []).
Definition native_names_sd : gmap string Value :=
  {[ "module.w" := Opaque 10; "module.b" := Opaque 11 ]}.
Definition canonical_names_sd : gmap string Value :=
  {[ "w" := Opaque 10; "b" := Opaque 11 ]}.
Definition half_prefixed_sd : gmap string Value :=
  {[ "module.w" := Opaque 10; "b" := Opaque 11 ]}.

(** Collaborators for [replica_with_buffer]: [state_dict()] gives the
    native dict, and [load_state_dict] is strict, as it is by default in
    [nn.Module]: a dict whose keys are not the native names is an error. *)
Definition strict_native : Collaborators :=
  mkCollaborators
    (fun _ _ => Ok native_names_sd)
    (fun _ _ sd => if bool_decide (dom sd = dom native_names_sd) then Ok 0
                   else Raise (NativeError 0))
    (fun _ _ => Ok ∅)
    (fun _ _ => Ok (mkOsd (Some ∅) (Some [])))
    (fun _ _ _ => Ok ∅)
    (fun _ _ _ osd => Ok osd)
    (fun _ _ _ osd => Ok osd)
    (fun _ => 0).

(** A model without wrappers whose names are as [nn.Module] registers
    them: within a module no name is used twice, and no name is empty or
    has a dot. *)
Inductive unwrapped : Module -> Prop :=
| unwrapped_plain ps bs cs :
    NoDup (ps.*1 ++ bs.*1 ++ cs.*1) ->
    Forall (fun k => dotfree k /\ k ≠ "") (ps.*1 ++ bs.*1 ++ cs.*1) ->
    Forall (fun kc => unwrapped kc.2) cs ->
    unwrapped (Plain ps bs cs).

(** Every callable set on an instance is in [_patched_state_dict], as
    [patch_model_state_dict] leaves it. *)
Definition patches_registered (w : World) : Prop :=
  forall obj api call,
    lookup_attr obj api (instance_attrs w) = Some call ->
    call ∈ _patched_state_dict w.

(** [obj.<api>] is the method of the class: no attribute is set on the
    instance, and [_patched_state_dict] holds lambdas only. *)
Definition unpatched (obj : Owner) (api : string) (w : World) : Prop :=
  lookup_attr obj api (instance_attrs w) = None /\
  native_method api ∉ _patched_state_dict w.

(** The result of [_get_optim_state_dict] for no optimizer. *)
Definition empty_osd : OptimStateDict := mkOsd (Some ∅) (Some []).


(** Collaborators for [plain_two]. *)
Definition plain_two_native : Collaborators :=
  mkCollaborators
    (fun _ _ => Ok {[ "w" := Opaque 20; "frozen" := Opaque 21 ]})
    (fun _ _ _ => Ok 0)
    (fun _ _ => Ok ∅)
    (fun _ _ => Ok empty_osd)
    (fun _ _ _ => Ok ∅)
    (fun _ _ _ osd => Ok osd)
    (fun _ _ _ osd => Ok osd)
    (fun _ => 0).

(** A tree with no replica wrapper in it. *)
Inductive no_replica : Module -> Prop :=
| no_replica_plain ps bs cs :
    Forall (fun kc => no_replica kc.2) cs -> no_replica (Plain ps bs cs)
| no_replica_fsdp r fp c : no_replica c -> no_replica (FSDP r fp c).

Definition no_replica_obj (o : Obj) : Prop :=
  match o with
  | OModule m => no_replica m
  | OTensor _ | ONone => True
  end.

(** The gradients after the loop of [_init_optim_state] over [ps]. *)
Definition synthesized (ps : list Param) (g : gmap nat Value) : gmap nat Value :=
  foldl (fun g param =>
           if requires_grad param
           then <[tensor_id param := Zeros (tensor_id param)]> g else g) g ps.

(** All the parameters of an optimizer, group after group. *)
Definition all_params (optim : Optimizer) : list Param :=
  concat (params <$> param_groups optim).

(** A model with one tensor-parallel parameter, and options that turn the
    distributed-tensor representation off. *)
Definition tp0 : Param := mkParam 7 true true None.
Definition tensor_parallel_model : Module := Plain [("w", tp0)] [] [].
Definition no_dtensor_options : DistributedStateDictOptions :=
  mkOptions false SHARDED_STATE_DICT true true.
Definition local_options : DistributedStateDictOptions :=
  mkOptions true LOCAL_STATE_DICT true true.

(** The module is an FSDP wrapper. *)
Definition is_wrapper (m : Module) : Prop := exists r fp c, m = FSDP r fp c.

(** The state dict of [plain_two]. *)
Definition canonical_two_sd : gmap string Value :=
  {[ "w" := Opaque 20; "frozen" := Opaque 21 ]}.

(** [walks skip model path fqn m]: as [descends], for either value of
    [skip_ddp_prefix]: the [module] segment of a replica wrapper stays in
    [fqn] when [skip] is false. *)
Inductive walks (skip : bool) : Module -> list string -> list string -> Module -> Prop :=
| walks_here m : walks skip m [] [] m
| walks_ddp c path fqn m :
    walks skip c path fqn m ->
    walks skip (DDP c) (DDP_MODULE :: path)
      (if skip then fqn else DDP_MODULE :: fqn) m
| walks_fsdp r fp c path fqn m :
    walks skip c path fqn m ->
    head path ≠ Some FLAT_PARAM ->
    walks skip (FSDP r fp c) (FSDP_WRAPPED_MODULE :: path) fqn m
| walks_plain ps bs cs name c path fqn m :
    getattr_module (Plain ps bs cs) name = Ok (OModule c) ->
    walks skip c path fqn m ->
    walks skip (Plain ps bs cs) (name :: path) (name :: fqn) m.

(** A tree, wrappers included, whose names are as [nn.Module] registers
    them, and in which nothing is registered under the flat parameter's
    name (as with [use_orig_params], or without sharding). *)
Inductive registered : Module -> Prop :=
| registered_plain ps bs cs :
    NoDup (ps.*1 ++ bs.*1 ++ cs.*1) ->
    Forall (fun k => dotfree k /\ k ≠ "" /\ k ≠ FLAT_PARAM) (ps.*1 ++ bs.*1 ++ cs.*1) ->
    Forall (fun kc => registered kc.2) cs ->
    registered (Plain ps bs cs)
| registered_ddp c : registered c -> registered (DDP c)
| registered_fsdp r fp c : registered c -> registered (FSDP r fp c).

(** A tree with no sharding wrapper in it. *)
Inductive no_shard : Module -> Prop :=
| no_shard_plain ps bs cs :
    Forall (fun kc => no_shard kc.2) cs -> no_shard (Plain ps bs cs)
| no_shard_ddp c : no_shard c -> no_shard (DDP c).

(** Two replica wrappers, one inside the other's tree. *)
Definition replica_nested : Module :=
  DDP (Plain [("w", w0)] [] [("inner", DDP (Plain [("v", frozen0)] [] []))]).

(** [module_expansion key_split fqn_split]: the segments of a key are
    those of a canonical name with [module] segments put in before some of
    them, as the replica wrappers on the way to the tensor do. *)
Inductive module_expansion : list string -> list string -> Prop :=
| expansion_last s : module_expansion [s] [s]
| expansion_module key_split fqn_split :
    module_expansion key_split fqn_split ->
    module_expansion (DDP_MODULE :: key_split) fqn_split
| expansion_segment s key_split fqn_split :
    module_expansion key_split fqn_split ->
    module_expansion (s :: key_split) (s :: fqn_split).

(** A world in which the parameter [w0] carries a gradient. *)
Definition world_with_grad : World := mkWorld {[ 0 := Opaque 9 ]} ∅ [] [] [].

(** Collaborators for [plain_two] whose [load_state_dict] is strict. *)
Definition plain_two_strict : Collaborators :=
  mkCollaborators
    (fun _ _ => Ok canonical_two_sd)
    (fun _ _ sd => if bool_decide (dom sd = dom canonical_two_sd) then Ok 0
                   else Raise (NativeError 0))
    (fun _ _ => Ok ∅)
    (fun _ _ => Ok empty_osd)
    (fun _ _ _ => Ok ∅)
    (fun _ _ _ osd => Ok osd)
    (fun _ _ _ osd => Ok osd)
    (fun _ => 0).

(** What [_verify_options] returns for [plain_two] and [optim_two] with
    [optim_only]. *)
Definition info_two_optim_only : _StateDictInfo :=
  mkInfo default_options (fqn_param_mapping info_two) false true nullcontext [].

(** An optimizer that holds only the frozen parameter of [plain_two], and
    a merged optimizer state dict with no entry for [w]. *)
Definition optim_frozen : Optimizer := mkOptimizer 2 [mkGroup [frozen0] 0].
Definition osd_without_w : OptimStateDict :=
  mkOsd (Some {[ inr "frozen" := Opaque 21 ]})
        (Some [mkOsdGroup 0 [inr "frozen"] 0]).

(** The canonical and the native name of the keys of [native_names_sd]. *)
Definition strip_module (key : string) : string :=
  if String.eqb key "module.w" then "w"
  else if String.eqb key "module.b" then "b" else key.
Definition add_module (key : string) : string :=
  if String.eqb key "w" then "module.w" else key.

(** The canonical names that the frozen-parameter filter pops for the
    entries [l] of [named_parameters], [fqns_of name] being what the name
    resolves to. *)
Definition dropped_fqns (fqns_of : string -> gset string)
    (l : list (string * Param)) : list string :=
  concat ((fun e : string * Param =>
             if requires_grad e.2 then [] else elements (fqns_of e.1)) <$> l).

(** Options that leave the frozen parameters out. *)
Definition trainable_only_options : DistributedStateDictOptions :=
  mkOptions true SHARDED_STATE_DICT true false.

(** Collaborators for [plain_two] whose [state_dict] leaves the frozen
    parameter out. *)
Definition plain_two_partial : Collaborators :=
  mkCollaborators
    (fun _ _ => Ok {[ "w" := Opaque 20 ]})
    (fun _ _ _ => Ok 0)
    (fun _ _ => Ok ∅)
    (fun _ _ => Ok empty_osd)
    (fun _ _ _ => Ok ∅)
    (fun _ _ _ osd => Ok osd)
    (fun _ _ _ osd => Ok osd)
    (fun _ => 0).

(** An optimizer that holds the parameter of [replica_with_buffer]. *)
Definition optim_w : Optimizer := mkOptimizer 3 [mkGroup [w0] 0].

(** A parameter group of a native optimizer state dict with its position
    ids replaced by canonical names. *)
Definition named_group (fqn_of : nat -> string) (group : OsdGroup) : OsdGroup :=
  mkOsdGroup (group_id group)
    ((fun key : nat + string =>
        match key with inl pid => inr (fqn_of pid) | inr fqn => inr fqn end)
       <$> group_params group)
    (group_hyper group).

(** The native state dict of [optim_two], keyed by position, and the
    canonical name of each position. *)
Definition native_osd_two : OptimStateDict :=
  mkOsd (Some {[ inl 0 := Opaque 30; inl 1 := Opaque 31 ]})
        (Some [mkOsdGroup 0 [inl 0; inl 1] 0]).
Definition fqn_of_two (pid : nat) : string :=
  match pid with 0 => "w" | _ => "frozen" end.

(** An optimizer that holds a parameter of no module of [plain_two]. *)
Definition optim_foreign : Optimizer := mkOptimizer 4 [mkGroup [w0; b0] 0].

(** A world in which [optim_two] has state, and collaborators for
    [plain_two] whose optimizer reports [native_osd_two]. *)
Definition stepped_world : World :=
  mkWorld ∅ {[ 1 := {[ 0 := Opaque 30; 6 := Opaque 31 ]} ]} [] [] [].
Definition plain_two_stepped : Collaborators :=
  mkCollaborators
    (fun _ _ => Ok canonical_two_sd)
    (fun _ _ _ => Ok 0)
    (fun _ _ => Ok ∅)
    (fun _ _ => Ok native_osd_two)
    (fun _ _ _ => Ok ∅)
    (fun _ _ _ osd => Ok osd)
    (fun _ _ _ osd => Ok osd)
    (fun _ => 0).
Definition named_osd_two : OptimStateDict :=
  mkOsd (Some {[ inr "w" := Opaque 30; inr "frozen" := Opaque 31 ]})
        (Some [mkOsdGroup 0 [inr "w"; inr "frozen"] 0]).

(** The world after [_init_optim_state] on an optimizer with no state and
    no gradient set, [st] being the state that the step leaves: the
    gradients synthesized, the step made, the gradients cleared. *)
Definition initialized (optim : Optimizer) (st : gmap nat Value) (w : World) : World :=
  let w1 := set_grads (synthesized (all_params optim) (grads w)) w in
  let w2 := set_optim_state (oid optim) st (emit (EvStep (oid optim) (grads w1)) w1) in
  emit (EvZeroGrad (oid optim))
    (set_grads (foldl (fun g param => delete (tensor_id param) g) (grads w2)
                      (all_params optim)) w2).

(** The part of [merged_osd] that belongs to [optim_two]. *)
Definition split_osd_two : OptimStateDict :=
  mkOsd (Some {[ inr "w" := Opaque 20 ]})
        (Some [mkOsdGroup 0 [inr "w"; inr "frozen"] 0]).

(** A replicated module with one parameter and no buffer, its native state
    dict and the canonical one. *)
Definition replica_plain : Module := DDP (Plain [("w", w0)] [] []).
Definition native_w_sd : gmap string Value := {[ "module.w" := Opaque 10 ]}.
Definition canonical_w_sd : gmap string Value := {[ "w" := Opaque 10 ]}.

(** * Properties of the embedding *)

(** ** Splitting and joining names *)

Lemma split_dot_nonnil s : PyStr.split_dot s ≠ [].
Proof.
  destruct s as [|c s]; simpl; [done|].
  destruct (Ascii.eqb c "."); [done|]. by destruct (PyStr.split_dot s).
Qed.

Lemma split_dot_dotfree s : dotfree s -> PyStr.split_dot s = [s].
Proof.
  unfold dotfree. induction s as [|c s IH]; simpl; [done|].
  destruct (Ascii.eqb c "."); simpl; [done|].
  intros H. by rewrite (IH H).
Qed.

Lemma split_dot_app s t :
  dotfree s -> PyStr.split_dot (s +:+ "." +:+ t) = s :: PyStr.split_dot t.
Proof.
  unfold dotfree. induction s as [|c s IH]; simpl; [done|].
  destruct (Ascii.eqb c "."); simpl; [done|].
  intros H. by rewrite (IH H).
Qed.

Lemma split_dot_join x l :
  Forall dotfree (x :: l) -> PyStr.split_dot (PyStr.join "." (x :: l)) = x :: l.
Proof.
  revert x. induction l as [|y l IH]; intros x H.
  - simpl. apply split_dot_dotfree. by inversion H.
  - inversion H as [|? ? Hx Hl]; subst.
    change (PyStr.join "." (x :: y :: l)) with (x +:+ "." +:+ PyStr.join "." (y :: l)).
    rewrite split_dot_app by done. by rewrite IH.
Qed.

Lemma has_dot_app s t : PyStr.has_dot (s +:+ t) = PyStr.has_dot s || PyStr.has_dot t.
Proof.
  induction s as [|c s IH]; simpl; [done|]. rewrite IH. by rewrite orb_assoc.
Qed.

Lemma has_dot_join x y l : PyStr.has_dot (PyStr.join "." (x :: y :: l)) = true.
Proof.
  change (PyStr.join "." (x :: y :: l)) with (x +:+ "." +:+ PyStr.join "." (y :: l)).
  rewrite has_dot_app. simpl. apply orb_true_r.
Qed.

Lemma get_fqns_loop_descends skip m path fqn target acc rest :
  descends m path fqn target ->
  skip = true ->
  rest ≠ [] -> head rest ≠ Some FLAT_PARAM ->
  _get_fqns_loop skip (OModule m) acc (path ++ rest)
  = _get_fqns_loop skip (OModule target) (acc ++ fqn) rest.
Proof.
  intros Hd -> Hne Hhd. revert acc.
  induction Hd as [m|c path fqn m Hd IH|r fp c path fqn m Hd IH Hp
                   |ps bs cs name c path fqn m Hget Hd IH]; intros acc.
  - by rewrite app_nil_r.
  - simpl. apply IH.
  - simpl.
    destruct (path ++ rest) as [|next tl] eqn:E.
    { by destruct path, rest. }
    assert (String.eqb next FLAT_PARAM = false) as ->.
    { apply String.eqb_neq. intros ->.
      destruct path as [|p0 path]; simpl in E.
      - subst rest. by apply Hhd.
      - inversion E; subst. by apply Hp. }
    apply IH.
  - cbn [app _get_fqns_loop getattr]. rewrite Hget.
    rewrite IH. by rewrite <- app_assoc.
Qed.

Lemma get_fqns_flat_slot model path fqn r fp c fqns :
  descends model path fqn (FSDP r (Some fp) c) ->
  Forall dotfree path ->
  _fqns fp = Some fqns ->
  _get_fqns model (PyStr.join "." (path ++ [FSDP_WRAPPED_MODULE; FLAT_PARAM])) true
  = Ok (list_to_set (with_prefix (PyStr.join "." fqn) <$> fqns)).
Proof.
  intros Hd Hdot Hf. unfold _get_fqns.
  assert (Forall dotfree (path ++ [FSDP_WRAPPED_MODULE; FLAT_PARAM])) as Hall.
  { apply Forall_app. split; [done|]. by repeat constructor. }
  assert (PyStr.has_dot (PyStr.join "." (path ++ [FSDP_WRAPPED_MODULE; FLAT_PARAM])) = true) as ->.
  { destruct path as [|x path]; [reflexivity|].
    rewrite <- app_comm_cons.
    destruct (path ++ [FSDP_WRAPPED_MODULE; FLAT_PARAM]) as [|y l] eqn:E.
    - by destruct path.
    - apply has_dot_join. }
  cbn [negb].
  destruct (path ++ [FSDP_WRAPPED_MODULE; FLAT_PARAM]) as [|x l] eqn:E.
  { by destruct path. }
  rewrite split_dot_join by done. rewrite <- E.
  rewrite (get_fqns_loop_descends true model path fqn _ [] _ Hd) by done.
  simpl. by rewrite Hf.
Qed.

(** ** The parameter index *)

Lemma foldl_insert_lookup {V} (p : V) (l : list string) (m0 : gmap string V) k :
  foldl (fun m f => <[f := p]> m) m0 l !! k
  = if bool_decide (k ∈ l) then Some p else m0 !! k.
Proof.
  revert m0. induction l as [|x l IH]; intros m0; simpl.
  - done.
  - rewrite IH. destruct (decide (k = x)) as [->|Hne].
    + rewrite lookup_insert_eq.
      rewrite (bool_decide_eq_true_2 (x ∈ x :: l)) by apply list_elem_of_here.
      by case_bool_decide.
    + rewrite lookup_insert_ne by done.
      case_bool_decide as H1; case_bool_decide as H2; try done.
      * exfalso. apply H2. by apply list_elem_of_further.
      * exfalso. apply elem_of_cons in H2 as [?|?]; done.
Qed.

Lemma index_step_ok model o m0 name p m1 :
  index_step model o m0 (name, p) = Ok m1 ->
  exists S, _get_fqns model name true = Ok S /\
    by_param m1 = <[tensor_id p := S]> (by_param m0) /\
    (forall k, by_fqn m1 !! k = if bool_decide (k ∈ S) then Some p else by_fqn m0 !! k).
Proof.
  unfold index_step. destruct (_get_fqns model name true) as [S|e]; simpl; [|done].
  destruct (is_dtensor p && negb (use_dtensor o)); [done|].
  intros [= <-]. exists S. split; [done|]. split; [done|].
  intros k. simpl. rewrite foldl_insert_lookup.
  case_bool_decide as H1; case_bool_decide as H2; try done.
  - exfalso. apply H2. by apply elem_of_elements.
  - exfalso. apply H1. by apply elem_of_elements.
Qed.

Lemma foldM_index_frame model o l m0 m :
  foldM (index_step model o) m0 l = Ok m ->
  (forall i, (forall e, e ∈ l -> tensor_id e.2 ≠ i) ->
             by_param m !! i = by_param m0 !! i) /\
  (forall f, (forall e S, e ∈ l -> _get_fqns model e.1 true = Ok S -> f ∉ S) ->
             by_fqn m !! f = by_fqn m0 !! f).
Proof.
  revert m0. induction l as [|[name p] l IH]; intros m0; cbn [foldM].
  - by intros [= <-].
  - destruct (index_step model o m0 (name, p)) as [m1|e] eqn:E;
      cbn [mbind result_bind]; [|done].
    intros H. apply index_step_ok in E as (S & HS & Hp & Hf).
    destruct (IH _ H) as [IH1 IH2]. split.
    + intros i Hi. rewrite IH1.
      * rewrite Hp. rewrite lookup_insert_ne; [done|].
        apply (Hi (name, p)). apply list_elem_of_here.
      * intros e He. apply Hi. by apply list_elem_of_further.
    + intros f Hfr. rewrite IH2.
      * rewrite Hf. rewrite bool_decide_eq_false_2; [done|].
        apply (Hfr (name, p) S); [apply list_elem_of_here | exact HS].
      * intros e S' He. apply Hfr. by apply list_elem_of_further.
Qed.

Lemma foldM_index_entry model o l1 name p l2 m0 m S :
  foldM (index_step model o) m0 (l1 ++ (name, p) :: l2) = Ok m ->
  _get_fqns model name true = Ok S ->
  (forall e, e ∈ l2 -> tensor_id e.2 ≠ tensor_id p) ->
  by_param m !! tensor_id p = Some S /\
  (forall f, f ∈ S ->
     (forall e S', e ∈ l2 -> _get_fqns model e.1 true = Ok S' -> f ∉ S') ->
     by_fqn m !! f = Some p).
Proof.
  revert m0. induction l1 as [|e1 l1 IH]; intros m0; cbn [foldM app].
  - destruct (index_step model o m0 (name, p)) as [m1|e] eqn:E;
      cbn [mbind result_bind]; [|done].
    intros H HS Hids. apply index_step_ok in E as (S0 & HS0 & Hp & Hf).
    rewrite HS in HS0. injection HS0 as <-.
    destruct (foldM_index_frame _ _ _ _ _ H) as [F1 F2]. split.
    + rewrite F1 by done. rewrite Hp. apply lookup_insert_eq.
    + intros f Hin Hfr. rewrite F2 by done. rewrite Hf.
      by rewrite bool_decide_eq_true_2.
  - destruct (index_step model o m0 e1) as [m1|e]; cbn [mbind result_bind]; [|done].
    apply IH.
Qed.

Lemma remove_duplicate_spec memo l :
  NoDup (fmap (fun e => tensor_id e.2) (remove_duplicate memo l)) /\
  (forall e, e ∈ remove_duplicate memo l -> (tensor_id e.2 ∉ memo) /\ (e ∈ l)).
Proof.
  revert memo. induction l as [|[name v] l IH]; intros memo; simpl.
  - split; [constructor|]. intros e He. by apply elem_of_nil in He.
  - destruct (decide (tensor_id v ∈ memo)) as [Hin|Hnin].
    + destruct (IH memo) as [H1 H2]. split; [done|].
      intros e He. destruct (H2 e He). split; [done|]. by apply list_elem_of_further.
    + destruct (IH ({[tensor_id v]} ∪ memo)) as [H1 H2]. split.
      * simpl. constructor; [|done]. intros Hc.
        apply list_elem_of_fmap in Hc as (e & Heq & He).
        destruct (H2 e He) as [Hn _]. apply Hn. rewrite <- Heq.
        apply elem_of_union. left. by apply elem_of_singleton.
      * intros e He. apply elem_of_cons in He as [->|He].
        -- split; [done|]. apply list_elem_of_here.
        -- destruct (H2 e He) as [Hn Hl].
           split; [intros Hm; apply Hn, elem_of_union; by right|].
           by apply list_elem_of_further.
Qed.

Lemma named_parameters_split model name p :
  (name, p) ∈ named_parameters model ->
  exists l1 l2, named_parameters model = l1 ++ (name, p) :: l2 /\
    forall e, e ∈ l1 ++ l2 -> tensor_id e.2 ≠ tensor_id p.
Proof.
  intros Hin. destruct (list_elem_of_split _ _ Hin) as (l1 & l2 & E).
  exists l1, l2. split; [done|].
  destruct (remove_duplicate_spec ∅ (_named_members (fun ps _ => ps) "" model)) as [Hnd _].
  fold (named_parameters model) in Hnd. rewrite E in Hnd.
  rewrite fmap_app in Hnd. simpl in Hnd.
  apply NoDup_app in Hnd as (Hn1 & Hn12 & Hn2).
  intros e He Heq. apply elem_of_app in He as [He|He].
  - apply (Hn12 (tensor_id e.2)).
    + apply list_elem_of_fmap. by exists e.
    + rewrite Heq. apply list_elem_of_here.
  - apply NoDup_cons in Hn2 as [Hn2 _]. apply Hn2.
    rewrite <- Heq. apply list_elem_of_fmap. by exists e.
Qed.

(** C3.  Resolving the path to the flat-parameter slot of a shard wrapper
    gives exactly the names recorded on the flat parameter, each under the
    canonical path of the wrapper; and when no other parameter of the model
    resolves to one of these names, the index of [_verify_options] maps
    each of them back to the parameter registered at that slot. *)
Theorem flat_param_fan_out model path fqn r fp c fqns :
  descends model path fqn (FSDP r (Some fp) c) ->
  Forall dotfree path ->
  _fqns fp = Some fqns ->
  let name := PyStr.join "." (path ++ [FSDP_WRAPPED_MODULE; FLAT_PARAM]) in
  _get_fqns model name true = Ok (fan_out fqn fqns) /\
  forall optims model_only optim_only options info p,
    _verify_options model optims model_only optim_only options = Ok info ->
    (name, p) ∈ named_parameters model ->
    (forall name' p' fqns',
        (name', p') ∈ named_parameters model ->
        tensor_id p' ≠ tensor_id p ->
        _get_fqns model name' true = Ok fqns' ->
        fqns' ## fan_out fqn fqns) ->
    by_param (fqn_param_mapping info) !! tensor_id p = Some (fan_out fqn fqns) /\
    forall f, f ∈ fan_out fqn fqns ->
              by_fqn (fqn_param_mapping info) !! f = Some p.
Proof.
  intros Hd Hdot Hf name.
  pose proof (get_fqns_flat_slot _ _ _ _ _ _ _ Hd Hdot Hf) as Hres.
  split; [exact Hres|].
  intros optims mo oo options info p Hv Hin Hdisj.
  unfold _verify_options in Hv.
  destruct (build_fqn_param_mapping model (default default_options options))
    as [mapping|e] eqn:Hb; cbn [mbind result_bind] in Hv; [|done].
  assert (fqn_param_mapping info = mapping) as ->.
  { destruct (build_fsdp_context _ _); cbn [mbind result_bind] in Hv; [|done].
    repeat (match type of Hv with (if ?b then _ else _) = _ => destruct b end;
            try done).
    by injection Hv as <-. }
  destruct (named_parameters_split _ _ _ Hin) as (l1 & l2 & E & Hids).
  unfold build_fqn_param_mapping in Hb. rewrite E in Hb.
  destruct (foldM_index_entry _ _ _ _ _ _ _ _ _ Hb Hres) as [H1 H2].
  { intros e He. apply Hids. apply elem_of_app. by right. }
  split; [done|]. intros f Hfin. apply H2; [done|].
  intros [n' p'] S' He HS' Hc.
  assert ((n', p') ∈ named_parameters model) as Hin'.
  { rewrite E. apply elem_of_app. right. by apply list_elem_of_further. }
  assert (tensor_id p' ≠ tensor_id p) as Hne.
  { apply (Hids (n', p')). apply elem_of_app. by right. }
  specialize (Hdisj n' p' S' Hin' Hne HS').
  by apply (Hdisj f).
Qed.

Lemma flat_param_fan_out_witness :
  _get_fqns replica_shard "module.sub._fsdp_wrapped_module._flat_param" true
  = Ok {[ "sub.a"; "sub.b"; "sub.c" ]} /\
  exists info, _verify_options replica_shard [] false false None = Ok info /\
    by_fqn (fqn_param_mapping info) !! "sub.b" = Some fp0.
Proof.
  assert (descends replica_shard ["module"; "sub"] ["sub"] shard_inner) as Hd.
  { apply descends_ddp. eapply descends_plain; [reflexivity|]. apply descends_here. }
  assert (Forall dotfree ["module"; "sub"]) as Hdot by (by repeat constructor).
  destruct (flat_param_fan_out replica_shard _ _ _ _ _ ["a"; "b"; "c"] Hd Hdot eq_refl)
    as [H1 H2].
  split.
  - etrans; [exact H1|]. vm_compute. reflexivity.
  - destruct (_verify_options replica_shard [] false false None) as [info|e] eqn:E;
      [|by vm_compute in E].
    exists info. split; [done|].
    eapply H2; [exact E| | |].
    + vm_compute. apply list_elem_of_further, list_elem_of_here.
    + intros n' p' S' Hin Hne HS'.
      vm_compute in Hin.
      apply elem_of_cons in Hin as [[= -> ->]|Hin].
      * assert (S' = {[ "w" ]}) as ->.
        { assert (_get_fqns replica_shard "module.w" true = Ok {[ "w" ]}) as Hw
            by (vm_compute; reflexivity).
          rewrite Hw in HS'. by injection HS'. }
        unfold fan_out. simpl. set_solver.
      * apply elem_of_cons in Hin as [[= -> ->]|Hin]; [done|]. by apply elem_of_nil in Hin.
    + unfold fan_out. simpl. set_solver.
Defined.

(** ** Building the index *)

Lemma foldM_index_total model o l m0 :
  (forall name p, (name, p) ∈ l ->
     (exists fqns, _get_fqns model name true = Ok fqns) /\
     (is_dtensor p = true -> use_dtensor o = true)) ->
  exists m, foldM (index_step model o) m0 l = Ok m.
Proof.
  revert m0. induction l as [|[name p] l IH]; intros m0 H; cbn [foldM].
  - by eexists.
  - destruct (H name p) as [[fqns Hf] Htp]; [apply list_elem_of_here|].
    assert (index_step model o m0 (name, p)
            = Ok (mkMapping (<[tensor_id p := fqns]> (by_param m0))
                    (foldl (fun m fqn => <[fqn := p]> m) (by_fqn m0) (elements fqns))))
      as ->.
    { unfold index_step. rewrite Hf. cbn [mbind result_bind].
      destruct (is_dtensor p); [|done]. by rewrite Htp. }
    cbn [mbind result_bind].
    apply IH. intros n' p' Hin. apply H. by apply list_elem_of_further.
Qed.

Lemma foldM_index_by_fqn model o l : forall m0 m f p,
  foldM (index_step model o) m0 l = Ok m ->
  by_fqn m !! f = Some p ->
  by_fqn m0 !! f = Some p \/
  exists name S, (name, p) ∈ l /\ _get_fqns model name true = Ok S /\ f ∈ S.
Proof.
  induction l as [|[name q] l IH]; intros m0 m f p; cbn [foldM].
  - intros [= <-] Hf. by left.
  - destruct (index_step model o m0 (name, q)) as [m1|e] eqn:E;
      cbn [mbind result_bind]; [|done].
    intros H Hf. apply index_step_ok in E as (S & HS & _ & Hstep).
    destruct (IH _ _ _ _ H Hf) as [H1|(name' & S' & Hin & HS' & Hf')].
    + rewrite Hstep in H1. case_bool_decide as Hmem.
      * injection H1 as ->. right. exists name, S.
        split; [apply list_elem_of_here|done].
      * by left.
    + right. exists name', S'. split; [by apply list_elem_of_further|done].
Qed.

Lemma assoc_Some_elem_of {A} k (v : A) l : assoc k l = Some v -> (k, v) ∈ l.
Proof.
  induction l as [|[k' v'] l IH]; [done|]. cbn [assoc].
  destruct (String.eqb_spec k k') as [->|Hne].
  - intros [= ->]. apply list_elem_of_here.
  - intros H. apply list_elem_of_further. by apply IH.
Qed.

Lemma getattr_module_flat_param fp m name c :
  getattr_module m name = Ok (OModule c) -> flat_param_of fp c -> flat_param_of fp m.
Proof.
  induction m as [ps bs cs _|c' _|r fp' c' IH] using Module_tree_ind;
    cbn [getattr_module].
  - destruct (assoc name ps); [done|]. destruct (assoc name bs); [done|].
    destruct (assoc name cs) as [c'|] eqn:E; [|done]. intros [= ->] Hc.
    apply (flat_param_plain fp ps bs cs name c); [|done]. by apply assoc_Some_elem_of.
  - destruct (String.eqb name DDP_MODULE); [|done]. intros [= ->] Hc.
    by apply flat_param_ddp.
  - destruct (String.eqb name FSDP_WRAPPED_MODULE).
    { intros [= ->] Hc. by apply flat_param_fsdp. }
    destruct (String.eqb name DDP_MODULE).
    { intros [= ->] Hc. by apply flat_param_fsdp. }
    destruct (String.eqb name FLAT_PARAM).
    { by destruct fp'. }
    intros H Hc. apply flat_param_fsdp. by apply IH.
Qed.

(** The loop of [_get_fqns] returns the empty set only at the slot of a
    flat parameter that records no names. *)
Lemma get_fqns_loop_empty skip names : forall o acc,
  _get_fqns_loop skip o acc names = Ok ∅ ->
  exists fp m, o = OModule m /\ flat_param_of fp m /\ _fqns fp = Some [].
Proof.
  induction names as [|n rest IH]; intros o acc; cbn [_get_fqns_loop].
  - intros H. exfalso.
    assert ({[ PyStr.join "." acc ]} = (∅ : gset string)) as Hc by congruence.
    by apply non_empty_singleton_L in Hc.
  - destruct o as [[ps bs cs|c|r fp c]|t|]; cbn [getattr].
    + destruct (getattr_module (Plain ps bs cs) n) as [o|e] eqn:E; [|done].
      intros H. destruct (IH _ _ H) as (fp & m & -> & Hm & Hf).
      exists fp, (Plain ps bs cs). split; [done|]. split; [|done].
      by apply (getattr_module_flat_param fp _ n m).
    + destruct (String.eqb n DDP_MODULE); [|done].
      intros H. destruct (IH _ _ H) as (fp & m & [= <-] & Hm & Hf).
      exists fp, (DDP c). split; [done|]. split; [|done]. by apply flat_param_ddp.
    + destruct rest as [|next rest']; [done|].
      destruct (String.eqb next FLAT_PARAM).
      * destruct fp as [flat_param|]; [|done].
        destruct (_fqns flat_param) as [fqns|] eqn:Hfqns; [|done].
        intros H0.
        assert (list_to_set (with_prefix (PyStr.join "." acc) <$> fqns)
                = (∅ : gset string)) as H by congruence.
        exists flat_param, (FSDP r (Some flat_param) c).
        split; [done|]. split; [apply flat_param_here|].
        destruct fqns as [|fqn fqns]; [done|]. exfalso.
        cbn [fmap list_fmap list_to_set] in H.
        assert (with_prefix (PyStr.join "." acc) fqn ∈ (∅ : gset string)) as Hc.
        { rewrite <- H. apply elem_of_union. left. by apply elem_of_singleton. }
        by apply not_elem_of_empty in Hc.
      * destruct (String.eqb n FSDP_WRAPPED_MODULE).
        -- intros H. destruct (IH _ _ H) as (fp0 & m & [= <-] & Hm & Hf).
           exists fp0, (FSDP r fp c). split; [done|]. split; [|done].
           by apply flat_param_fsdp.
        -- destruct (getattr_module c n) as [o|e] eqn:E; [|done].
           intros H. destruct (IH _ _ H) as (fp0 & m & -> & Hm & Hf).
           exists fp0, (FSDP r fp c). split; [done|]. split; [|done].
           apply flat_param_fsdp. by apply (getattr_module_flat_param fp0 _ n m).
    + done.
    + done.
Qed.

Lemma get_fqns_empty model name skip :
  _get_fqns model name skip = Ok ∅ ->
  exists fp, flat_param_of fp model /\ _fqns fp = Some [].
Proof.
  unfold _get_fqns. destruct (negb (PyStr.has_dot name)).
  - intros H. exfalso.
    assert ({[ name ]} = (∅ : gset string)) as Hc by congruence.
    by apply non_empty_singleton_L in Hc.
  - intros H. destruct (get_fqns_loop_empty _ _ _ _ H) as (fp & m & [= <-] & Hm & Hf).
    by exists fp.
Qed.

(** C7 (amended).  The index is built without any check for an empty set
    of names: when the name of every named parameter resolves, to whatever
    set, and no distributed tensor meets [use_dtensor = False], the index
    is built and holds every parameter with the set its name resolved to.
    A parameter whose name resolves to the empty set is recorded with the
    empty set and no name leads back to it; the empty set comes from a
    flat parameter of the tree that records no names, and from nothing
    else. *)
Theorem index_records_resolved_sets model options :
  (forall name p, (name, p) ∈ named_parameters model ->
     exists fqns, _get_fqns model name true = Ok fqns) ->
  (forall name p, (name, p) ∈ named_parameters model ->
     is_dtensor p = true -> use_dtensor options = true) ->
  exists mapping, build_fqn_param_mapping model options = Ok mapping /\
    forall name p fqns, (name, p) ∈ named_parameters model ->
      _get_fqns model name true = Ok fqns ->
      by_param mapping !! tensor_id p = Some fqns /\
      (fqns = ∅ ->
       (forall fqn, by_fqn mapping !! fqn ≠ Some p) /\
       exists fp, flat_param_of fp model /\ _fqns fp = Some []).
Proof.
  intros Hres Htp.
  destruct (foldM_index_total model options (named_parameters model) (mkMapping ∅ ∅))
    as [mapping Hm].
  { intros name p Hin. split; [by eapply Hres | by eapply Htp]. }
  exists mapping. split; [exact Hm|].
  intros name p fqns Hin Hf.
  destruct (named_parameters_split _ _ _ Hin) as (l1 & l2 & E & Hids).
  split.
  - unfold build_fqn_param_mapping in Hm. rewrite E in Hm.
    apply (foldM_index_entry _ _ _ _ _ _ _ _ _ Hm Hf).
    intros e He. apply Hids. apply elem_of_app. by right.
  - intros ->. split; [|by apply (get_fqns_empty model name true)].
    intros fqn Hback.
    destruct (foldM_index_by_fqn _ _ _ _ _ _ _ Hm Hback)
      as [Hc|(name' & S & Hin' & HS & Hmem)]; [done|].
    rewrite E in Hin'.
    assert ((name', p) = (name, p)) as Heq.
    { apply elem_of_app in Hin' as [Hin'|Hin'].
      - exfalso. apply (Hids (name', p)); [|done]. apply elem_of_app. by left.
      - apply elem_of_cons in Hin' as [Heq|Hin']; [done|].
        exfalso. apply (Hids (name', p)); [|done]. apply elem_of_app. by right. }
    injection Heq as ->. rewrite Hf in HS. injection HS as <-.
    by apply not_elem_of_empty in Hmem.
Qed.

Lemma index_records_resolved_sets_witness :
  exists mapping, build_fqn_param_mapping shard_no_names default_options = Ok mapping /\
    by_param mapping !! 2 = Some ∅ /\
    (forall fqn, by_fqn mapping !! fqn ≠ Some fp_empty) /\
    exists fp, flat_param_of fp shard_no_names /\ _fqns fp = Some [].
Proof.
  destruct (index_records_resolved_sets shard_no_names default_options)
    as (mapping & Hm & Hall).
  - intros name p Hin. vm_compute in Hin.
    apply elem_of_cons in Hin as [[= -> ->]|Hin]; [|by apply elem_of_nil in Hin].
    exists ∅. vm_compute. reflexivity.
  - reflexivity.
  - exists mapping. split; [exact Hm|].
    destruct (Hall "_fsdp_wrapped_module._flat_param" fp_empty ∅) as [Hrec Hempty].
    + vm_compute. apply list_elem_of_here.
    + vm_compute. reflexivity.
    + split; [exact Hrec|]. exact (Hempty eq_refl).
Defined.

(** C7, as stated, fails: a named parameter resolves to the empty set and
    the index is built all the same. *)
Lemma index_accepts_empty_fqn_set :
  ~ (forall model options,
       (exists name p, (name, p) ∈ named_parameters model /\
                       _get_fqns model name true = Ok ∅) ->
       exists e, build_fqn_param_mapping model options = Raise e).
Proof.
  intros H. destruct (H shard_no_names default_options) as [e He].
  - exists "_fsdp_wrapped_module._flat_param", fp_empty. split.
    + vm_compute. apply list_elem_of_here.
    + vm_compute. reflexivity.
  - vm_compute in He. discriminate He.
Qed.

(** ** The intent of the caller *)

Lemma verify_options_stages model optims model_only optim_only options mapping ctx :
  build_fqn_param_mapping model (default default_options options) = Ok mapping ->
  build_fsdp_context (fsdp_modules_of model) (default default_options options) = Ok ctx ->
  _verify_options model optims model_only optim_only options
  = if model_only && optim_only then Raise (RuntimeError BothModelOnlyAndOptimOnly)
    else if model_only && nonempty optims then Raise (RuntimeError ModelOnlyWithOptims)
    else if optim_only && negb (nonempty optims)
    then Raise (RuntimeError OptimOnlyWithoutOptims)
    else Ok (mkInfo (default default_options options) mapping
               (model_only || negb optim_only)
               (optim_only || (negb model_only && nonempty optims))
               ctx (fsdp_modules_of model)).
Proof.
  intros Hm Hc. unfold _verify_options. rewrite Hm. cbn [mbind result_bind].
  by rewrite Hc.
Qed.

Lemma verify_options_ok_inv model optims model_only optim_only options info :
  _verify_options model optims model_only optim_only options = Ok info ->
  build_fqn_param_mapping model (default default_options options)
  = Ok (fqn_param_mapping info) /\
  fsdp_modules info = fsdp_modules_of model /\
  info_options info = default default_options options /\
  handle_model info = model_only || negb optim_only /\
  handle_optim info = optim_only || (negb model_only && nonempty optims) /\
  build_fsdp_context (fsdp_modules_of model) (default default_options options)
  = Ok (fsdp_context info).
Proof.
  unfold _verify_options.
  destruct (build_fqn_param_mapping _ _) as [mapping|e]; cbn [mbind result_bind]; [|done].
  destruct (build_fsdp_context _ _) as [ctx|e]; cbn [mbind result_bind]; [|done].
  repeat (match goal with |- (if ?b then _ else _) = _ -> _ => destruct b end; try done).
  by intros [= <-].
Qed.

(** C2.  The three contradictory intents are always rejected; and when the
    index and the wrapper's context are built, the rejection is the
    configuration error of the intent, and every other combination of
    [model_only], [optim_only] and [optims] is accepted. *)
Theorem verify_options_rejects_contradictory_intents
    model optims model_only optim_only options :
  let r := _verify_options model optims model_only optim_only options in
  (contradictory optims model_only optim_only -> exists e, r = Raise e) /\
  forall mapping ctx,
    build_fqn_param_mapping model (default default_options options) = Ok mapping ->
    build_fsdp_context (fsdp_modules_of model) (default default_options options)
    = Ok ctx ->
    (model_only = true -> optim_only = true ->
       r = Raise (RuntimeError BothModelOnlyAndOptimOnly)) /\
    (model_only = true -> optims ≠ [] -> intent_error r) /\
    (optim_only = true -> optims = [] -> intent_error r) /\
    (~ contradictory optims model_only optim_only -> exists info, r = Ok info).
Proof.
  intros r. split.
  - intros Hc. subst r. unfold _verify_options.
    destruct (build_fqn_param_mapping _ _) as [mapping|e];
      cbn [mbind result_bind]; [|by eexists].
    destruct (build_fsdp_context _ _) as [ctx|e]; cbn [mbind result_bind]; [|by eexists].
    destruct Hc as [[-> ->]|[[-> Ho]|[-> ->]]].
    + by eexists.
    + destruct optim_only; [by eexists|]. destruct optims; [done|]. by eexists.
    + destruct model_only; by eexists.
  - intros mapping ctx Hm Hc. subst r.
    rewrite (verify_options_stages _ _ _ _ _ _ _ Hm Hc).
    unfold intent_error, contradictory. repeat split.
    + by intros -> ->.
    + intros -> Ho. destruct optim_only; [by left|].
      destruct optims; [done|]. right. by left.
    + intros -> ->. destruct model_only; [by left|]. right. by right.
    + intros Hn. destruct model_only, optim_only, optims as [|o optims];
        cbn; try (by eexists); exfalso; apply Hn; auto.
Qed.

Lemma verify_options_rejects_contradictory_intents_witness :
  (exists e, _verify_options replica_shard [twice_listed] true false None = Raise e) /\
  intent_error (_verify_options replica_shard [twice_listed] true false None) /\
  exists info, _verify_options replica_shard [twice_listed] false false None = Ok info.
Proof.
  destruct (build_fqn_param_mapping replica_shard default_options) as [mapping|e] eqn:Hm;
    [|by vm_compute in Hm].
  destruct (build_fsdp_context (fsdp_modules_of replica_shard) default_options)
    as [ctx|e] eqn:Hc; [|by vm_compute in Hc].
  destruct (verify_options_rejects_contradictory_intents
              replica_shard [twice_listed] true false None) as [H1 H2].
  destruct (H2 mapping ctx Hm Hc) as (_ & H3 & _ & _).
  destruct (verify_options_rejects_contradictory_intents
              replica_shard [twice_listed] false false None) as [_ H4].
  destruct (H4 mapping ctx Hm Hc) as (_ & _ & _ & H5).
  split; [|split].
  - apply H1. right. left. done.
  - by apply H3.
  - apply H5. intros [[? ?]|[[? ?]|[? ?]]]; done.
Defined.

(** ** The root of a shard group *)

Lemma fsdp_modules_of_are_wrappers model :
  Forall (fun m => exists r fp c, m = FSDP r fp c) (fsdp_modules_of model).
Proof.
  induction model as [ps bs cs IH|c IH|r fp c IH] using Module_tree_ind;
    cbn [fsdp_modules_of].
  - induction IH as [|[k c] cs Hc _ IHcs]; [constructor|].
    apply Forall_app. split; [exact Hc | exact IHcs].
  - exact IH.
  - constructor; [by eexists _, _, _ | exact IH].
Qed.

Lemma find_fsdp_root_wrappers l :
  Forall (fun m => exists r fp c, m = FSDP r fp c) l ->
  exists b, find_fsdp_root l = Ok b /\
            (b = true <-> exists m, m ∈ l /\ is_root m).
Proof.
  induction 1 as [|m l (r & fp & c & ->) _ (b & Hb & Hiff)]; cbn [find_fsdp_root].
  - exists false. split; [done|]. split; [done|].
    intros (m & Hm & _). by apply elem_of_nil in Hm.
  - cbn [fsdp_state_is_root mbind result_bind].
    destruct (truthy r) eqn:Hr.
    + exists true. split; [done|]. split; [|done]. intros _.
      exists (FSDP r fp c). split; [apply list_elem_of_here|].
      unfold is_root. cbn. by destruct r as [[]|].
    + exists b. split; [done|]. rewrite Hiff. split.
      * intros (m & Hm & Hroot). exists m. split; [by apply list_elem_of_further|done].
      * intros (m & Hm & Hroot). apply elem_of_cons in Hm as [->|Hm].
        -- unfold is_root in Hroot. cbn in Hroot. injection Hroot as ->. done.
        -- by exists m.
Qed.

Lemma verify_state_dict_past_root_check model_state_dict optim_state_dict info b :
  find_fsdp_root (fsdp_modules info) = Ok b ->
  nonempty (fsdp_modules info) && negb b = false ->
  _verify_state_dict model_state_dict optim_state_dict info
  ≠ Raise (RuntimeError NoFsdpRoot).
Proof.
  intros Hb Hc. unfold _verify_state_dict. rewrite Hb. cbn [mbind result_bind].
  rewrite Hc.
  destruct (handle_model info && map_is_empty model_state_dict); [done|].
  destruct (negb (handle_optim info)); cbn [mbind result_bind].
  { by destruct (existsb _ _). }
  destruct (osd_is_empty optim_state_dict); cbn [mbind result_bind]; [done|].
  unfold get_state. destruct (osd_state optim_state_dict) as [state|];
    cbn [mbind result_bind]; [|done].
  destruct (map_is_empty state); [done|]. by destruct (existsb _ _).
Qed.

(** C4 (amended).  With sharding wrappers in the tree, verification asks
    for at least one wrapper that is the root of its shard group: it raises
    the "no root" error exactly when there are wrappers and none is a root,
    so a verification that passes has found a root, or no wrapper. *)
Theorem verify_requires_a_root
    model optims model_only optim_only options info model_state_dict optim_state_dict :
  _verify_options model optims model_only optim_only options = Ok info ->
  (_verify_state_dict model_state_dict optim_state_dict info
   = Raise (RuntimeError NoFsdpRoot)
   <-> fsdp_modules_of model ≠ [] /\
       forall m, m ∈ fsdp_modules_of model -> ~ is_root m) /\
  (_verify_state_dict model_state_dict optim_state_dict info = Ok () ->
   fsdp_modules_of model = [] \/ exists m, m ∈ fsdp_modules_of model /\ is_root m).
Proof.
  intros Hv. apply verify_options_ok_inv in Hv as (_ & Hmods & _).
  destruct (find_fsdp_root_wrappers _ (fsdp_modules_of_are_wrappers model))
    as (b & Hb & Hiff).
  rewrite <- Hmods in Hb.
  destruct (nonempty (fsdp_modules info) && negb b) eqn:Hc.
  - apply andb_true_iff in Hc as [Hne Hnb]. apply negb_true_iff in Hnb. subst b.
    assert (_verify_state_dict model_state_dict optim_state_dict info
            = Raise (RuntimeError NoFsdpRoot)) as ->.
    { unfold _verify_state_dict. rewrite Hb. cbn [mbind result_bind].
      by rewrite Hne. }
    split; [|done]. split; [|done]. intros _. split.
    + rewrite <- Hmods. by destruct (fsdp_modules info).
    + intros m Hm Hr. assert (false = true); [|done]. apply Hiff. by exists m.
  - pose proof (verify_state_dict_past_root_check
                  model_state_dict optim_state_dict info b Hb Hc) as Hnot.
    apply andb_false_iff in Hc as [Hc|Hc].
    + assert (fsdp_modules_of model = []) as Hnil.
      { rewrite <- Hmods. by destruct (fsdp_modules info). }
      split; [|by left]. split; [done|]. by intros [? _].
    + apply negb_false_iff in Hc. subst b.
      destruct Hiff as [Hroot _]. specialize (Hroot eq_refl).
      split; [|by right]. split; [done|].
      intros [_ Hnone]. destruct Hroot as (m & Hm & Hr). by destruct (Hnone m Hm).
Qed.

Lemma verify_requires_a_root_witness :
  exists info, _verify_options two_roots [] false false None = Ok info /\
    (_verify_state_dict {[ "left.weight" := Opaque 0 ]} (mkOsd (Some ∅) (Some [])) info
     = Ok () ->
     fsdp_modules_of two_roots = [] \/ exists m, m ∈ fsdp_modules_of two_roots /\ is_root m).
Proof.
  destruct (_verify_options two_roots [] false false None) as [info|e] eqn:E;
    [|by vm_compute in E].
  exists info. split; [done|].
  apply (verify_requires_a_root two_roots [] false false None info _ _ E).
Defined.

(** C4, as stated, fails: two wrappers are roots and verification passes. *)
Lemma verify_accepts_two_roots :
  exists info m1 m2,
    _verify_options two_roots [] false false None = Ok info /\
    _verify_state_dict {[ "left.weight" := Opaque 0 ]} (mkOsd (Some ∅) (Some [])) info
    = Ok () /\
    m1 ≠ m2 /\ m1 ∈ fsdp_modules info /\ m2 ∈ fsdp_modules info /\
    is_root m1 /\ is_root m2.
Proof.
  destruct (_verify_options two_roots [] false false None) as [info|e] eqn:E;
    [|by vm_compute in E].
  exists info,
    (FSDP (Some true) (Some fp_left) (Plain [("_flat_param", fp_left)] [] [])),
    (FSDP (Some true) (Some fp_right) (Plain [("_flat_param", fp_right)] [] [])).
  vm_compute in E. injection E as <-. split; [done|]. split.
  { vm_compute. reflexivity. }
  split; [done|]. cbn [fsdp_modules]. split; [apply list_elem_of_here|].
  split; [apply list_elem_of_further, list_elem_of_here|]. done.
Qed.

(** ** The patched entry points *)

Lemma patch_model_state_dict_world model options w :
  patch_model_state_dict model options w = Done () (patched options w).
Proof. reflexivity. Qed.

(** After the patch, [model.state_dict()] is the model part of
    [distributed_state_dict] restricted to the model. *)
Lemma patched_state_dict_entry N model options w :
  model_state_dict_entry N model (patched options w)
  = (r ← distributed_state_dict N model [] true false options; mret r.1)
      (patched options w).
Proof. reflexivity. Qed.

(** C8.  After the patch, [model.load_state_dict(state_dict)] raises a
    [TypeError] for every state dict, before anything is loaded: the lambda
    passes the keyword [state_dict], which [distributed_load_state_dict]
    does not have. *)
Theorem patched_load_state_dict_raises N model options state_dict w :
  (_ ← patch_model_state_dict model options;
   model_load_state_dict_entry N model state_dict) w
  = Fail TypeError (patched options w).
Proof. reflexivity. Qed.

(** ** Initialising the optimizer state *)

(** C6.  The optimizer lists one trainable parameter twice; no parameter
    has a gradient and the optimizer has no state, yet
    [_init_optim_state] raises at the second occurrence, on the zero
    gradient that it has just set itself, and no step is made. *)
Theorem init_optim_state_raises_on_repeated_param N :
  grads fresh_world = ∅ /\
  optim_states fresh_world !! oid twice_listed = None /\
  _init_optim_state N twice_listed fresh_world
  = Fail (RuntimeError GradientsNotNone)
         (set_grads {[ tensor_id w0 := Zeros (tensor_id w0) ]} fresh_world).
Proof. split; [done|]. split; [done|]. reflexivity. Qed.

(** ** Splitting the merged optimizer state *)

Lemma foldM_app {A B} (f : B -> A -> result B) b l1 l2 :
  foldM f b (l1 ++ l2) = foldM f b l1 ≫= fun b' => foldM f b' l2.
Proof.
  revert b. induction l1 as [|a l1 IH]; intros b; cbn [foldM app].
  - done.
  - destruct (f b a) as [b'|e]; cbn [mbind result_bind]; [apply IH|done].
Qed.

Lemma foldM_concat {A B C} (g : B -> C -> result B) (f : B -> A -> result B)
    (h : C -> list A) l b :
  (forall c b, c ∈ l -> g b c = foldM f b (h c)) ->
  foldM g b l = foldM f b (concat (h <$> l)).
Proof.
  revert b. induction l as [|c l IH]; intros b Hg; cbn [foldM fmap list_fmap concat].
  - done.
  - rewrite foldM_app. rewrite Hg by apply list_elem_of_here.
    destruct (foldM f b (h c)) as [b'|e]; cbn [mbind result_bind]; [|done].
    apply IH. intros c' b0 Hc'. apply Hg. by apply list_elem_of_further.
Qed.

Lemma group_ids_fold (fqn : string) (groups : list OsdGroup) (ids0 : gset nat) i :
  i ∈ foldl (fun ids g => if bool_decide (inr fqn ∈ group_params g)
                          then {[ group_id g ]} ∪ ids else ids) ids0 groups
  <-> i ∈ ids0 \/ exists g, g ∈ groups /\ inr fqn ∈ group_params g /\ group_id g = i.
Proof.
  revert ids0. induction groups as [|g groups IH]; intros ids0; cbn [foldl].
  - split; [by left|]. intros [?|(g & Hg & _)]; [done|]. by apply elem_of_nil in Hg.
  - rewrite IH. split.
    + intros [Hi|(g' & Hg' & Hm & Hid)].
      * case_bool_decide as Hb.
        -- apply elem_of_union in Hi as [Hi|Hi]; [|by left].
           apply elem_of_singleton in Hi. right. exists g.
           split; [apply list_elem_of_here|done].
        -- by left.
      * right. exists g'. split; [by apply list_elem_of_further|done].
    + intros [Hi|(g' & Hg' & Hm & Hid)].
      * left. case_bool_decide; [|done]. apply elem_of_union. by right.
      * apply elem_of_cons in Hg' as [->|Hg'].
        -- left. rewrite bool_decide_eq_true_2 by done.
           apply elem_of_union. left. by apply elem_of_singleton.
        -- right. by exists g'.
Qed.

Lemma split_fqn_step_ok osd state groups st0 ids0 f v :
  osd_state osd = Some state -> osd_param_groups osd = Some groups ->
  state !! inr f = Some v ->
  split_fqn_step osd (st0, ids0) f
  = Ok (<[inr f := v]> st0,
        foldl (fun ids g => if bool_decide (inr f ∈ group_params g)
                            then {[ group_id g ]} ∪ ids else ids) ids0 groups).
Proof.
  intros Hs Hg Hv. unfold split_fqn_step, get_state, get_param_groups, dict_get.
  rewrite Hs, Hg. cbn [mbind result_bind]. rewrite Hv. done.
Qed.

Lemma split_fqn_fold osd state groups l st0 ids0 :
  osd_state osd = Some state -> osd_param_groups osd = Some groups ->
  (forall f, f ∈ l -> is_Some (state !! inr f)) ->
  exists st ids,
    foldM (split_fqn_step osd) (st0, ids0) l = Ok (st, ids) /\
    (forall k, st !! k = if bool_decide (k ∈ (inr <$> l : list (nat + string)))
                         then state !! k else st0 !! k) /\
    (forall i, i ∈ ids <-> i ∈ ids0 \/
       exists g f, g ∈ groups /\ f ∈ l /\ inr f ∈ group_params g /\ group_id g = i).
Proof.
  intros Hs Hg. revert st0 ids0.
  induction l as [|f l IH]; intros st0 ids0 Hall; cbn [foldM].
  - exists st0, ids0. split; [done|]. split; [done|].
    intros i. split; [by left|]. intros [?|(g & f & _ & Hf & _)]; [done|].
    by apply elem_of_nil in Hf.
  - destruct (Hall f) as [v Hv]; [apply list_elem_of_here|].
    rewrite (split_fqn_step_ok _ _ _ _ _ _ _ Hs Hg Hv). cbn [mbind result_bind].
    destruct (IH (<[inr f := v]> st0)
                 (foldl (fun ids g => if bool_decide (inr f ∈ group_params g)
                                      then {[ group_id g ]} ∪ ids else ids) ids0 groups))
      as (st & ids & Hfold & Hst & Hids).
    { intros f' Hf'. apply Hall. by apply list_elem_of_further. }
    exists st, ids. split; [exact Hfold|]. split.
    + intros k. rewrite Hst. cbn [fmap list_fmap].
      case_bool_decide as H1.
      * rewrite bool_decide_eq_true_2; [done|]. by apply list_elem_of_further.
      * destruct (decide (k = inr f)) as [->|Hne].
        -- rewrite lookup_insert_eq.
           rewrite bool_decide_eq_true_2 by apply list_elem_of_here. done.
        -- rewrite lookup_insert_ne by done.
           rewrite bool_decide_eq_false_2; [done|].
           intros Hc. apply elem_of_cons in Hc as [?|?]; done.
    + intros i. rewrite Hids, group_ids_fold. split.
      * intros [[Hi|(g & Hgin & Hm & Hid)]|(g & f' & Hgin & Hf' & Hm & Hid)].
        -- by left.
        -- right. exists g, f. split; [done|]. split; [apply list_elem_of_here|done].
        -- right. exists g, f'. split; [done|].
           split; [by apply list_elem_of_further|done].
      * intros [Hi|(g & f' & Hgin & Hf' & Hm & Hid)]; [by left; left|].
        apply elem_of_cons in Hf' as [->|Hf'].
        -- left. right. by exists g.
        -- right. by exists g, f'.
Qed.

Lemma split_param_step_pull osd info acc p :
  (requires_grad p = true ->
   is_Some (by_param (fqn_param_mapping info) !! tensor_id p)) ->
  split_param_step osd info acc p
  = foldM (split_fqn_step osd) acc (fqns_to_pull info p).
Proof.
  intros H. unfold split_param_step, fqns_to_pull, dict_get.
  destruct (requires_grad p); cbn [negb]; [|done].
  destruct (H eq_refl) as [fqns ->]. done.
Qed.

Lemma elem_of_concat {A} (x : A) (ls : list (list A)) :
  x ∈ concat ls <-> exists l, l ∈ ls /\ x ∈ l.
Proof.
  induction ls as [|l0 ls IH]; cbn [concat].
  - split; [by intros ?%elem_of_nil|]. by intros (l & ?%elem_of_nil & _).
  - rewrite elem_of_app, IH. split.
    + intros [Hx|(l & Hl & Hx)].
      * exists l0. split; [apply list_elem_of_here|done].
      * exists l. split; [by apply list_elem_of_further|done].
    + intros (l & Hl & Hx). apply elem_of_cons in Hl as [->|Hl]; [by left|].
      right. by exists l.
Qed.

Lemma elem_of_fqns_to_pull optim info f :
  f ∈ concat ((fun g => concat (fqns_to_pull info <$> params g)) <$> param_groups optim)
  <-> trainable_fqn optim info f.
Proof.
  unfold trainable_fqn. rewrite elem_of_concat. split.
  - intros (l & Hl & Hf). apply list_elem_of_fmap in Hl as (g & -> & Hg).
    apply elem_of_concat in Hf as (l' & Hl' & Hf').
    apply list_elem_of_fmap in Hl' as (p & -> & Hp).
    unfold fqns_to_pull in Hf'. destruct (requires_grad p) eqn:Hr.
    + destruct (by_param (fqn_param_mapping info) !! tensor_id p) as [fqns|] eqn:E;
        cbn [default] in Hf'.
      * exists g, p, fqns. repeat split; try done. by apply elem_of_elements.
      * rewrite elements_empty in Hf'. by apply elem_of_nil in Hf'.
    + by apply elem_of_nil in Hf'.
  - intros (g & p & fqns & Hg & Hp & Hr & E & Hf).
    exists (concat (fqns_to_pull info <$> params g)). split.
    + apply list_elem_of_fmap. by exists g.
    + apply elem_of_concat. exists (fqns_to_pull info p). split.
      * apply list_elem_of_fmap. by exists p.
      * unfold fqns_to_pull. rewrite Hr, E. cbn [default]. by apply elem_of_elements.
Qed.

Lemma split_pulls model optim osd info state groups :
  osd_state osd = Some state ->
  osd_param_groups osd = Some groups ->
  (forall g p, g ∈ param_groups optim -> p ∈ params g -> requires_grad p = true ->
     is_Some (by_param (fqn_param_mapping info) !! tensor_id p)) ->
  (forall fqn, trainable_fqn optim info fqn -> is_Some (state !! inr fqn)) ->
  (forall g g', g ∈ groups -> g' ∈ groups -> group_id g = group_id g' -> g = g') ->
  exists (st : gmap (nat + string) Value) (ids : gset nat),
    _split_optim_state_dict model optim osd info
    = Ok (mkOsd (Some st) (Some (filter (fun g => group_id g ∈ ids) groups))) /\
    (forall k v, st !! k = Some v <->
       exists fqn, k = inr fqn /\ trainable_fqn optim info fqn /\ state !! k = Some v) /\
    (forall g, g ∈ groups -> group_id g ∈ ids <-> mentions_trainable optim info g).
Proof.
  intros Hs Hg Hidx Hst Hid.
  set (todo := concat ((fun g => concat (fqns_to_pull info <$> params g))
                         <$> param_groups optim)).
  assert (foldM (fun acc param_group =>
                   foldM (split_param_step osd info) acc (params param_group))
                (∅, ∅) (param_groups optim)
          = foldM (split_fqn_step osd) (∅, ∅) todo) as Hflat.
  { apply foldM_concat. intros g b Hgin.
    apply foldM_concat. intros p b' Hp.
    apply split_param_step_pull. intros Hr. by apply (Hidx g p). }
  destruct (split_fqn_fold osd state groups todo ∅ ∅ Hs Hg) as (st & ids & Hfold & Hk & Hi).
  { intros f Hf. apply Hst. by apply elem_of_fqns_to_pull. }
  exists st, ids. split; [|split].
  - unfold _split_optim_state_dict. rewrite Hflat, Hfold. cbn [mbind result_bind].
    unfold get_param_groups. rewrite Hg. done.
  - intros k v. rewrite Hk. case_bool_decide as Hin.
    + apply list_elem_of_fmap in Hin as (f & -> & Hf).
      apply elem_of_fqns_to_pull in Hf. split.
      * intros Hv. by exists f.
      * by intros (f' & _ & _ & Hv).
    + rewrite lookup_empty. split; [done|].
      intros (f & -> & Hf & _). exfalso. apply Hin.
      apply list_elem_of_fmap. exists f. split; [done|]. by apply elem_of_fqns_to_pull.
  - intros g Hgin. rewrite Hi. unfold mentions_trainable. split.
    + intros [Hc|(g' & f & Hg' & Hf & Hm & Heq)]; [by apply not_elem_of_empty in Hc|].
      rewrite (Hid g g' Hgin Hg' (eq_sym Heq)). exists f. split; [|done].
      by apply elem_of_fqns_to_pull.
    + intros (f & Hf & Hm). right. exists g, f. repeat split; try done.
      by apply elem_of_fqns_to_pull.
Qed.

Lemma info_two_verified :
  _verify_options plain_two [optim_two] false false None = Ok info_two.
Proof. vm_compute. reflexivity. Qed.

(** ** Loading into a replicated module with a buffer *)

Lemma replica_with_buffer_rekeyed N :
  foldM (ddp_prefix_param_step N replica_with_buffer) canonical_names_sd
        (named_parameters replica_with_buffer)
  = Ok half_prefixed_sd.
Proof. vm_compute. reflexivity. Qed.

(** C10.  The model is a replica wrapper around a module with a parameter
    [w] and a buffer [b], and the caller's dict has the canonical keys [w]
    and [b].  Whatever the collaborators do, the native load is given, and
    the caller is left with, the keys [module.w] and [b]: the key of the
    buffer is not re-prefixed. *)
Theorem load_leaves_buffer_key_canonical N :
  let r := distributed_load_state_dict N replica_with_buffer [] canonical_names_sd
             (mkOsd None None) false false None fresh_world in
  let handed := emit (EvLoadStateDict nullcontext half_prefixed_sd) fresh_world in
  ("module.b" ∉ dom half_prefixed_sd) /\ ("b" ∈ dom half_prefixed_sd) /\
  (r = Done half_prefixed_sd handed \/ exists e, r = Fail e handed).
Proof.
  intros r handed. split; [|split].
  - intros H. apply elem_of_dom in H. vm_compute in H. by destruct H.
  - apply elem_of_dom. vm_compute. by eexists.
  - subst r. unfold distributed_load_state_dict.
    assert (_verify_options replica_with_buffer [] false false None
            = Ok (mkInfo default_options
                    (mkMapping {[ 0 := {[ "w" ]} ]} {[ "w" := w0 ]})
                    true false nullcontext [])) as Hv by (vm_compute; reflexivity).
    unfold mbind, M_bind, lift. rewrite Hv.
    assert (_verify_state_dict canonical_names_sd (mkOsd None None)
              (mkInfo default_options
                    (mkMapping {[ 0 := {[ "w" ]} ]} {[ "w" := w0 ]})
                    true false nullcontext []) = Ok ()) as -> by (vm_compute; reflexivity).
    unfold _load_model_state_dict, mbind, M_bind, lift.
    rewrite replica_with_buffer_rekeyed.
    cbn [_state_dict_fn read fresh_world instance_attrs lookup_attr default
         _patched_state_dict call_native_with_argument write fsdp_context].
    rewrite bool_decide_eq_false_2 by (by intros ?%elem_of_nil).
    cbn [call_native_with_argument write fsdp_context].
    fold handed.
    destruct (nn_load_state_dict N nullcontext replica_with_buffer half_prefixed_sd)
      as [ack|e]; [left|right].
    + reflexivity.
    + by exists e.
Qed.

(** C1.  The round trip on [replica_with_buffer], with itself as the
    structurally identical second model: the state is produced under the
    canonical names, and loading it back ends in the error of the native
    load, which was given the buffer under [b] where the module has
    [module.b]. *)
Theorem round_trip_fails_on_replica_with_buffer :
  exists w1 w2,
    distributed_state_dict strict_native replica_with_buffer [] false false None
      fresh_world
    = Done (canonical_names_sd, mkOsd (Some ∅) (Some [])) w1 /\
    distributed_load_state_dict strict_native replica_with_buffer []
      canonical_names_sd (mkOsd (Some ∅) (Some [])) false false None w1
    = Fail (NativeError 0) w2 /\
    log w2 = [EvLoadStateDict nullcontext half_prefixed_sd] /\
    dom half_prefixed_sd ≠ dom native_names_sd.
Proof.
  exists fresh_world, (emit (EvLoadStateDict nullcontext half_prefixed_sd) fresh_world).
  split; [vm_compute; reflexivity|].
  split; [vm_compute; reflexivity|].
  split; [reflexivity|].
  intros H. assert ("module.b" ∈ dom half_prefixed_sd) as Hb.
  { rewrite H. apply elem_of_dom. vm_compute. by eexists. }
  apply elem_of_dom in Hb. vm_compute in Hb. by destruct Hb.
Qed.

(** ** Names in a model without wrappers *)

Lemma append_assoc (a b c : string) : (a +:+ b) +:+ c = a +:+ (b +:+ c).
Proof.
  induction a as [|x a IH]; [done|].
  change (String x ((a +:+ b) +:+ c) = String x (a +:+ (b +:+ c))). by f_equal.
Qed.

Lemma with_prefix_nonempty p s : p ≠ "" -> with_prefix p s = p +:+ "." +:+ s.
Proof. intros Hp. unfold with_prefix. by destruct p. Qed.

Lemma with_prefix_empty s : with_prefix "" s = s.
Proof. done. Qed.

Lemma foldl_with_prefix_join p segs :
  p ≠ "" -> foldl with_prefix p segs = PyStr.join "." (p :: segs).
Proof.
  revert p. induction segs as [|s segs IH]; intros p Hp; cbn [foldl].
  - done.
  - rewrite with_prefix_nonempty by done. rewrite IH.
    + destruct segs as [|y r].
      * done.
      * change (PyStr.join "." ((p +:+ "." +:+ s) :: y :: r))
          with ((p +:+ "." +:+ s) +:+ "." +:+ PyStr.join "." (y :: r)).
        change (PyStr.join "." (p :: s :: y :: r))
          with (p +:+ "." +:+ (s +:+ "." +:+ PyStr.join "." (y :: r))).
        by rewrite !append_assoc.
    + by destruct p.
Qed.

Lemma foldl_with_prefix_empty segs :
  Forall (fun s => s ≠ "") segs -> foldl with_prefix "" segs = PyStr.join "." segs.
Proof.
  destruct 1 as [|s segs Hs Hall]; [done|].
  cbn [foldl]. rewrite with_prefix_empty. by apply foldl_with_prefix_join.
Qed.

Lemma assoc_elem_of {A} k (v : A) l : (k, v) ∈ l -> is_Some (assoc k l).
Proof.
  induction l as [|[k' v'] l IH]; [by intros ?%elem_of_nil|].
  intros [[= <- <-]|Hin]%elem_of_cons; cbn [assoc].
  - rewrite String.eqb_refl. by eexists.
  - destruct (String.eqb k k'); [by eexists | by apply IH].
Qed.

Lemma assoc_not_elem_of {A} k (l : list (string * A)) : k ∉ l.*1 -> assoc k l = None.
Proof.
  induction l as [|[k' v'] l IH]; [done|]. cbn [assoc fmap list_fmap fst].
  intros Hn. destruct (String.eqb_spec k k') as [->|Hne].
  - exfalso. apply Hn. apply list_elem_of_here.
  - apply IH. intros Hin. apply Hn. by apply list_elem_of_further.
Qed.

Lemma assoc_NoDup {A} k (v : A) l : NoDup l.*1 -> (k, v) ∈ l -> assoc k l = Some v.
Proof.
  induction l as [|[k' v'] l IH]; [by intros _ ?%elem_of_nil|].
  cbn [fmap list_fmap fst assoc]. intros [Hn Hnd]%NoDup_cons [[= <- <-]|Hin]%elem_of_cons.
  - by rewrite String.eqb_refl.
  - destruct (String.eqb_spec k k') as [->|Hne]; [|by apply IH].
    exfalso. apply Hn. apply list_elem_of_fmap. by exists (k', v).
Qed.

Lemma elem_of_named_children get prefix cs name t :
  (name, t) ∈ (fix children (cs : list (string * Module)) :=
                 match cs with
                 | [] => []
                 | (k, c) :: cs' =>
                     _named_members get (with_prefix prefix k) c ++ children cs'
                 end) cs ->
  exists k c, (k, c) ∈ cs /\ (name, t) ∈ _named_members get (with_prefix prefix k) c.
Proof.
  induction cs as [|[k c] cs IH]; [by intros ?%elem_of_nil|].
  intros [Hin|Hin]%elem_of_app.
  - exists k, c. split; [apply list_elem_of_here|done].
  - destruct (IH Hin) as (k' & c' & Hc & Hm). exists k', c'.
    split; [by apply list_elem_of_further|done].
Qed.

Lemma unwrapped_names_resolve get model :
  (forall ps bs e, e ∈ get ps bs -> e ∈ ps ++ bs) ->
  unwrapped model ->
  forall prefix name t,
    (name, t) ∈ _named_members get prefix model ->
    exists segs, segs ≠ [] /\ name = foldl with_prefix prefix segs /\
      Forall (fun k => dotfree k /\ k ≠ "") segs /\
      forall acc, _get_fqns_loop true (OModule model) acc segs
                  = Ok {[ PyStr.join "." (acc ++ segs) ]}.
Proof.
  intros Hget.
  induction model as [ps bs cs IH|c IH|r fp c IH] using Module_tree_ind;
    intros Hu prefix name t Hin; [|inversion Hu|inversion Hu].
  inversion Hu as [ps' bs' cs' Hnd Hnames Hcs]; subst.
  cbn [_named_members] in Hin. apply elem_of_app in Hin as [Hin|Hin].
  - apply list_elem_of_fmap in Hin as ([k v] & [= -> ->] & Hkv).
    apply Hget in Hkv.
    exists [k]. split; [done|]. split; [done|]. split.
    + constructor; [|constructor].
      rewrite Forall_forall in Hnames. apply Hnames.
      apply elem_of_app in Hkv as [Hkv|Hkv].
      * apply elem_of_app. left. apply list_elem_of_fmap. by exists (k, v).
      * apply elem_of_app. right. apply elem_of_app. left.
        apply list_elem_of_fmap. by exists (k, v).
    + intros acc. cbn [_get_fqns_loop getattr getattr_module].
      assert (exists t', match assoc k ps with
                         | Some p => Ok (OTensor p)
                         | None => match assoc k bs with
                                   | Some b => Ok (OTensor b)
                                   | None => match assoc k cs with
                                             | Some c => Ok (OModule c)
                                             | None => Raise AttributeError
                                             end
                                   end
                         end = Ok (OTensor t')) as [t' ->].
      { apply elem_of_app in Hkv as [Hkv|Hkv].
        - destruct (assoc_elem_of _ _ _ Hkv) as [t' ->]. by exists t'.
        - destruct (assoc k ps) as [p|]; [by exists p|].
          destruct (assoc_elem_of _ _ _ Hkv) as [t' ->]. by exists t'. }
      done.
  - apply elem_of_named_children in Hin as (k & c & Hc & Hm).
    rewrite Forall_forall in IH. rewrite Forall_forall in Hcs.
    destruct (IH (k, c) Hc (Hcs (k, c) Hc) _ _ _ Hm)
      as (segs & Hne & Hname & Hall & Hloop).
    exists (k :: segs). split; [done|]. split; [done|]. split.
    + constructor; [|done]. rewrite Forall_forall in Hnames. apply Hnames.
      apply elem_of_app. right. apply elem_of_app. right.
      apply list_elem_of_fmap. by exists (k, c).
    + intros acc. cbn [_get_fqns_loop getattr getattr_module].
      apply NoDup_app in Hnd as (_ & Hps & Hnd).
      apply NoDup_app in Hnd as (_ & Hbs & Hnd).
      assert (k ∈ cs.*1) as Hk by (apply list_elem_of_fmap; by exists (k, c)).
      rewrite (assoc_not_elem_of k ps).
      2: { intros Hc'. apply (Hps k Hc'). apply elem_of_app. by right. }
      rewrite (assoc_not_elem_of k bs).
      2: { intros Hc'. by apply (Hbs k Hc'). }
      rewrite (assoc_NoDup k c cs Hnd Hc).
      rewrite Hloop. by rewrite <- app_assoc.
Qed.

Lemma unwrapped_get_fqns get model name t :
  (forall ps bs e, e ∈ get ps bs -> e ∈ ps ++ bs) ->
  unwrapped model ->
  (name, t) ∈ _named_members get "" model ->
  _get_fqns model name true = Ok {[ name ]}.
Proof.
  intros Hget Hu Hin. unfold _get_fqns.
  destruct (PyStr.has_dot name) eqn:Hdot; cbn [negb]; [|done].
  destruct (unwrapped_names_resolve get model Hget Hu "" name t Hin)
    as (segs & Hne & -> & Hall & Hloop).
  rewrite foldl_with_prefix_empty.
  2: { eapply Forall_impl; [exact Hall|]. by intros s [_ ?]. }
  destruct segs as [|s segs]; [done|].
  rewrite split_dot_join.
  2: { eapply Forall_impl; [exact Hall|]. by intros s' [? _]. }
  by rewrite Hloop.
Qed.

(** ** Extraction with no optimizer *)

Lemma bind_done {A B} (m : M A) (k : A -> M B) w b w2 :
  (m ≫= k) w = Done b w2 ->
  exists a w1, m w = Done a w1 /\ k a w1 = Done b w2.
Proof.
  unfold mbind, M_bind. destruct (m w) as [a w1|e w1]; [|done]. by exists a, w1.
Qed.

Lemma bind_eq {A B} (m : M A) (k : A -> M B) w a w1 :
  m w = Done a w1 -> (m ≫= k) w = k a w1.
Proof. unfold mbind, M_bind. by intros ->. Qed.

Lemma lift_done {A} (r : result A) w a w1 :
  lift r w = Done a w1 -> r = Ok a /\ w1 = w.
Proof. unfold lift. destruct r; [|done]. by intros [= -> ->]. Qed.

Lemma fsdp_modules_of_unwrapped model :
  unwrapped model -> fsdp_modules_of model = [].
Proof.
  induction model as [ps bs cs IH|c IH|r fp c IH] using Module_tree_ind;
    intros Hu; [|inversion Hu|inversion Hu].
  inversion Hu as [ps' bs' cs' _ _ Hcs]; subst. cbn [fsdp_modules_of]. clear Hu.
  induction cs as [|[k c] cs IHcs]; [done|].
  apply Forall_cons in IH as [IHc IH]. apply Forall_cons in Hcs as [Hc Hcs].
  cbn [snd] in IHc, Hc. rewrite (IHc Hc). cbn [app]. by apply IHcs.
Qed.

Lemma state_dict_fn_registered obj api w :
  patches_registered w ->
  _state_dict_fn obj api w = Done (native_method api) w \/
  _state_dict_fn obj api w = Done (class_partial api) w.
Proof.
  intros Hreg. unfold _state_dict_fn, read.
  destruct (lookup_attr obj api (instance_attrs w)) as [call|] eqn:E; cbn [default].
  - right. by rewrite bool_decide_eq_true_2 by (by eapply Hreg).
  - case_bool_decide; [by right|by left].
Qed.

(** Where every attribute set on an instance is a registered patch, a
    call with no argument of what [_state_dict_fn] returns runs the method
    of the class. *)
Lemma state_dict_fn_native {A B} obj api w (native : M A) (k : A -> M B) :
  patches_registered w ->
  (call ← _state_dict_fn obj api; x ← call_native call native; k x) w
  = (x ← native; k x) w.
Proof.
  intros Hreg.
  by destruct (state_dict_fn_registered obj api w Hreg) as [H|H];
    rewrite (bind_eq _ _ _ _ _ H).
Qed.

(** Where the attribute is not patched, [_state_dict_fn] returns the
    bound method. *)
Lemma state_dict_fn_unpatched obj api w :
  unpatched obj api w -> _state_dict_fn obj api w = Done (native_method api) w.
Proof.
  intros [Hattr Hset]. unfold _state_dict_fn, read. rewrite Hattr. cbn [default].
  by rewrite bool_decide_eq_false_2.
Qed.

Lemma canonical_keys_fixed model keys (sd : gmap string Value) :
  (forall k, k ∈ keys -> _get_fqns model k true = Ok {[ k ]}) ->
  foldM (canonical_key_step model) sd keys = Ok sd.
Proof.
  induction keys as [|k keys IH]; intros H; cbn [foldM]; [done|].
  assert (canonical_key_step model sd k = Ok sd) as ->.
  { unfold canonical_key_step. rewrite (H k) by apply list_elem_of_here.
    cbn [mbind result_bind]. rewrite elements_singleton.
    by rewrite String.eqb_refl. }
  cbn [mbind result_bind]. apply IH. intros k' Hk'. apply H.
  by apply list_elem_of_further.
Qed.


Lemma named_parameters_resolve model name p :
  unwrapped model -> (name, p) ∈ named_parameters model ->
  _get_fqns model name true = Ok {[ name ]}.
Proof.
  intros Hu Hin.
  destruct (remove_duplicate_spec ∅ (_named_members (fun ps _ => ps) "" model))
    as [_ Hsub].
  destruct (Hsub _ Hin) as [_ Hraw].
  apply (unwrapped_get_fqns (fun ps _ => ps) model name p); [|done|done].
  intros ps bs e He. apply elem_of_app. by left.
Qed.

Lemma state_dict_names_resolve model name :
  unwrapped model -> name ∈ state_dict_names model ->
  _get_fqns model name true = Ok {[ name ]}.
Proof.
  intros Hu Hin. unfold state_dict_names in Hin.
  apply list_elem_of_fmap in Hin as ([n t] & -> & Hin).
  by apply (unwrapped_get_fqns (fun ps bs => ps ++ bs) model n t).
Qed.

Lemma unwrapped_verify_options model model_only options :
  unwrapped model ->
  use_dtensor (default default_options options) = true ->
  exists mapping,
    _verify_options model [] model_only false options
    = Ok (mkInfo (default default_options options) mapping true false nullcontext []).
Proof.
  intros Hu Hdt.
  pose proof (fsdp_modules_of_unwrapped model Hu) as Hnil.
  destruct (foldM_index_total model (default default_options options)
              (named_parameters model) (mkMapping ∅ ∅)) as [mapping Hmapping].
  { intros name p Hin. split; [|done].
    exists {[ name ]}. by apply (named_parameters_resolve _ _ p). }
  exists mapping.
  erewrite verify_options_stages; [|exact Hmapping|by rewrite Hnil].
  rewrite Hnil. by destruct model_only.
Qed.

Lemma unmarked_verify_state_dict (state_dict : gmap string Value) options mapping :
  state_dict ≠ ∅ ->
  (forall k, k ∈ dom state_dict -> PyStr.contains FLAT_PARAM k = false) ->
  _verify_state_dict state_dict empty_osd
    (mkInfo options mapping true false nullcontext []) = Ok ().
Proof.
  intros Hne Hkeys. unfold _verify_state_dict.
  cbn [fsdp_modules find_fsdp_root mbind result_bind nonempty andb handle_model
       handle_optim negb].
  unfold map_is_empty. rewrite bool_decide_eq_false_2 by done.
  cbn [mbind result_bind].
  assert (existsb (PyStr.contains FLAT_PARAM) (elements (dom state_dict)) = false) as ->.
  { apply not_true_is_false. intros Hex.
    apply existsb_exists in Hex as (k & Hk & Hc).
    apply list_elem_of_In, elem_of_elements in Hk.
    by rewrite (Hkeys k Hk) in Hc. }
  done.
Qed.

(** For a model without wrappers and no optimizer, the extraction returns
    the native state dict as it is. *)
Lemma unwrapped_extraction N model model_only options w state_dict :
  unwrapped model ->
  use_dtensor (default default_options options) = true ->
  save_frozen_params (default default_options options) = true ->
  patches_registered w ->
  nn_state_dict N nullcontext model = Ok state_dict ->
  state_dict ≠ ∅ ->
  (forall k, k ∈ dom state_dict ->
     k ∈ state_dict_names model /\ PyStr.contains FLAT_PARAM k = false) ->
  distributed_state_dict N model [] model_only false options w
  = Done (state_dict, empty_osd) w.
Proof.
  intros Hu Hdt Hfrozen Hreg Hnative Hne Hkeys.
  destruct (unwrapped_verify_options model model_only options Hu Hdt) as [mapping Hv].
  set (info := mkInfo (default default_options options) mapping true false
                 nullcontext []) in *.
  assert (_get_model_state_dict N model info w = Done state_dict w) as Hmsd.
  { unfold _get_model_state_dict.
    rewrite state_dict_fn_native by done.
    unfold info. cbn [call_native fsdp_context info_options]. rewrite Hnative.
    rewrite (bind_eq _ _ w state_dict w) by done.
    rewrite canonical_keys_fixed.
    2: { intros k Hk. apply state_dict_names_resolve; [done|].
         apply Hkeys. by apply elem_of_elements. }
    rewrite (bind_eq _ _ w state_dict w) by done.
    by rewrite Hfrozen. }
  assert (_verify_state_dict state_dict empty_osd info = Ok ()) as Hok.
  { apply unmarked_verify_state_dict; [done|]. intros k Hk. by apply Hkeys. }
  unfold distributed_state_dict. rewrite Hv.
  rewrite (bind_eq _ _ w info w) by done.
  rewrite (bind_eq _ _ _ _ _ Hmsd).
  rewrite (bind_eq _ _ w empty_osd w) by done.
  rewrite Hok. done.
Qed.

(** ** Loading into a model with no replica wrapper *)

Lemma getattr_module_no_replica m name o :
  no_replica m -> getattr_module m name = Ok o -> no_replica_obj o.
Proof.
  induction m as [ps bs cs IH|c IH|r fp c IH] using Module_tree_ind;
    intros Hn; inversion Hn as [? ? ? Hcs|? ? ? Hc]; subst; cbn [getattr_module].
  - destruct (assoc name ps); [by intros [= <-]|].
    destruct (assoc name bs); [by intros [= <-]|].
    destruct (assoc name cs) as [c|] eqn:E; [|done]. intros [= <-]. cbn.
    clear IH. induction cs as [|[k c'] cs IHcs]; [done|].
    apply Forall_cons in Hcs as [Hc Hcs]. cbn [assoc] in E.
    destruct (String.eqb name k).
    + assert (c = c') as -> by congruence. exact Hc.
    + apply IHcs; [by constructor|done|done].
  - destruct (String.eqb name FSDP_WRAPPED_MODULE); [by intros [= <-]|].
    destruct (String.eqb name DDP_MODULE); [by intros [= <-]|].
    destruct (String.eqb name FLAT_PARAM).
    + intros [= <-]. by destruct fp.
    + by apply IH.
Qed.

Lemma get_fqns_loop_no_replica names : forall o acc,
  no_replica_obj o ->
  _get_fqns_loop true o acc names = _get_fqns_loop false o acc names.
Proof.
  induction names as [|n rest IH]; intros o acc Ho; [done|].
  destruct o as [[ps bs cs|c|r fp c]| |]; cbn [_get_fqns_loop getattr].
  - destruct (getattr_module (Plain ps bs cs) n) as [o|e] eqn:E; [|done].
    apply IH. by eapply getattr_module_no_replica.
  - inversion Ho.
  - destruct rest as [|next rest']; [done|].
    destruct (String.eqb next FLAT_PARAM); [done|].
    inversion Ho; subst.
    destruct (String.eqb n FSDP_WRAPPED_MODULE); [by apply IH|].
    destruct (getattr_module c n) as [o|e] eqn:E; [|done].
    apply IH. by eapply getattr_module_no_replica.
  - done.
  - done.
Qed.

Lemma get_fqns_no_replica model name :
  no_replica model -> _get_fqns model name true = _get_fqns model name false.
Proof.
  intros Hn. unfold _get_fqns. destruct (negb (PyStr.has_dot name)); [done|].
  by apply get_fqns_loop_no_replica.
Qed.

Lemma ddp_prefix_step_same (l : list string) (sd : gmap string Value) :
  foldM ddp_prefix_step sd (zip l l) = Ok sd.
Proof.
  induction l as [|x l IH]; [done|]. cbn [zip zip_with foldM ddp_prefix_step].
  by rewrite String.eqb_refl.
Qed.

Lemma ddp_prefix_param_step_no_replica N model (sd : gmap string Value) e :
  no_replica model ->
  ddp_prefix_param_step N model sd e = (_ ← _get_fqns model e.1 true; Ok sd).
Proof.
  intros Hn. unfold ddp_prefix_param_step. rewrite <- (get_fqns_no_replica _ _ Hn).
  destruct (_get_fqns model e.1 true) as [fqns|err]; cbn [mbind result_bind]; [|done].
  apply ddp_prefix_step_same.
Qed.

(** Without a replica wrapper in the tree, the loop of
    [_load_model_state_dict] leaves the caller's dict as it is, if it ends. *)
Lemma load_without_replica_keeps_dict N model l (sd d : gmap string Value) :
  no_replica model ->
  foldM (ddp_prefix_param_step N model) sd l = Ok d -> d = sd.
Proof.
  intros Hn. revert sd. induction l as [|e l IH]; intros sd; cbn [foldM].
  - by intros [= <-].
  - rewrite (ddp_prefix_param_step_no_replica N _ _ _ Hn).
    destruct (_get_fqns model e.1 true) as [fqns|err]; cbn [mbind result_bind]; [|done].
    apply IH.
Qed.

(** ** [_init_optim_state] on parameters that are listed once *)

Lemma set_grads_same w : set_grads (grads w) w = w.
Proof. by destruct w. Qed.

Lemma forM__app {A} (f : A -> M unit) l1 l2 w :
  forM_ f (l1 ++ l2) w = (_ ← forM_ f l1; forM_ f l2) w.
Proof.
  revert w. induction l1 as [|a l1 IH]; intros w; cbn [forM_ app]; [done|].
  unfold mbind, M_bind. destruct (f a w) as [[] w1|e w1]; [|done]. apply IH.
Qed.

Lemma forM__concat {A} (f : A -> M unit) (ls : list (list A)) w :
  forM_ (fun l => forM_ f l) ls w = forM_ f (concat ls) w.
Proof.
  revert w. induction ls as [|l ls IH]; intros w; cbn [forM_ concat]; [done|].
  rewrite forM__app. unfold mbind, M_bind.
  destruct (forM_ f l w) as [[] w1|e w1]; [|done]. apply IH.
Qed.

Lemma forM__fmap {A B} (f : A -> M unit) (h : B -> A) (l : list B) w :
  forM_ (fun b => f (h b)) l w = forM_ f (h <$> l) w.
Proof.
  revert w. induction l as [|b l IH]; intros w; cbn [forM_ fmap list_fmap]; [done|].
  unfold mbind, M_bind. destruct (f (h b) w) as [[] w1|e w1]; [|done]. apply IH.
Qed.

Lemma synthesized_cons p ps (g : gmap nat Value) :
  synthesized (p :: ps) g
  = synthesized ps (if requires_grad p
                    then <[tensor_id p := Zeros (tensor_id p)]> g else g).
Proof. reflexivity. Qed.

Lemma synthesized_other ps (g : gmap nat Value) i :
  i ∉ tensor_id <$> ps -> synthesized ps g !! i = g !! i.
Proof.
  revert g. induction ps as [|p ps IH]; intros g Hi; [done|].
  rewrite synthesized_cons, IH.
  - destruct (requires_grad p); [|done]. rewrite lookup_insert_ne; [done|].
    intros Heq. apply Hi. rewrite <- Heq. apply list_elem_of_here.
  - intros Hc. apply Hi. by apply list_elem_of_further.
Qed.

Lemma synthesized_trainable ps (g : gmap nat Value) p :
  NoDup (tensor_id <$> ps) -> p ∈ ps -> requires_grad p = true ->
  synthesized ps g !! tensor_id p = Some (Zeros (tensor_id p)).
Proof.
  revert g. induction ps as [|q ps IH]; intros g Hnd Hin Hr;
    [by apply elem_of_nil in Hin|].
  cbn [fmap list_fmap] in Hnd. apply NoDup_cons in Hnd as [Hq Hnd].
  rewrite synthesized_cons.
  apply elem_of_cons in Hin as [->|Hin].
  - rewrite synthesized_other by done. rewrite Hr. apply lookup_insert_eq.
  - by apply IH.
Qed.

Lemma cleared_lookup ps (g : gmap nat Value) i :
  foldl (fun g param => delete (tensor_id param) g) g ps !! i
  = if bool_decide (i ∈ tensor_id <$> ps) then None else g !! i.
Proof.
  revert g. induction ps as [|p ps IH]; intros g; [done|].
  cbn [foldl fmap list_fmap]. rewrite IH.
  case_bool_decide as H1.
  - rewrite bool_decide_eq_true_2; [done|]. by apply list_elem_of_further.
  - destruct (decide (i = tensor_id p)) as [->|Hne].
    + rewrite lookup_delete_eq.
      by rewrite bool_decide_eq_true_2 by apply list_elem_of_here.
    + rewrite lookup_delete_ne by done.
      rewrite bool_decide_eq_false_2; [done|].
      intros Hc. apply elem_of_cons in Hc as [?|?]; done.
Qed.

Lemma init_param_grad_cases p w :
  (is_Some (grads w !! tensor_id p) /\
   init_param_grad p w = Fail (RuntimeError GradientsNotNone) w) \/
  (grads w !! tensor_id p = None /\
   init_param_grad p w
   = Done () (if requires_grad p
              then set_grads (<[tensor_id p := Zeros (tensor_id p)]> (grads w)) w
              else w)).
Proof.
  unfold init_param_grad. destruct (grads w !! tensor_id p) as [g|].
  - left. split; [by exists g|done].
  - right. split; [done|]. by destruct (requires_grad p).
Qed.

Lemma init_grads_fresh ps w :
  NoDup (tensor_id <$> ps) ->
  (forall p, p ∈ ps -> grads w !! tensor_id p = None) ->
  forM_ init_param_grad ps w = Done () (set_grads (synthesized ps (grads w)) w).
Proof.
  revert w. induction ps as [|p ps IH]; intros w Hnd Hnone.
  - cbn. by rewrite set_grads_same.
  - cbn [fmap list_fmap] in Hnd. apply NoDup_cons in Hnd as [Hp Hnd].
    cbn [forM_]. unfold mbind, M_bind.
    destruct (init_param_grad_cases p w) as [[[g Hg] _]|[_ ->]].
    { rewrite (Hnone p) in Hg by apply list_elem_of_here. done. }
    rewrite synthesized_cons.
    destruct (requires_grad p).
    + rewrite IH; [done|done|]. intros q Hq. cbn [grads set_grads].
      rewrite lookup_insert_ne.
      * apply Hnone. by apply list_elem_of_further.
      * intros Heq. apply Hp. rewrite Heq. apply list_elem_of_fmap. by exists q.
    + apply IH; [done|]. intros q Hq. apply Hnone. by apply list_elem_of_further.
Qed.

(** X11.  With no parameter listed twice, no gradient set and no optimizer
    state, [_init_optim_state] makes one step, which sees a zero gradient
    on every trainable parameter, and then clears the gradients of all the
    parameters. *)
Lemma init_optim_state_fresh N optim w st :
  default ∅ (optim_states w !! oid optim) = ∅ ->
  NoDup (tensor_id <$> all_params optim) ->
  (forall p, p ∈ all_params optim -> grads w !! tensor_id p = None) ->
  optim_step N optim (set_grads (synthesized (all_params optim) (grads w)) w) = Ok st ->
  exists w',
    _init_optim_state N optim w = Done () w' /\
    log w' = log w ++ [EvStep (oid optim) (synthesized (all_params optim) (grads w));
                       EvZeroGrad (oid optim)] /\
    (forall p, p ∈ all_params optim -> requires_grad p = true ->
       synthesized (all_params optim) (grads w) !! tensor_id p
       = Some (Zeros (tensor_id p))) /\
    (forall p, p ∈ all_params optim -> grads w' !! tensor_id p = None) /\
    optim_states w' !! oid optim = Some st.
Proof.
  intros Hst Hnd Hnone Hstep.
  eexists. split; [|split; [|split; [|split]]].
  - unfold _init_optim_state, read. unfold mbind at 1, M_bind at 1.
    rewrite Hst. unfold map_is_empty. rewrite bool_decide_eq_true_2 by done.
    cbn [negb]. unfold mbind at 1, M_bind at 1.
    rewrite (forM__fmap (forM_ init_param_grad) params).
    rewrite forM__concat. fold (all_params optim).
    rewrite (init_grads_fresh _ _ Hnd Hnone).
    unfold mbind, M_bind, step. rewrite Hstep. reflexivity.
  - cbn [log emit set_grads set_optim_state grads]. by rewrite <- app_assoc.
  - intros p Hp Hr. by apply synthesized_trainable.
  - intros p Hp. cbn [grads emit set_grads set_optim_state].
    fold (all_params optim). rewrite cleared_lookup.
    rewrite bool_decide_eq_true_2; [done|]. apply list_elem_of_fmap. by exists p.
  - cbn [optim_states emit set_grads set_optim_state]. apply lookup_insert_eq.
Qed.

(** An optimizer that has state is left alone. *)
Lemma init_optim_state_initialized N optim w :
  default ∅ (optim_states w !! oid optim) ≠ ∅ ->
  _init_optim_state N optim w = Done () w.
Proof.
  intros Hst. unfold _init_optim_state, read, mbind, M_bind, map_is_empty.
  by rewrite bool_decide_eq_false_2.
Qed.

Lemma init_grads_outcome ps w :
  (exists w', forM_ init_param_grad ps w = Done () w' /\ log w' = log w /\
              optim_states w' = optim_states w /\
              forall p, p ∈ ps -> grads w !! tensor_id p = None) \/
  (exists w', forM_ init_param_grad ps w = Fail (RuntimeError GradientsNotNone) w' /\
              log w' = log w /\ optim_states w' = optim_states w).
Proof.
  revert w. induction ps as [|p ps IH]; intros w.
  - left. exists w. split; [done|]. split; [done|]. split; [done|].
    by intros p ?%elem_of_nil.
  - cbn [forM_]. unfold mbind, M_bind.
    destruct (init_param_grad_cases p w) as [[_ ->]|[E ->]].
    { right. by exists w. }
    destruct (requires_grad p).
    + destruct (IH (set_grads (<[tensor_id p := Zeros (tensor_id p)]> (grads w)) w))
        as [(w' & -> & Hl & Ho & Hn)|(w' & -> & Hl & Ho)].
      * left. exists w'. split; [done|]. split; [done|]. split; [done|].
        intros q [->|Hq]%elem_of_cons; [done|].
        specialize (Hn q Hq). cbn [grads set_grads] in Hn.
        destruct (decide (tensor_id p = tensor_id q)) as [Heq|Hne].
        -- rewrite Heq in Hn. by rewrite lookup_insert_eq in Hn.
        -- by rewrite lookup_insert_ne in Hn.
      * right. by exists w'.
    + destruct (IH w) as [(w' & -> & Hl & Ho & Hn)|(w' & -> & Hl & Ho)].
      * left. exists w'. split; [done|]. split; [done|]. split; [done|].
        intros q [->|Hq]%elem_of_cons; [done|]. by apply Hn.
      * right. by exists w'.
Qed.

(** X12.  With a gradient on a parameter of the optimizer, [_init_optim_state]
    raises, and it has made no step. *)
Lemma init_optim_state_gradient_present N optim w p :
  default ∅ (optim_states w !! oid optim) = ∅ ->
  p ∈ all_params optim -> is_Some (grads w !! tensor_id p) ->
  exists w', _init_optim_state N optim w = Fail (RuntimeError GradientsNotNone) w' /\
             log w' = log w /\ optim_states w' = optim_states w.
Proof.
  intros Hst Hp [g Hg].
  unfold _init_optim_state, read. unfold mbind at 1, M_bind at 1.
  rewrite Hst. unfold map_is_empty. rewrite bool_decide_eq_true_2 by done.
  cbn [negb]. unfold mbind at 1, M_bind at 1.
  rewrite (forM__fmap (forM_ init_param_grad) params).
  rewrite forM__concat. fold (all_params optim).
  destruct (init_grads_outcome (all_params optim) w)
    as [(w' & _ & _ & _ & Hn)|(w' & -> & Hl & Ho)].
  - rewrite (Hn p Hp) in Hg. done.
  - by exists w'.
Qed.

(** ** The round trip of a model without wrappers *)

Lemma unwrapped_no_replica model : unwrapped model -> no_replica model.
Proof.
  induction model as [ps bs cs IH|c IH|r fp c IH] using Module_tree_ind;
    intros Hu; inversion Hu as [? ? ? _ _ Hcs]; subst.
  constructor. clear Hu. induction cs as [|kc cs IHcs]; [constructor|].
  apply Forall_cons in IH as [IHc IH]. apply Forall_cons in Hcs as [Hc Hcs].
  constructor; [by apply IHc | by apply IHcs].
Qed.

Lemma unwrapped_rekey_for_load N model (sd : gmap string Value) :
  unwrapped model ->
  foldM (ddp_prefix_param_step N model) sd (named_parameters model) = Ok sd.
Proof.
  intros Hu.
  assert (forall l, (forall e, e ∈ l -> e ∈ named_parameters model) ->
                    foldM (ddp_prefix_param_step N model) sd l = Ok sd) as H.
  { induction l as [|[name p] l IH]; intros Hl; cbn [foldM]; [done|].
    rewrite (ddp_prefix_param_step_no_replica N _ _ _ (unwrapped_no_replica _ Hu)).
    cbn [fst]. rewrite (named_parameters_resolve model name p Hu).
    2: { apply Hl. apply list_elem_of_here. }
    cbn [mbind result_bind]. apply IH. intros e He. apply Hl.
    by apply list_elem_of_further. }
  by apply H.
Qed.

(** X14.  For a model without wrappers, no optimizer and default flags:
    where [load_state_dict] of the model is not patched, the load hands the
    native load the caller's dict under the same names and leaves the
    caller's dict as it was; where it is a registered patch, as after
    [patch_model_state_dict], the partial that [_state_dict_fn] builds is
    called with the dict as positional argument and raises [TypeError], and
    the native load is not reached. *)
Lemma unwrapped_load_hands_the_dict_over N model options w state_dict :
  unwrapped model ->
  use_dtensor (default default_options options) = true ->
  state_dict ≠ ∅ ->
  (forall k, k ∈ dom state_dict -> PyStr.contains FLAT_PARAM k = false) ->
  (forall ack,
     unpatched the_model "load_state_dict" w ->
     nn_load_state_dict N nullcontext model state_dict = Ok ack ->
     distributed_load_state_dict N model [] state_dict empty_osd false false options w
     = Done state_dict (emit (EvLoadStateDict nullcontext state_dict) w)) /\
  (forall call,
     lookup_attr the_model "load_state_dict" (instance_attrs w) = Some call ->
     call ∈ _patched_state_dict w ->
     distributed_load_state_dict N model [] state_dict empty_osd false false options w
     = Fail TypeError w).
Proof.
  intros Hu Hdt Hne Hkeys.
  destruct (unwrapped_verify_options model false options Hu Hdt) as [mapping Hv].
  set (info := mkInfo (default default_options options) mapping true false
                 nullcontext []) in *.
  assert (_verify_state_dict state_dict empty_osd info = Ok ()) as Hok
    by (by apply unmarked_verify_state_dict).
  assert (distributed_load_state_dict N model [] state_dict empty_osd false false
            options w
          = (loaded ← _load_model_state_dict N model state_dict info;
             _ ← _load_optim_state_dict N model [] empty_osd info;
             mret loaded.2) w) as ->.
  { unfold distributed_load_state_dict. rewrite Hv.
    rewrite (bind_eq _ _ w info w) by done. rewrite Hok.
    by rewrite (bind_eq _ _ w () w) by done. }
  unfold _load_model_state_dict. rewrite (unwrapped_rekey_for_load N _ _ Hu).
  split.
  - intros ack Hun Hload.
    rewrite (bind_eq _ _ w (ack, state_dict)
               (emit (EvLoadStateDict nullcontext state_dict) w)); [done|].
    rewrite (bind_eq _ _ w state_dict w) by done.
    rewrite (bind_eq _ _ _ _ _ (state_dict_fn_unpatched _ _ _ Hun)).
    unfold info. cbn [call_native_with_argument fsdp_context].
    unfold mbind, M_bind, write, lift. by rewrite Hload.
  - intros call Hattr Hin.
    assert (_state_dict_fn the_model "load_state_dict" w
            = Done (class_partial "load_state_dict") w) as Hcall.
    { unfold _state_dict_fn, read. rewrite Hattr. cbn [default].
      by rewrite bool_decide_eq_true_2. }
    unfold mbind at 1, M_bind at 1.
    rewrite (bind_eq _ _ w state_dict w) by done.
    by rewrite (bind_eq _ _ _ _ _ Hcall).
Qed.

(** ** The patched [state_dict] of a model without wrappers *)

Lemma patch_keeps_patches_registered options w :
  patches_registered w -> patches_registered (patched options w).
Proof.
  intros Hreg obj api call. cbn [patched instance_attrs _patched_state_dict lookup_attr].
  destruct (bool_decide (the_model = obj) && String.eqb "load_state_dict" api).
  { intros [= <-]. apply list_elem_of_here. }
  destruct (bool_decide (the_model = obj) && String.eqb "state_dict" api).
  { intros [= <-]. apply list_elem_of_further, list_elem_of_here. }
  intros Hc. do 2 apply list_elem_of_further. by eapply Hreg.
Qed.

(** X15.  After the patch, [model.state_dict()] of a model without wrappers
    returns its native state dict: the canonical names are the native ones,
    and [_state_dict_fn] finds the method of the class behind the patch. *)
Lemma patched_state_dict_returns N model options w state_dict :
  unwrapped model ->
  use_dtensor (default default_options options) = true ->
  save_frozen_params (default default_options options) = true ->
  patches_registered w ->
  nn_state_dict N nullcontext model = Ok state_dict ->
  state_dict ≠ ∅ ->
  (forall k, k ∈ dom state_dict ->
     k ∈ state_dict_names model /\ PyStr.contains FLAT_PARAM k = false) ->
  (_ ← patch_model_state_dict model options; model_state_dict_entry N model) w
  = Done state_dict (patched options w).
Proof.
  intros Hu Hdt Hfrozen Hreg Hnative Hne Hkeys.
  rewrite (bind_eq _ _ w () (patched options w)) by done.
  rewrite patched_state_dict_entry.
  rewrite (bind_eq _ _ _ _ _
             (unwrapped_extraction N model true options (patched options w) state_dict
                Hu Hdt Hfrozen (patch_keeps_patches_registered _ _ Hreg)
                Hnative Hne Hkeys)).
  done.
Qed.

(** ** More on [_verify_options] *)

(** X1.  Every call that [_verify_options] accepts handles the optimizers
    exactly when some are given and the model exactly when [optim_only] is
    not set, so it never handles neither. *)
Theorem verify_options_policy model optims model_only optim_only options info :
  _verify_options model optims model_only optim_only options = Ok info ->
  handle_model info = negb optim_only /\
  handle_optim info = nonempty optims /\
  handle_model info || handle_optim info = true.
Proof.
  intros H. pose proof H as Hinv.
  apply verify_options_ok_inv in Hinv as (Hm & _ & _ & Hhm & Hho & Hc).
  rewrite (verify_options_stages _ _ _ _ _ _ _ Hm Hc) in H.
  rewrite Hhm, Hho.
  destruct model_only, optim_only, optims; cbn in H |- *; done.
Qed.

Lemma verify_options_policy_witness :
  handle_model info_two = negb false /\
  handle_optim info_two = nonempty [optim_two] /\
  handle_model info_two || handle_optim info_two = true.
Proof.
  apply (verify_options_policy plain_two [optim_two] false false None info_two).
  apply info_two_verified.
Defined.

Lemma foldM_index_tensor_parallel model o l m0 :
  (forall name p, (name, p) ∈ l -> exists fqns, _get_fqns model name true = Ok fqns) ->
  (exists name p, (name, p) ∈ l /\ is_dtensor p = true) ->
  use_dtensor o = false ->
  foldM (index_step model o) m0 l = Raise (RuntimeError TPWithoutDTensor).
Proof.
  intros Hres Hex Hdt. revert m0.
  induction l as [|[name p] l IH]; intros m0.
  - destruct Hex as (n & q & Hin & _). by apply elem_of_nil in Hin.
  - cbn [foldM]. destruct (Hres name p) as [fqns Hf]; [apply list_elem_of_here|].
    destruct (is_dtensor p) eqn:Hp.
    + assert (index_step model o m0 (name, p) = Raise (RuntimeError TPWithoutDTensor))
        as ->; [|done].
      unfold index_step. rewrite Hf. cbn [mbind result_bind]. by rewrite Hp, Hdt.
    + assert (exists m1, index_step model o m0 (name, p) = Ok m1) as [m1 ->].
      { unfold index_step. rewrite Hf. cbn [mbind result_bind]. rewrite Hp.
        by eexists. }
      cbn [mbind result_bind]. apply IH.
      * intros n q Hin. apply (Hres n q). by apply list_elem_of_further.
      * destruct Hex as (n & q & Hin & Hq).
        apply elem_of_cons in Hin as [[= -> ->]|Hin]; [congruence|]. by exists n, q.
Qed.

(** X2.  When the names of the parameters resolve, one of them is a
    distributed tensor and [use_dtensor] is off, [_verify_options] raises the
    tensor-parallel error, whatever the flags and the optimizers are: the
    index is built before the intent is looked at. *)
Theorem verify_options_rejects_tensor_parallel
    model optims model_only optim_only options name p :
  (forall name p, (name, p) ∈ named_parameters model ->
     exists fqns, _get_fqns model name true = Ok fqns) ->
  (name, p) ∈ named_parameters model ->
  is_dtensor p = true ->
  use_dtensor (default default_options options) = false ->
  _verify_options model optims model_only optim_only options
  = Raise (RuntimeError TPWithoutDTensor).
Proof.
  intros Hres Hin Hp Hdt. unfold _verify_options, build_fqn_param_mapping.
  rewrite (foldM_index_tensor_parallel model _ _ _ Hres); [done| |done].
  by exists name, p.
Qed.

Lemma verify_options_rejects_tensor_parallel_witness :
  _verify_options tensor_parallel_model [] true true (Some no_dtensor_options)
  = Raise (RuntimeError TPWithoutDTensor).
Proof.
  apply (verify_options_rejects_tensor_parallel _ _ _ _ _ "w" tp0).
  - intros name p Hin. vm_compute in Hin.
    apply elem_of_cons in Hin as [[= -> ->]|Hin]; [|by apply elem_of_nil in Hin].
    by eexists.
  - vm_compute. apply list_elem_of_here.
  - reflexivity.
  - reflexivity.
Defined.

(** X3.  The state-dict type of the options is looked at only when the
    tree has sharding wrappers: with wrappers, [LOCAL_STATE_DICT] is an
    error whatever the flags are; without wrappers it is accepted and the
    context is the null context. *)
Theorem verify_options_state_dict_type
    model optims model_only optim_only options mapping :
  build_fqn_param_mapping model (default default_options options) = Ok mapping ->
  fsdp_state_dict_type (default default_options options) = LOCAL_STATE_DICT ->
  (fsdp_modules_of model ≠ [] ->
   _verify_options model optims model_only optim_only options
   = Raise (RuntimeError UnsupportedFsdpStateDictType)) /\
  (fsdp_modules_of model = [] ->
   ~ contradictory optims model_only optim_only ->
   exists info, _verify_options model optims model_only optim_only options = Ok info /\
                fsdp_context info = nullcontext).
Proof.
  intros Hm Hty. split.
  - intros Hne. unfold _verify_options. rewrite Hm. cbn [mbind result_bind].
    unfold build_fsdp_context. rewrite Hty. by destruct (fsdp_modules_of model).
  - intros Hnil Hok.
    rewrite (verify_options_stages _ _ _ _ _ mapping nullcontext Hm)
      by (by rewrite Hnil).
    unfold contradictory in Hok.
    destruct model_only, optim_only, optims as [|o optims]; cbn;
      try (by eexists); exfalso; apply Hok; auto.
Qed.

Lemma verify_options_state_dict_type_witness :
  _verify_options replica_shard [] false false (Some local_options)
  = Raise (RuntimeError UnsupportedFsdpStateDictType) /\
  exists info, _verify_options plain_two [] false false (Some local_options) = Ok info /\
               fsdp_context info = nullcontext.
Proof.
  split.
  - destruct (build_fqn_param_mapping replica_shard local_options) as [mapping|e] eqn:E;
      [|by vm_compute in E].
    destruct (verify_options_state_dict_type replica_shard [] false false
                (Some local_options) mapping E eq_refl) as [H _].
    by apply H.
  - destruct (build_fqn_param_mapping plain_two local_options) as [mapping|e] eqn:E;
      [|by vm_compute in E].
    destruct (verify_options_state_dict_type plain_two [] false false
                (Some local_options) mapping E eq_refl) as [_ H].
    apply H; [done|]. intros [[? ?]|[[? ?]|[? ?]]]; done.
Defined.

(** ** The exact acceptance condition of [_verify_state_dict] *)

Lemma existsb_contains_false (keys : list string) :
  existsb (PyStr.contains FLAT_PARAM) keys = false <->
  forall key, key ∈ keys -> PyStr.contains FLAT_PARAM key = false.
Proof.
  induction keys as [|k keys IH]; cbn [existsb].
  - split; [|done]. intros _ key Hin. by apply elem_of_nil in Hin.
  - rewrite orb_false_iff, IH. split.
    + intros [Hk Hks] key Hin. apply elem_of_cons in Hin as [->|Hin]; auto.
    + intros H. split; [apply H, list_elem_of_here|].
      intros key Hin. by apply H, list_elem_of_further.
Qed.

Lemma no_marker_in_keys (d : gmap string Value) :
  existsb (PyStr.contains FLAT_PARAM) (elements (dom d)) = false <->
  forall key, key ∈ dom d -> PyStr.contains FLAT_PARAM key = false.
Proof.
  rewrite existsb_contains_false. split; intros H key Hin; apply H;
    by apply elem_of_elements.
Qed.

(** X4.  On the wrappers that [_verify_options] collects,
    [_verify_state_dict] returns exactly when four things hold: a root
    exists or there is no wrapper at all; the model's dict is not empty when
    the model is handled; the optimizer's dict has a non-empty ["state"]
    entry when the optimizers are handled; and no key of the model's dict
    contains the flat-parameter marker.  In every other case it raises. *)
Theorem verify_state_dict_accepts_iff model_state_dict optim_state_dict info :
  Forall is_wrapper (fsdp_modules info) ->
  _verify_state_dict model_state_dict optim_state_dict info = Ok () <->
  (fsdp_modules info = [] \/ exists m, m ∈ fsdp_modules info /\ is_root m) /\
  (handle_model info = true -> model_state_dict ≠ ∅) /\
  (handle_optim info = true ->
   exists state, osd_state optim_state_dict = Some state /\ state ≠ ∅) /\
  (forall key, key ∈ dom model_state_dict -> PyStr.contains FLAT_PARAM key = false).
Proof.
  intros Hw. destruct (find_fsdp_root_wrappers _ Hw) as (b & Hb & Hroot).
  unfold _verify_state_dict. rewrite Hb. cbn [mbind result_bind].
  rewrite <- no_marker_in_keys.
  assert (nonempty (fsdp_modules info) && negb b = false <->
          (fsdp_modules info = [] \/ exists m, m ∈ fsdp_modules info /\ is_root m))
    as <-.
  { rewrite <- Hroot. destruct (fsdp_modules info), b; cbn; split; intros; auto; try done.
    all: try (destruct H; done). }
  destruct (nonempty (fsdp_modules info) && negb b); [by intuition|].
  unfold map_is_empty at 1.
  assert (forall P : Prop, (true = true -> P) <-> P) as Htrue by intuition.
  assert (forall P : Prop, (false = true -> P) <-> True) as Hfalse by (intuition congruence).
  destruct (handle_model info); cbn [andb]; rewrite ?Htrue, ?Hfalse.
  - case_bool_decide as Hempty; [by intuition|].
    destruct (handle_optim info); cbn [negb]; rewrite ?Htrue, ?Hfalse.
    + unfold osd_is_empty, get_state.
      destruct (osd_state optim_state_dict) as [state|].
      * cbn [mbind result_bind]. unfold map_is_empty. case_bool_decide as Hst.
        { split; [done|]. intros (_ & _ & (st & [= <-] & Hne) & _). done. }
        destruct (existsb _ _); [by intuition|].
        split; [|done]. intros _. repeat split; auto. by exists state.
      * destruct (osd_param_groups optim_state_dict); cbn [mbind result_bind];
          (split; [done|]); by intros (_ & _ & (st & [=] & _) & _).
    + cbn [mbind result_bind]. destruct (existsb _ _); by intuition.
  - destruct (handle_optim info); cbn [negb]; rewrite ?Htrue, ?Hfalse.
    + unfold osd_is_empty, get_state.
      destruct (osd_state optim_state_dict) as [state|].
      * cbn [mbind result_bind]. unfold map_is_empty. case_bool_decide as Hst.
        { split; [done|]. intros (_ & _ & (st & [= <-] & Hne) & _). done. }
        destruct (existsb _ _); [by intuition|].
        split; [|done]. intros _. repeat split; auto. by exists state.
      * destruct (osd_param_groups optim_state_dict); cbn [mbind result_bind];
          (split; [done|]); by intros (_ & _ & (st & [=] & _) & _).
    + cbn [mbind result_bind]. destruct (existsb _ _); by intuition.
Qed.

Lemma verify_state_dict_accepts_iff_witness :
  _verify_state_dict canonical_two_sd merged_osd info_two = Ok () <->
  (fsdp_modules info_two = [] \/ exists m, m ∈ fsdp_modules info_two /\ is_root m) /\
  (handle_model info_two = true -> canonical_two_sd ≠ ∅) /\
  (handle_optim info_two = true ->
   exists state, osd_state merged_osd = Some state /\ state ≠ ∅) /\
  (forall key, key ∈ dom canonical_two_sd -> PyStr.contains FLAT_PARAM key = false).
Proof.
  apply (verify_state_dict_accepts_iff canonical_two_sd merged_osd info_two).
  apply List.Forall_nil.
Defined.

(** ** [_get_fqns] through wrappers, for both values of [skip_ddp_prefix] *)

Lemma get_fqns_loop_walks skip m path fqn target acc rest :
  walks skip m path fqn target ->
  rest ≠ [] -> head rest ≠ Some FLAT_PARAM ->
  _get_fqns_loop skip (OModule m) acc (path ++ rest)
  = _get_fqns_loop skip (OModule target) (acc ++ fqn) rest.
Proof.
  intros Hd Hne Hhd. revert acc.
  induction Hd as [m|c path fqn m Hd IH|r fp c path fqn m Hd IH Hp
                   |ps bs cs name c path fqn m Hget Hd IH]; intros acc.
  - by rewrite app_nil_r.
  - cbn [app _get_fqns_loop]. rewrite String.eqb_refl. rewrite IH.
    destruct skip; [done|]. by rewrite <- app_assoc.
  - simpl.
    destruct (path ++ rest) as [|next tl] eqn:E.
    { by destruct path, rest. }
    assert (String.eqb next FLAT_PARAM = false) as ->.
    { apply String.eqb_neq. intros ->.
      destruct path as [|p0 path]; simpl in E.
      - subst rest. by apply Hhd.
      - inversion E; subst. by apply Hp. }
    apply IH.
  - cbn [app _get_fqns_loop getattr]. rewrite Hget.
    rewrite IH. by rewrite <- app_assoc.
Qed.

Lemma get_fqns_splits skip model x y l :
  Forall dotfree (x :: y :: l) ->
  _get_fqns model (PyStr.join "." (x :: y :: l)) skip
  = _get_fqns_loop skip (OModule model) [] (x :: y :: l).
Proof.
  intros Hall. unfold _get_fqns. rewrite has_dot_join. cbn [negb].
  by rewrite split_dot_join.
Qed.

Lemma get_fqns_on_path skip model path seg rest :
  Forall dotfree (path ++ seg :: rest) ->
  path ≠ [] \/ rest ≠ [] ->
  _get_fqns model (PyStr.join "." (path ++ seg :: rest)) skip
  = _get_fqns_loop skip (OModule model) [] (path ++ seg :: rest).
Proof.
  intros Hall Hlen.
  destruct (path ++ seg :: rest) as [|x [|y l]] eqn:E.
  - by destruct path.
  - destruct path as [|p0 [|p1 path]]; simplify_eq/=; by destruct Hlen.
  - by apply get_fqns_splits.
Qed.

Lemma get_fqns_walk_leaf skip model path fqn ps bs cs leaf o :
  walks skip model path fqn (Plain ps bs cs) ->
  getattr_module (Plain ps bs cs) leaf = Ok o ->
  Forall dotfree (path ++ [leaf]) ->
  leaf ≠ FLAT_PARAM ->
  _get_fqns model (PyStr.join "." (path ++ [leaf])) skip
  = Ok {[ PyStr.join "." (fqn ++ [leaf]) ]}.
Proof.
  intros Hw Hget Hall Hleaf.
  destruct path as [|p0 path].
  - inversion Hw; subst. unfold _get_fqns. cbn [app PyStr.join].
    apply Forall_cons in Hall as [Hdot _]. unfold dotfree in Hdot.
    by rewrite Hdot.
  - rewrite get_fqns_on_path by (done || by left).
    rewrite (get_fqns_loop_walks skip model _ fqn _ [] [leaf] Hw); [|done|].
    + cbn [app _get_fqns_loop getattr]. by rewrite Hget.
    + cbn. congruence.
Qed.

(** X5.  A dotted name that leads through wrappers to an attribute [leaf]
    of a plain module resolves to one canonical name: the segments of the
    plain modules on the way and [leaf], the [_fsdp_wrapped_module]
    segments dropped, and the [module] segments of replica wrappers
    dropped when [skip_ddp_prefix] is set and kept when it is not. *)
Theorem get_fqns_resolves_through_wrappers skip model path fqn ps bs cs leaf o :
  walks skip model path fqn (Plain ps bs cs) ->
  getattr_module (Plain ps bs cs) leaf = Ok o ->
  Forall dotfree (path ++ [leaf]) ->
  leaf ≠ FLAT_PARAM ->
  _get_fqns model (PyStr.join "." (path ++ [leaf])) skip
  = Ok {[ PyStr.join "." (fqn ++ [leaf]) ]}.
Proof. apply get_fqns_walk_leaf. Qed.

Lemma get_fqns_resolves_through_wrappers_witness :
  _get_fqns replica_shard (PyStr.join "." (["module"] ++ ["w"])) false
  = Ok {[ PyStr.join "." (["module"] ++ ["w"]) ]}.
Proof.
  apply (get_fqns_resolves_through_wrappers false replica_shard ["module"]
           ["module"] [("w", w0)] [] [("sub", shard_inner)] "w" (OTensor w0)).
  - apply (walks_ddp false _ [] []). apply walks_here.
  - reflexivity.
  - repeat constructor.
  - discriminate.
Defined.

(** X6.  A dotted name whose last segment is looked up on a sharding
    wrapper raises [IndexError]: the wrapper's branch reads the segment
    after the current one before anything else. *)
Theorem get_fqns_index_error_at_wrapper skip model path fqn r fp c seg :
  walks skip model path fqn (FSDP r fp c) ->
  path ≠ [] ->
  Forall dotfree (path ++ [seg]) ->
  seg ≠ FLAT_PARAM ->
  _get_fqns model (PyStr.join "." (path ++ [seg])) skip = Raise IndexError.
Proof.
  intros Hw Hne Hall Hseg.
  rewrite get_fqns_on_path by (done || by left).
  rewrite (get_fqns_loop_walks skip model _ fqn _ [] [seg] Hw); [done|done|].
  cbn. congruence.
Qed.

Lemma get_fqns_index_error_at_wrapper_witness :
  _get_fqns replica_shard (PyStr.join "." (["module"; "sub"] ++ ["weight"])) true
  = Raise IndexError.
Proof.
  apply (get_fqns_index_error_at_wrapper true replica_shard ["module"; "sub"]
           ["sub"] (Some true) (Some fp0) (Plain [("_flat_param", fp0)] [] [])
           "weight").
  - apply (walks_ddp true _ ["sub"] ["sub"]).
    apply (walks_plain true _ _ _ "sub" shard_inner [] []); [reflexivity|].
    apply walks_here.
  - discriminate.
  - repeat constructor.
  - discriminate.
Defined.

(** X7.  A dotted name that reaches a replica wrapper with a segment other
    than [module] raises [AssertionError]; so a canonical name, which has
    lost that segment, does not resolve against the wrapped model. *)
Theorem get_fqns_assertion_at_replica skip model path fqn c seg rest :
  walks skip model path fqn (DDP c) ->
  seg ≠ DDP_MODULE ->
  seg ≠ FLAT_PARAM ->
  path ≠ [] \/ rest ≠ [] ->
  Forall dotfree (path ++ seg :: rest) ->
  _get_fqns model (PyStr.join "." (path ++ seg :: rest)) skip
  = Raise AssertionError.
Proof.
  intros Hw Hseg Hflat Hlen Hall.
  rewrite get_fqns_on_path by done.
  rewrite (get_fqns_loop_walks skip model _ fqn _ [] (seg :: rest) Hw); [|done|].
  - cbn [_get_fqns_loop]. apply String.eqb_neq in Hseg. by rewrite Hseg.
  - cbn. congruence.
Qed.

Lemma get_fqns_assertion_at_replica_witness :
  _get_fqns replica_shard (PyStr.join "." ([] ++ "sub" :: ["_flat_param"])) true
  = Raise AssertionError.
Proof.
  apply (get_fqns_assertion_at_replica true replica_shard [] []
           (Plain [("w", w0)] [] [("sub", shard_inner)]) "sub" ["_flat_param"]).
  - apply walks_here.
  - discriminate.
  - discriminate.
  - by right.
  - repeat constructor.
Defined.

(** ** The names that a wrapped tree reports *)

Lemma registered_child ps bs cs k c :
  NoDup (ps.*1 ++ bs.*1 ++ cs.*1) -> (k, c) ∈ cs ->
  getattr_module (Plain ps bs cs) k = Ok (OModule c).
Proof.
  intros Hnd Hc. cbn [getattr_module].
  apply NoDup_app in Hnd as (_ & Hps & Hnd).
  apply NoDup_app in Hnd as (_ & Hbs & Hnd).
  assert (k ∈ cs.*1) as Hk by (apply list_elem_of_fmap; by exists (k, c)).
  rewrite (assoc_not_elem_of k ps).
  2: { intros Hc'. apply (Hps k Hc'). apply elem_of_app. by right. }
  rewrite (assoc_not_elem_of k bs).
  2: { intros Hc'. by apply (Hbs k Hc'). }
  by rewrite (assoc_NoDup k c cs Hnd Hc).
Qed.

Lemma registered_member (get : list (string * Param) -> list (string * Param) -> list (string * Param))
    ps bs (cs : list (string * Module)) k (t : Param) :
  (forall ps bs e, e ∈ get ps bs -> e ∈ ps ++ bs) ->
  (k, t) ∈ get ps bs ->
  k ∈ ps.*1 ++ bs.*1 ++ cs.*1 /\
  exists t', getattr_module (Plain ps bs cs) k = Ok (OTensor t').
Proof.
  intros Hget Hkv. apply Hget in Hkv. split.
  - apply elem_of_app in Hkv as [Hkv|Hkv].
    + apply elem_of_app. left. apply list_elem_of_fmap. by exists (k, t).
    + apply elem_of_app. right. apply elem_of_app. left.
      apply list_elem_of_fmap. by exists (k, t).
  - cbn [getattr_module]. apply elem_of_app in Hkv as [Hkv|Hkv].
    + destruct (assoc_elem_of _ _ _ Hkv) as [t' ->]. by exists t'.
    + destruct (assoc k ps) as [p|]; [by exists p|].
      destruct (assoc_elem_of _ _ _ Hkv) as [t' ->]. by exists t'.
Qed.

Lemma named_members_walk skip get model :
  (forall ps bs e, e ∈ get ps bs -> e ∈ ps ++ bs) ->
  registered model ->
  forall prefix name t,
    (name, t) ∈ _named_members get prefix model ->
    exists path fqn ps bs cs leaf,
      name = foldl with_prefix prefix (path ++ [leaf]) /\
      Forall (fun k => dotfree k /\ k ≠ "") (path ++ [leaf]) /\
      leaf ≠ FLAT_PARAM /\ head path ≠ Some FLAT_PARAM /\
      walks skip model path fqn (Plain ps bs cs) /\
      (exists t', getattr_module (Plain ps bs cs) leaf = Ok (OTensor t')).
Proof.
  intros Hget.
  induction model as [ps bs cs IH|c IH|r fp c IH] using Module_tree_ind;
    intros Hu prefix name t Hin.
  - inversion Hu as [ps' bs' cs' Hnd Hnames Hcs| |]; subst.
    rewrite Forall_forall in Hnames.
    cbn [_named_members] in Hin. apply elem_of_app in Hin as [Hin|Hin].
    + apply list_elem_of_fmap in Hin as ([k v] & [= -> ->] & Hkv).
      destruct (registered_member get ps bs cs k v Hget Hkv) as [Hk Hattr].
      destruct (Hnames k Hk) as (Hdot & Hne & Hflat).
      exists [], [], ps, bs, cs, k. repeat split; try done.
      * by repeat constructor.
      * constructor.
    + apply elem_of_named_children in Hin as (k & c & Hc & Hm).
      rewrite Forall_forall in IH. rewrite Forall_forall in Hcs.
      destruct (IH (k, c) Hc (Hcs (k, c) Hc) _ _ _ Hm)
        as (path & fqn & ps' & bs' & cs' & leaf & Hname & Hall & Hleaf & Hhd & Hw & Hattr).
      assert (k ∈ ps.*1 ++ bs.*1 ++ cs.*1) as Hk.
      { apply elem_of_app. right. apply elem_of_app. right.
        apply list_elem_of_fmap. by exists (k, c). }
      destruct (Hnames k Hk) as (Hdot & Hne & Hflat).
      exists (k :: path), (k :: fqn), ps', bs', cs', leaf. repeat split; try done.
      * by constructor.
      * cbn. congruence.
      * apply (walks_plain skip ps bs cs k c); [|done].
        by apply registered_child.
  - inversion Hu; subst. cbn [_named_members] in Hin.
    destruct (IH ltac:(done) _ _ _ Hin)
      as (path & fqn & ps' & bs' & cs' & leaf & Hname & Hall & Hleaf & Hhd & Hw & Hattr).
    exists (DDP_MODULE :: path), (if skip then fqn else DDP_MODULE :: fqn),
      ps', bs', cs', leaf.
    repeat split; try done.
    + by constructor.
    + by constructor.
  - inversion Hu; subst. cbn [_named_members] in Hin.
    destruct (IH ltac:(done) _ _ _ Hin)
      as (path & fqn & ps' & bs' & cs' & leaf & Hname & Hall & Hleaf & Hhd & Hw & Hattr).
    exists (FSDP_WRAPPED_MODULE :: path), fqn, ps', bs', cs', leaf.
    repeat split; try done.
    + by constructor.
    + by constructor.
Qed.

Lemma walks_no_shard model path fqn target :
  walks false model path fqn target -> no_shard model -> fqn = path.
Proof.
  induction 1 as [m|c path fqn m Hd IH|r fp c path fqn m Hd IH Hp
                  |ps bs cs name c path fqn m Hget Hd IH]; intros Hn.
  - done.
  - inversion Hn; subst. by rewrite IH.
  - inversion Hn.
  - inversion Hn as [ps' bs' cs' Hcs|]; subst. f_equal. apply IH.
    rewrite Forall_forall in Hcs.
    cbn [getattr_module] in Hget.
    destruct (assoc name ps); [done|]. destruct (assoc name bs); [done|].
    destruct (assoc name cs) as [c'|] eqn:E; [|done]. injection Hget as ->.
    assert ((name, c) ∈ cs) as Hin.
    { clear -E. induction cs as [|[k' v'] cs IHcs]; [done|]. cbn [assoc] in E.
      destruct (String.eqb_spec name k') as [->|Hne].
      - injection E as ->. apply list_elem_of_here.
      - apply list_elem_of_further. by apply IHcs. }
    apply (Hcs (name, c) Hin).
Qed.

(** X8.  In a tree with replica and sharding wrappers whose names are
    registered as [nn.Module] does, every name that [named_parameters]
    composes leads through the wrappers to an attribute of a plain module,
    and [_get_fqns] resolves it, for either value of [skip_ddp_prefix], to
    exactly one canonical name: the name without its wrapper segments. *)
Theorem registered_names_resolve skip model name p :
  registered model ->
  (name, p) ∈ named_parameters model ->
  exists path fqn ps bs cs leaf,
    name = PyStr.join "." (path ++ [leaf]) /\
    walks skip model path fqn (Plain ps bs cs) /\
    _get_fqns model name skip = Ok {[ PyStr.join "." (fqn ++ [leaf]) ]}.
Proof.
  intros Hreg Hin.
  destruct (remove_duplicate_spec ∅ (_named_members (fun ps _ => ps) "" model))
    as [_ Hsub].
  destruct (Hsub _ Hin) as [_ Hraw].
  destruct (named_members_walk skip (fun ps _ => ps) model) with (prefix := "")
    (name := name) (t := p)
    as (path & fqn & ps & bs & cs & leaf & -> & Hall & Hleaf & _ & Hw & [t' Hattr]);
    try done.
  { intros ps bs e He. apply elem_of_app. by left. }
  exists path, fqn, ps, bs, cs, leaf.
  rewrite foldl_with_prefix_empty.
  2: { eapply Forall_impl; [exact Hall|]. by intros s [_ ?]. }
  split; [done|]. split; [done|].
  eapply get_fqns_walk_leaf; eauto.
  eapply Forall_impl; [exact Hall|]. by intros s [? _].
Qed.

Lemma replica_nested_registered : registered replica_nested.
Proof.
  apply registered_ddp. apply registered_plain.
  - cbn. repeat (apply NoDup_cons_2; [set_solver|]). apply NoDup_nil_2.
  - cbn. repeat constructor; done.
  - constructor; [|constructor]. cbn. apply registered_ddp. apply registered_plain.
    + cbn. repeat (apply NoDup_cons_2; [set_solver|]). apply NoDup_nil_2.
    + cbn. repeat constructor; done.
    + constructor.
Qed.

Lemma registered_names_resolve_witness :
  exists path fqn ps bs cs leaf,
    "module.inner.module.v" = PyStr.join "." (path ++ [leaf]) /\
    walks true replica_nested path fqn (Plain ps bs cs) /\
    _get_fqns replica_nested "module.inner.module.v" true
    = Ok {[ PyStr.join "." (fqn ++ [leaf]) ]}.
Proof.
  apply (registered_names_resolve true replica_nested "module.inner.module.v"
           frozen0).
  - apply replica_nested_registered.
  - vm_compute. apply list_elem_of_further, list_elem_of_here.
Defined.

(** X9.  In a registered tree with replica wrappers and no sharding
    wrapper, [_get_fqns] with [skip_ddp_prefix] off gives every name that
    [named_parameters] or [state_dict] composes back unchanged: the name
    under which the wrapped model itself knows the tensor. *)
Theorem native_names_kept_without_skip get model name t :
  (forall ps bs e, e ∈ get ps bs -> e ∈ ps ++ bs) ->
  registered model -> no_shard model ->
  (name, t) ∈ _named_members get "" model ->
  _get_fqns model name false = Ok {[ name ]}.
Proof.
  intros Hget Hreg Hn Hin.
  destruct (named_members_walk false get model Hget Hreg "" name t Hin)
    as (path & fqn & ps & bs & cs & leaf & -> & Hall & Hleaf & _ & Hw & [t' Hattr]).
  rewrite foldl_with_prefix_empty.
  2: { eapply Forall_impl; [exact Hall|]. by intros s [_ ?]. }
  rewrite <- (walks_no_shard _ _ _ _ Hw Hn) at 2.
  eapply get_fqns_walk_leaf; eauto.
  eapply Forall_impl; [exact Hall|]. by intros s [? _].
Qed.

Lemma native_names_kept_without_skip_witness :
  _get_fqns replica_nested "module.inner.module.v" false
  = Ok {[ "module.inner.module.v" ]}.
Proof.
  apply (native_names_kept_without_skip (fun ps _ => ps) replica_nested
           "module.inner.module.v" frozen0).
  - intros ps bs e He. apply elem_of_app. by left.
  - apply replica_nested_registered.
  - apply no_shard_ddp, no_shard_plain. constructor; [|constructor].
    cbn. apply no_shard_ddp, no_shard_plain. constructor.
  - vm_compute. apply list_elem_of_further, list_elem_of_here.
Defined.

(** ** The inner [verify] of [_get_model_state_dict] *)

Lemma module_expansion_nonnil key_split fqn_split :
  module_expansion key_split fqn_split -> key_split ≠ [] /\ fqn_split ≠ [].
Proof.
  induction 1 as [s|k f He [IHk IHf]|s k f He IH]; by split.
Qed.

Lemma length_append (a b : string) :
  String.length (a +:+ b) = String.length a + String.length b.
Proof.
  induction a as [|x a IH]; [done|].
  change (S (String.length (a +:+ b)) = S (String.length a) + String.length b).
  by rewrite IH.
Qed.

Lemma length_join_cons x y l :
  String.length (PyStr.join "." (x :: y :: l))
  = String.length x + 1 + String.length (PyStr.join "." (y :: l)).
Proof.
  change (PyStr.join "." (x :: y :: l)) with (x +:+ "." +:+ PyStr.join "." (y :: l)).
  rewrite !length_append. cbn [String.length]. lia.
Qed.

Lemma module_expansion_longer key_split fqn_split :
  module_expansion key_split fqn_split ->
  key_split = fqn_split \/
  String.length (PyStr.join "." fqn_split) < String.length (PyStr.join "." key_split).
Proof.
  induction 1 as [s|k f He IH|s k f He IH].
  - by left.
  - right. destruct (module_expansion_nonnil _ _ He) as [Hk _].
    destruct k as [|y k]; [done|]. rewrite length_join_cons.
    destruct IH as [->|IH]; cbn [String.length DDP_MODULE]; lia.
  - destruct (module_expansion_nonnil _ _ He) as [Hk Hf].
    destruct IH as [->|IH]; [by left|right].
    destruct k as [|y k]; [done|]. destruct f as [|z f]; [done|].
    rewrite !length_join_cons. lia.
Qed.

Lemma verify_loop_expansion key_split fqn_split :
  module_expansion key_split fqn_split ->
  Forall (fun s => s ≠ DDP_MODULE) fqn_split ->
  verify_loop key_split fqn_split = Ok true.
Proof.
  induction 1 as [s|k f He IH|s k f He IH]; intros Hf; cbn [verify_loop].
  - by rewrite String.eqb_refl.
  - destruct (module_expansion_nonnil _ _ He) as [_ Hne].
    destruct f as [|fqn_name f]; [done|].
    apply Forall_cons in Hf as Hf'. destruct Hf' as [Hname _].
    assert (String.eqb DDP_MODULE fqn_name = false) as ->.
    { apply String.eqb_neq. congruence. }
    rewrite String.eqb_refl. by apply IH.
  - rewrite String.eqb_refl. apply Forall_cons in Hf as [_ Hf].
    destruct (module_expansion_nonnil _ _ He) as [_ Hne].
    destruct f as [|z f]; [done|]. by apply IH.
Qed.

Lemma module_expansion_dotfree key_split fqn_split :
  module_expansion key_split fqn_split ->
  Forall dotfree fqn_split -> Forall dotfree key_split.
Proof.
  induction 1 as [s|k f He IH|s k f He IH]; intros Hf.
  - done.
  - constructor; [done|by apply IH].
  - apply Forall_cons in Hf as [Hs Hf]. constructor; [done|by apply IH].
Qed.

(** X10.  The inner [verify] accepts every key that differs from its
    canonical name only by [module] segments put in before segments of the
    name, when no segment of the name is itself [module]. *)
Theorem verify_accepts_module_expansion key_split fqn_split :
  module_expansion key_split fqn_split ->
  key_split ≠ fqn_split ->
  Forall (fun s => dotfree s /\ s ≠ DDP_MODULE) fqn_split ->
  verify (PyStr.join "." key_split) (PyStr.join "." fqn_split) = Ok true.
Proof.
  intros He Hne Hf. unfold verify.
  destruct (module_expansion_longer _ _ He) as [?|Hlen]; [done|].
  assert (Nat.leb (String.length (PyStr.join "." key_split))
                  (String.length (PyStr.join "." fqn_split)) = false) as ->.
  { apply Nat.leb_gt. lia. }
  assert (Forall dotfree fqn_split) as Hdot.
  { eapply Forall_impl; [exact Hf|]. by intros s [? _]. }
  pose proof (module_expansion_dotfree _ _ He Hdot) as Hkdot.
  destruct (module_expansion_nonnil _ _ He) as [Hk Hq].
  destruct key_split as [|x k]; [done|]. destruct fqn_split as [|y f]; [done|].
  rewrite !split_dot_join by done.
  apply verify_loop_expansion; [done|].
  eapply Forall_impl; [exact Hf|]. by intros s [_ ?].
Qed.

Lemma verify_accepts_module_expansion_witness :
  verify (PyStr.join "." ["module"; "sub"; "module"; "w"]) (PyStr.join "." ["sub"; "w"])
  = Ok true.
Proof.
  apply (verify_accepts_module_expansion ["module"; "sub"; "module"; "w"] ["sub"; "w"]).
  - apply expansion_module, expansion_segment, expansion_module, expansion_last.
  - discriminate.
  - repeat constructor; discriminate.
Defined.

(** ** Instances of the lemmas on [_init_optim_state] and on the load *)

Lemma plain_two_unwrapped : unwrapped plain_two.
Proof.
  constructor.
  - cbn. repeat (apply NoDup_cons_2; [set_solver|]). apply NoDup_nil_2.
  - cbn. by repeat constructor.
  - constructor.
Qed.

Lemma fresh_world_registered : patches_registered fresh_world.
Proof. intros obj api call Hc. discriminate Hc. Qed.

Lemma fresh_world_unpatched obj api : unpatched obj api fresh_world.
Proof. split; [reflexivity | by intros ?%elem_of_nil]. Qed.

Lemma canonical_two_sd_unmarked k :
  k ∈ dom canonical_two_sd ->
  k ∈ state_dict_names plain_two /\ PyStr.contains FLAT_PARAM k = false.
Proof.
  unfold canonical_two_sd. intros Hk. rewrite dom_insert_L, dom_singleton_L in Hk.
  apply elem_of_union in Hk as [Hk|Hk]; apply elem_of_singleton in Hk; subst k.
  - split; [|reflexivity]. vm_compute. apply list_elem_of_here.
  - split; [|reflexivity]. vm_compute. apply list_elem_of_further, list_elem_of_here.
Qed.

Lemma init_optim_state_fresh_witness :
  exists w',
    _init_optim_state plain_two_native optim_two fresh_world = Done () w' /\
    log w' = log fresh_world
             ++ [EvStep (oid optim_two)
                   (synthesized (all_params optim_two) (grads fresh_world));
                 EvZeroGrad (oid optim_two)] /\
    (forall p, p ∈ all_params optim_two -> requires_grad p = true ->
       synthesized (all_params optim_two) (grads fresh_world) !! tensor_id p
       = Some (Zeros (tensor_id p))) /\
    (forall p, p ∈ all_params optim_two -> grads w' !! tensor_id p = None) /\
    optim_states w' !! oid optim_two = Some ∅.
Proof.
  apply (init_optim_state_fresh plain_two_native optim_two fresh_world ∅).
  - reflexivity.
  - cbn. repeat (apply NoDup_cons_2; [set_solver|]). apply NoDup_nil_2.
  - intros p Hp. apply lookup_empty.
  - reflexivity.
Defined.

Lemma init_optim_state_gradient_present_witness :
  exists w',
    _init_optim_state plain_two_native optim_two world_with_grad
    = Fail (RuntimeError GradientsNotNone) w' /\
    log w' = log world_with_grad /\ optim_states w' = optim_states world_with_grad.
Proof.
  apply (init_optim_state_gradient_present plain_two_native optim_two
           world_with_grad w0).
  - reflexivity.
  - apply list_elem_of_here.
  - exists (Opaque 9). reflexivity.
Defined.

Lemma unwrapped_load_hands_the_dict_over_witness :
  distributed_load_state_dict plain_two_native plain_two [] canonical_two_sd
    empty_osd false false None fresh_world
  = Done canonical_two_sd (emit (EvLoadStateDict nullcontext canonical_two_sd) fresh_world) /\
  distributed_load_state_dict plain_two_native plain_two [] canonical_two_sd
    empty_osd false false None (patched None fresh_world)
  = Fail TypeError (patched None fresh_world).
Proof.
  split.
  - destruct (unwrapped_load_hands_the_dict_over plain_two_native plain_two None
                fresh_world canonical_two_sd) as [Hload _].
    + apply plain_two_unwrapped.
    + reflexivity.
    + apply insert_non_empty.
    + intros k Hk. by apply canonical_two_sd_unmarked.
    + apply (Hload 0); [apply fresh_world_unpatched | reflexivity].
  - destruct (unwrapped_load_hands_the_dict_over plain_two_native plain_two None
                (patched None fresh_world) canonical_two_sd) as [_ Hraise].
    + apply plain_two_unwrapped.
    + reflexivity.
    + apply insert_non_empty.
    + intros k Hk. by apply canonical_two_sd_unmarked.
    + apply (Hraise (load_state_dict_call None)); [reflexivity | apply list_elem_of_here].
Defined.

Lemma patched_state_dict_returns_witness :
  (_ ← patch_model_state_dict plain_two None;
   model_state_dict_entry plain_two_strict plain_two) fresh_world
  = Done canonical_two_sd (patched None fresh_world).
Proof.
  apply (patched_state_dict_returns plain_two_strict plain_two None fresh_world
           canonical_two_sd).
  - apply plain_two_unwrapped.
  - reflexivity.
  - reflexivity.
  - apply fresh_world_registered.
  - reflexivity.
  - apply insert_non_empty.
  - apply canonical_two_sd_unmarked.
Defined.

(** ** [_load_model_state_dict] without a replica wrapper *)

(** X13.  On a tree with no replica wrapper, when [_load_model_state_dict]
    returns, the caller's dict is as it was, and the native
    [load_state_dict] was called once, on that dict, under the context of
    the run. *)
Theorem load_model_without_replica N model state_dict info w ack d w' :
  no_replica model ->
  _load_model_state_dict N model state_dict info w = Done (ack, d) w' ->
  d = state_dict /\
  w' = emit (EvLoadStateDict (fsdp_context info) state_dict) w /\
  nn_load_state_dict N (fsdp_context info) model state_dict = Ok ack.
Proof.
  intros Hn H. unfold _load_model_state_dict in H.
  apply bind_done in H as (sd' & w1 & Hfold & H).
  apply lift_done in Hfold as [Hfold ->].
  apply (load_without_replica_keeps_dict N _ _ _ _ Hn) in Hfold as ->.
  apply bind_done in H as (call & w1 & Hcall & H).
  injection Hcall as <- <-.
  apply bind_done in H as (ack' & w2 & Hnative & H).
  injection H as <- <-.
  cbv zeta in Hnative.
  destruct (if bool_decide (_ ∈ _) then _ else _) as [api|api| |];
    cbn [call_native_with_argument] in Hnative; try done.
  apply bind_done in Hnative as ([] & w3 & Hw & Hload).
  injection Hw as <-. apply lift_done in Hload as [Hload ->]. done.
Qed.

Lemma load_model_without_replica_witness :
  canonical_two_sd = canonical_two_sd /\
  emit (EvLoadStateDict nullcontext canonical_two_sd) fresh_world
  = emit (EvLoadStateDict (fsdp_context info_two) canonical_two_sd) fresh_world /\
  nn_load_state_dict plain_two_strict (fsdp_context info_two) plain_two
    canonical_two_sd = Ok 0.
Proof.
  apply (load_model_without_replica plain_two_strict plain_two canonical_two_sd
           info_two fresh_world 0 canonical_two_sd
           (emit (EvLoadStateDict nullcontext canonical_two_sd) fresh_world)).
  - apply unwrapped_no_replica, plain_two_unwrapped.
  - vm_compute. reflexivity.
Defined.

(** ** The order of the two loads *)

(** X16.  Where [load_state_dict] of the model is not patched,
    [distributed_load_state_dict] calls the native [load_state_dict] of the
    model whatever the flags are, [optim_only] included, on the dict as
    [_load_model_state_dict] has rekeyed it, and before any optimizer is
    looked at: when that call raises, the operation raises the same error
    and the optimizers are as they were. *)
Theorem load_raises_before_optimizers
    N model optims model_state_dict optim_state_dict model_only optim_only options
    info rekeyed e w :
  _verify_options model optims model_only optim_only options = Ok info ->
  _verify_state_dict model_state_dict optim_state_dict info = Ok () ->
  foldM (ddp_prefix_param_step N model) model_state_dict (named_parameters model)
  = Ok rekeyed ->
  unpatched the_model "load_state_dict" w ->
  nn_load_state_dict N (fsdp_context info) model rekeyed = Raise e ->
  distributed_load_state_dict N model optims model_state_dict optim_state_dict
    model_only optim_only options w
  = Fail e (emit (EvLoadStateDict (fsdp_context info) rekeyed) w).
Proof.
  intros Hv Hok Hfold Hun Hload.
  unfold distributed_load_state_dict. rewrite Hv.
  rewrite (bind_eq _ _ w info w) by done. rewrite Hok.
  rewrite (bind_eq _ _ w () w) by done.
  unfold _load_model_state_dict. rewrite Hfold.
  unfold mbind at 1, M_bind at 1.
  unfold mbind at 1, M_bind at 1.
  unfold mbind at 1, M_bind at 1. cbn [lift].
  rewrite (state_dict_fn_unpatched _ _ _ Hun). cbn [call_native_with_argument].
  unfold mbind, M_bind, write, lift. by rewrite Hload.
Qed.

Lemma load_raises_before_optimizers_witness :
  distributed_load_state_dict plain_two_strict plain_two [optim_two] ∅ merged_osd
    false true None fresh_world
  = Fail (NativeError 0) (emit (EvLoadStateDict nullcontext ∅) fresh_world).
Proof.
  apply (load_raises_before_optimizers plain_two_strict plain_two [optim_two] ∅
           merged_osd false true None info_two_optim_only ∅ (NativeError 0)
           fresh_world).
  - vm_compute. reflexivity.
  - vm_compute. reflexivity.
  - vm_compute. reflexivity.
  - apply fresh_world_unpatched.
  - vm_compute. reflexivity.
Defined.

(** ** The failures of [_split_optim_state_dict] *)

Lemma foldM_raise {A B} (f : B -> A -> result B) (P : exn -> Prop) l b e :
  (forall b a e, a ∈ l -> f b a = Raise e -> P e) ->
  foldM f b l = Raise e -> P e.
Proof.
  revert b. induction l as [|a l IH]; intros b Hf; cbn [foldM]; [done|].
  destruct (f b a) as [b'|e'] eqn:E; cbn [mbind result_bind].
  - apply IH. intros b0 a0 e0 Ha. apply Hf. by apply list_elem_of_further.
  - intros [= <-]. eapply Hf; [apply list_elem_of_here|exact E].
Qed.

Lemma foldM_ok_each {A B} (f : B -> A -> result B) l b b' a :
  foldM f b l = Ok b' -> a ∈ l -> exists b0 b1, f b0 a = Ok b1.
Proof.
  revert b. induction l as [|a0 l IH]; intros b H Ha; [by apply elem_of_nil in Ha|].
  cbn [foldM] in H. destruct (f b a0) as [b1|e] eqn:E; cbn [mbind result_bind] in H;
    [|done].
  apply elem_of_cons in Ha as [->|Ha]; [by exists b, b1|]. by eapply IH.
Qed.

Lemma split_fqn_step_raise osd acc fqn e :
  split_fqn_step osd acc fqn = Raise e -> e = KeyError.
Proof.
  unfold split_fqn_step, get_state, get_param_groups, dict_get.
  destruct (osd_state osd) as [state|]; cbn [mbind result_bind]; [|by intros [= <-]].
  destruct (state !! inr fqn); cbn [mbind result_bind]; [|by intros [= <-]].
  destruct (osd_param_groups osd); cbn [mbind result_bind]; [done|by intros [= <-]].
Qed.

Lemma split_fqn_step_inv osd acc fqn acc' :
  split_fqn_step osd acc fqn = Ok acc' ->
  exists state v, osd_state osd = Some state /\ state !! inr fqn = Some v.
Proof.
  unfold split_fqn_step, get_state, get_param_groups, dict_get.
  destruct (osd_state osd) as [state|]; cbn [mbind result_bind]; [|done].
  destruct (state !! inr fqn) as [v|] eqn:E; cbn [mbind result_bind]; [|done].
  intros _. by exists state, v.
Qed.

Lemma split_param_step_raise osd info acc p e :
  split_param_step osd info acc p = Raise e -> e = KeyError.
Proof.
  unfold split_param_step, dict_get.
  destruct (negb (requires_grad p)); [done|].
  destruct (by_param (fqn_param_mapping info) !! tensor_id p) as [fqns|];
    cbn [mbind result_bind]; [|by intros [= <-]].
  apply (foldM_raise _ (fun e => e = KeyError)).
  intros b a e0 _. apply split_fqn_step_raise.
Qed.

Lemma split_param_step_inv osd info acc p acc' :
  split_param_step osd info acc p = Ok acc' ->
  requires_grad p = true ->
  exists fqns, by_param (fqn_param_mapping info) !! tensor_id p = Some fqns /\
    forall fqn, fqn ∈ fqns ->
      exists state v, osd_state osd = Some state /\ state !! inr fqn = Some v.
Proof.
  unfold split_param_step, dict_get. intros H Hr. rewrite Hr in H. cbn [negb] in H.
  destruct (by_param (fqn_param_mapping info) !! tensor_id p) as [fqns|];
    cbn [mbind result_bind] in H; [|done].
  exists fqns. split; [done|]. intros fqn Hin.
  destruct (foldM_ok_each _ _ _ _ fqn H) as (b0 & b1 & Hstep).
  { by apply elem_of_elements. }
  by eapply split_fqn_step_inv.
Qed.

Lemma split_raise model optim osd info e :
  _split_optim_state_dict model optim osd info = Raise e -> e = KeyError.
Proof.
  unfold _split_optim_state_dict.
  destruct (foldM _ _ (param_groups optim)) as [acc|e'] eqn:E;
    cbn [mbind result_bind].
  - unfold get_param_groups. destruct (osd_param_groups osd); cbn [mbind result_bind];
      [done|by intros [= <-]].
  - intros [= <-]. revert E. apply (foldM_raise _ (fun e => e = KeyError)).
    intros b g e0 _. apply (foldM_raise _ (fun e => e = KeyError)).
    intros b0 p e1 _. apply split_param_step_raise.
Qed.

(** X17.  When a canonical name of a trainable parameter of the optimizer
    has no entry in the state of the merged dict, or the merged dict has no
    state at all, [_split_optim_state_dict] raises [KeyError]. *)
Theorem split_raises_key_error_on_missing_state model optim osd info fqn :
  trainable_fqn optim info fqn ->
  (forall state, osd_state osd = Some state -> state !! inr fqn = None) ->
  _split_optim_state_dict model optim osd info = Raise KeyError.
Proof.
  intros (g & p & fqns & Hg & Hp & Hr & Hidx & Hin) Hmissing.
  destruct (_split_optim_state_dict model optim osd info) as [r|e] eqn:E.
  - exfalso. unfold _split_optim_state_dict in E.
    destruct (foldM _ _ (param_groups optim)) as [acc|e'] eqn:Efold;
      cbn [mbind result_bind] in E; [|done].
    destruct (foldM_ok_each _ _ _ _ g Efold Hg) as (b0 & b1 & Hgroup).
    destruct (foldM_ok_each _ _ _ _ p Hgroup Hp) as (b2 & b3 & Hparam).
    destruct (split_param_step_inv _ _ _ _ _ Hparam Hr) as (fqns' & Hidx' & Hall).
    rewrite Hidx in Hidx'. injection Hidx' as <-.
    destruct (Hall fqn Hin) as (state & v & Hs & Hv).
    by rewrite (Hmissing state Hs) in Hv.
  - by rewrite (split_raise _ _ _ _ _ E).
Qed.

Lemma split_raises_key_error_on_missing_state_witness :
  _split_optim_state_dict plain_two optim_two osd_without_w info_two = Raise KeyError.
Proof.
  apply (split_raises_key_error_on_missing_state plain_two optim_two osd_without_w
           info_two "w").
  - exists (mkGroup [w0; frozen0] 0), w0, {[ "w" ]}.
    split; [apply list_elem_of_here|]. split; [apply list_elem_of_here|].
    split; [reflexivity|]. split; [reflexivity|]. by apply elem_of_singleton.
  - intros state [= <-]. reflexivity.
Defined.

Lemma split_frozen_params osd info l acc :
  (forall p, p ∈ l -> requires_grad p = false) ->
  foldM (split_param_step osd info) acc l = Ok acc.
Proof.
  revert acc. induction l as [|p l IH]; intros acc H; cbn [foldM]; [done|].
  assert (split_param_step osd info acc p = Ok acc) as ->.
  { unfold split_param_step. by rewrite (H p) by apply list_elem_of_here. }
  cbn [mbind result_bind]. apply IH. intros q Hq. apply H.
  by apply list_elem_of_further.
Qed.

(** X18.  For an optimizer all of whose parameters are frozen (or that has
    no parameter), [_split_optim_state_dict] reads nothing of the state of
    the merged dict: when the merged dict has a [param_groups] entry, the
    result is an empty state with no parameter group at all, whatever
    groups the entry holds; when it has none, the final loop raises
    [KeyError]. *)
Theorem split_of_frozen_optimizer model optim osd info :
  (forall g p, g ∈ param_groups optim -> p ∈ params g -> requires_grad p = false) ->
  _split_optim_state_dict model optim osd info
  = match osd_param_groups osd with
    | Some _ => Ok (mkOsd (Some ∅) (Some []))
    | None => Raise KeyError
    end.
Proof.
  intros Hfrozen. unfold _split_optim_state_dict.
  assert (forall l acc, (forall g, g ∈ l -> g ∈ param_groups optim) ->
            foldM (fun acc param_group =>
                     foldM (split_param_step osd info) acc (params param_group))
                  acc l = Ok acc) as Hfold.
  { induction l as [|g l IH]; intros acc Hl; cbn [foldM]; [done|].
    rewrite split_frozen_params.
    - cbn [mbind result_bind]. apply IH. intros g' Hg'. apply Hl.
      by apply list_elem_of_further.
    - intros p Hp. apply (Hfrozen g p); [|done]. apply Hl, list_elem_of_here. }
  rewrite Hfold by done. cbn [mbind result_bind].
  unfold get_param_groups. destruct (osd_param_groups osd) as [groups|];
    cbn [mbind result_bind fst snd]; [|done].
  do 2 f_equal. clear. induction groups as [|g groups IH]; [done|].
  rewrite filter_cons_False; [done|]. apply not_elem_of_empty.
Qed.

Lemma split_of_frozen_optimizer_witness :
  _split_optim_state_dict plain_two optim_frozen merged_osd info_two
  = Ok (mkOsd (Some ∅) (Some [])) /\
  _split_optim_state_dict plain_two optim_frozen (mkOsd (Some ∅) None) info_two
  = Raise KeyError.
Proof.
  assert (forall g p, g ∈ param_groups optim_frozen -> p ∈ params g ->
            requires_grad p = false) as Hfrozen.
  { intros g p Hg Hp. apply list_elem_of_singleton in Hg. subst g.
    apply list_elem_of_singleton in Hp. by subst p. }
  split.
  - exact (split_of_frozen_optimizer plain_two optim_frozen merged_osd info_two Hfrozen).
  - exact (split_of_frozen_optimizer plain_two optim_frozen (mkOsd (Some ∅) None)
             info_two Hfrozen).
Defined.

(** ** Renaming the keys of a dict in place *)

Lemma ddp_prefix_step_moves (d : gmap string Value) a b v :
  a ≠ b -> d !! a = Some v ->
  ddp_prefix_step d (a, b) = Ok (<[b := v]> (delete a d)).
Proof.
  intros Hne Hv. unfold ddp_prefix_step, dict_pop.
  apply String.eqb_neq in Hne. rewrite Hne, Hv. done.
Qed.

Lemma ddp_prefix_step_stays (d : gmap string Value) a :
  ddp_prefix_step d (a, a) = Ok d.
Proof. unfold ddp_prefix_step. by rewrite String.eqb_refl. Qed.

(** A run of renamings [d[b] = d.pop(a)] whose sources are distinct, whose
    targets are distinct and new to the dict, and not sources themselves,
    moves every value to its target and changes nothing else. *)
Lemma rename_fold (pairs : list (string * string)) : forall d : gmap string Value,
  NoDup pairs.*1 ->
  (forall a b, (a, b) ∈ pairs -> a ≠ b ->
     is_Some (d !! a) /\ d !! b = None /\ b ∉ pairs.*1) ->
  (forall a b a' b', (a, b) ∈ pairs -> (a', b') ∈ pairs -> b = b' -> a = a') ->
  exists d', foldM ddp_prefix_step d pairs = Ok d' /\
    (forall a b, (a, b) ∈ pairs -> d' !! b = d !! a) /\
    (forall k, k ∉ pairs.*2 ->
       d' !! k = if bool_decide (k ∈ pairs.*1) then None else d !! k).
Proof.
  induction pairs as [|[a b] pairs IH]; intros d Hnd Hmove Hinj.
  - exists d. split; [done|]. split; [by intros a b ?%elem_of_nil|]. done.
  - cbn [fmap list_fmap fst] in Hnd. apply NoDup_cons in Hnd as [Ha Hnd].
    assert (forall a' b', (a', b') ∈ pairs -> a' ≠ a) as Hsrc.
    { intros a' b' Hin ->. apply Ha. apply list_elem_of_fmap. by exists (a, b'). }
    assert (forall a' b', (a', b') ∈ pairs -> b' ≠ b) as Htgt.
    { intros a' b' Hin ->. apply (Hsrc a' b Hin).
      apply (Hinj a' b a b); [by apply list_elem_of_further|apply list_elem_of_here|done]. }
    assert (b ∉ pairs.*2) as Hb2.
    { intros Hc. apply list_elem_of_fmap in Hc as ([a' b'] & Hb & Hin). cbn in Hb.
      subst b'. by apply (Htgt a' b Hin). }
    cbn [foldM]. destruct (decide (a = b)) as [<-|Hne].
    + rewrite ddp_prefix_step_stays. cbn [mbind result_bind].
      destruct (IH d Hnd) as (d' & Hfold & Hto & Hrest).
      { intros a' b' Hin Hne'.
        destruct (Hmove a' b' (list_elem_of_further _ _ _ Hin) Hne') as (H1 & H2 & H3).
        split; [done|]. split; [done|]. intros Hc. apply H3.
        cbn [fmap list_fmap fst]. by apply list_elem_of_further. }
      { intros a1 b1 a2 b2 H1 H2. apply Hinj; by apply list_elem_of_further. }
      exists d'. split; [done|]. split.
      * intros a' b' [[= -> ->]|Hin]%elem_of_cons; [|by apply Hto].
        rewrite Hrest by done. by rewrite bool_decide_eq_false_2.
      * intros k Hk. cbn [fmap list_fmap fst snd] in Hk |- *.
        apply not_elem_of_cons in Hk as [Hka Hk]. rewrite Hrest by done.
        case_bool_decide as H1.
        -- rewrite bool_decide_eq_true_2; [done|]. by apply list_elem_of_further.
        -- rewrite bool_decide_eq_false_2; [done|].
           intros [?|?]%elem_of_cons; done.
    + destruct (Hmove a b (list_elem_of_here _ _) Hne) as ([v Hv] & Hfresh & Hbsrc).
      cbn [fmap list_fmap fst] in Hbsrc. apply not_elem_of_cons in Hbsrc as [_ Hbsrc].
      rewrite (ddp_prefix_step_moves d a b v Hne Hv). cbn [mbind result_bind].
      assert (forall k, k ≠ a -> k ≠ b -> (<[b := v]> (delete a d)) !! k = d !! k) as Hother.
      { intros k H1 H2. rewrite lookup_insert_ne by done. by rewrite lookup_delete_ne. }
      destruct (IH (<[b := v]> (delete a d)) Hnd) as (d' & Hfold & Hto & Hrest).
      { intros a' b' Hin Hne'.
        destruct (Hmove a' b' (list_elem_of_further _ _ _ Hin) Hne') as (H1 & H2 & H3).
        cbn [fmap list_fmap fst] in H3. apply not_elem_of_cons in H3 as [H3a H3].
        assert (a' ≠ b) as Hab.
        { intros ->. apply Hbsrc. apply list_elem_of_fmap. by exists (b, b'). }
        split; [|split; [|done]].
        - rewrite Hother; [done|by eapply Hsrc|done].
        - rewrite Hother; [done|done|by eapply Htgt]. }
      { intros a1 b1 a2 b2 H1 H2. apply Hinj; by apply list_elem_of_further. }
      exists d'. split; [done|]. split.
      * intros a' b' [[= -> ->]|Hin]%elem_of_cons.
        -- rewrite Hrest by done. rewrite bool_decide_eq_false_2 by done.
           by rewrite lookup_insert_eq.
        -- rewrite (Hto a' b' Hin).
           destruct (decide (a' = b')) as [<-|Hne'].
           ++ apply Hother; [by eapply Hsrc|by eapply Htgt].
           ++ apply Hother; [by eapply Hsrc|].
              intros ->. apply Hbsrc. apply list_elem_of_fmap. by exists (b, b').
      * intros k Hk. cbn [fmap list_fmap fst snd] in Hk |- *.
        apply not_elem_of_cons in Hk as [Hkb Hk]. rewrite Hrest by done.
        case_bool_decide as H1.
        -- rewrite bool_decide_eq_true_2; [done|]. by apply list_elem_of_further.
        -- destruct (decide (k = a)) as [->|Hka].
           ++ rewrite bool_decide_eq_true_2 by apply list_elem_of_here.
              rewrite lookup_insert_ne by done. apply lookup_delete_eq.
           ++ rewrite bool_decide_eq_false_2.
              ** by apply Hother.
              ** intros [?|?]%elem_of_cons; done.
Qed.

Lemma canonical_key_step_rename model (sd : gmap string Value) key fqn :
  _get_fqns model key true = Ok {[ fqn ]} ->
  (fqn ≠ key -> verify key fqn = Ok true) ->
  canonical_key_step model sd key = ddp_prefix_step sd (key, fqn).
Proof.
  intros Hf Hv. unfold canonical_key_step, ddp_prefix_step. rewrite Hf.
  cbn [mbind result_bind]. rewrite elements_singleton.
  destruct (String.eqb_spec fqn key) as [->|Hne].
  - by rewrite String.eqb_refl.
  - rewrite (Hv Hne). cbn [mbind result_bind negb].
    assert (String.eqb key fqn = false) as ->; [|done].
    apply String.eqb_neq. congruence.
Qed.

Lemma canonical_keys_rename model (canonical : string -> string) keys :
  forall sd : gmap string Value,
  (forall key, key ∈ keys ->
     _get_fqns model key true = Ok {[ canonical key ]} /\
     (canonical key ≠ key -> verify key (canonical key) = Ok true)) ->
  foldM (canonical_key_step model) sd keys
  = foldM ddp_prefix_step sd ((fun key => (key, canonical key)) <$> keys).
Proof.
  induction keys as [|key keys IH]; intros sd H; [done|].
  cbn [foldM fmap list_fmap].
  destruct (H key (list_elem_of_here _ _)) as [Hf Hv].
  rewrite (canonical_key_step_rename model sd key (canonical key) Hf Hv).
  destruct (ddp_prefix_step sd (key, canonical key)); cbn [mbind result_bind]; [|done].
  apply IH. intros k Hk. apply H. by apply list_elem_of_further.
Qed.

Lemma get_model_state_dict_renames N model info w state_dict (canonical : string -> string) :
  patches_registered w ->
  nn_state_dict N (fsdp_context info) model = Ok state_dict ->
  save_frozen_params (info_options info) = true ->
  (forall key, key ∈ dom state_dict ->
     _get_fqns model key true = Ok {[ canonical key ]} /\
     (canonical key ≠ key ->
        verify key (canonical key) = Ok true /\ canonical key ∉ dom state_dict)) ->
  (forall k k', k ∈ dom state_dict -> k' ∈ dom state_dict ->
     canonical k = canonical k' -> k = k') ->
  exists d, _get_model_state_dict N model info w = Done d w /\
    (forall key, key ∈ dom state_dict -> d !! canonical key = state_dict !! key) /\
    (forall fqn, is_Some (d !! fqn) ->
       exists key, key ∈ dom state_dict /\ fqn = canonical key).
Proof.
  intros Hreg Hnative Hfrozen Hres Hinj.
  set (keys := elements (dom state_dict)).
  set (pairs := (fun key => (key, canonical key)) <$> keys).
  assert (pairs.*1 = keys) as Hsrc.
  { unfold pairs. rewrite <- list_fmap_compose. apply list_fmap_id. }
  assert (forall a b, (a, b) ∈ pairs <-> a ∈ dom state_dict /\ b = canonical a) as Hpairs.
  { intros a b. unfold pairs. rewrite list_elem_of_fmap. split.
    - intros (k & [= -> ->] & Hk). split; [|done]. by apply elem_of_elements.
    - intros [Ha ->]. exists a. split; [done|]. by apply elem_of_elements. }
  destruct (rename_fold pairs state_dict) as (d & Hfold & Hto & Hrest).
  { rewrite Hsrc. apply NoDup_elements. }
  { intros a b [Ha ->]%Hpairs Hne.
    destruct (Hres a Ha) as [_ Hmoved]. destruct (Hmoved (not_eq_sym Hne)) as [_ Hfresh].
    split; [by apply elem_of_dom|]. split; [by apply not_elem_of_dom|].
    rewrite Hsrc. unfold keys. by rewrite elem_of_elements. }
  { intros a b a' b' [Ha ->]%Hpairs [Ha' ->]%Hpairs Heq. by apply Hinj. }
  exists d. split; [|split].
  - unfold _get_model_state_dict.
    rewrite state_dict_fn_native by done.
    cbn [call_native]. rewrite Hnative.
    rewrite (bind_eq _ _ w state_dict w) by done.
    fold keys. rewrite (canonical_keys_rename model canonical).
    2: { intros key Hk. apply elem_of_elements in Hk.
         destruct (Hres key Hk) as [Hf Hm]. split; [done|]. intros Hne.
         by destruct (Hm Hne). }
    fold pairs. rewrite Hfold.
    rewrite (bind_eq _ _ w d w) by done. by rewrite Hfrozen.
  - intros key Hk. apply Hto. by apply Hpairs.
  - intros fqn Hsome. destruct (decide (fqn ∈ pairs.*2)) as [Hin|Hnin].
    + apply list_elem_of_fmap in Hin as ([a b] & -> & Hin). cbn [snd].
      apply Hpairs in Hin as [Ha ->]. by exists a.
    + rewrite (Hrest fqn Hnin) in Hsome. rewrite Hsrc in Hsome.
      case_bool_decide as Hk; [by destruct Hsome|].
      exfalso. apply Hk. unfold keys. rewrite elem_of_elements. by apply elem_of_dom.
Qed.

(** X19.  When every key of the native state dict resolves to one
    canonical name, a key that is renamed passes the inner [verify], and the
    canonical names are distinct and, where they differ from the key, not
    keys of the native dict themselves, [_get_model_state_dict] (with the
    frozen parameters kept) returns the values of the native dict under the
    canonical names, and nothing else. *)
Theorem extraction_moves_values N model info w state_dict (canonical : string -> string) :
  patches_registered w ->
  nn_state_dict N (fsdp_context info) model = Ok state_dict ->
  save_frozen_params (info_options info) = true ->
  (forall key, key ∈ dom state_dict ->
     _get_fqns model key true = Ok {[ canonical key ]} /\
     (canonical key ≠ key ->
        verify key (canonical key) = Ok true /\ canonical key ∉ dom state_dict)) ->
  (forall k k', k ∈ dom state_dict -> k' ∈ dom state_dict ->
     canonical k = canonical k' -> k = k') ->
  exists d, _get_model_state_dict N model info w = Done d w /\
    (forall key, key ∈ dom state_dict -> d !! canonical key = state_dict !! key) /\
    (forall fqn, is_Some (d !! fqn) ->
       exists key, key ∈ dom state_dict /\ fqn = canonical key).
Proof. apply get_model_state_dict_renames. Qed.

Lemma native_names_sd_keys key :
  key ∈ dom native_names_sd -> key = "module.w" \/ key = "module.b".
Proof.
  unfold native_names_sd. rewrite dom_insert_L, dom_singleton_L.
  intros [Hk|Hk]%elem_of_union; apply elem_of_singleton in Hk; auto.
Qed.

Lemma extraction_moves_values_witness :
  exists d, _get_model_state_dict strict_native replica_with_buffer info_two fresh_world
            = Done d fresh_world /\
    (forall key, key ∈ dom native_names_sd ->
       d !! strip_module key = native_names_sd !! key) /\
    (forall fqn, is_Some (d !! fqn) ->
       exists key, key ∈ dom native_names_sd /\ fqn = strip_module key).
Proof.
  apply (extraction_moves_values strict_native replica_with_buffer info_two
           fresh_world native_names_sd strip_module).
  - intros obj api call Hc. discriminate Hc.
  - reflexivity.
  - reflexivity.
  - intros key [->| ->]%native_names_sd_keys.
    + split; [vm_compute; reflexivity|]. intros _. split; [reflexivity|].
      intros [?| ?]%native_names_sd_keys; discriminate.
    + split; [vm_compute; reflexivity|]. intros _. split; [reflexivity|].
      intros [?| ?]%native_names_sd_keys; discriminate.
  - intros k k' [->| ->]%native_names_sd_keys [->| ->]%native_names_sd_keys;
      try done; discriminate.
Defined.

(** ** Extraction with no optimizer, with or without wrappers *)




Lemma iter_set_singleton hash (x : string) : iter_set hash {[ x ]} = [x].
Proof. unfold iter_set. by rewrite elements_singleton. Qed.

Lemma ddp_prefix_param_step_rename N model (sd : gmap string Value) entry fqn
    fqn_with_ddp_prefix :
  _get_fqns model entry.1 true = Ok {[ fqn ]} ->
  _get_fqns model entry.1 false = Ok {[ fqn_with_ddp_prefix ]} ->
  ddp_prefix_param_step N model sd entry = ddp_prefix_step sd (fqn, fqn_with_ddp_prefix).
Proof.
  intros Ht Hf. unfold ddp_prefix_param_step. rewrite Ht, Hf.
  cbn [mbind result_bind]. rewrite !iter_set_singleton. cbn [zip zip_with foldM].
  by destruct (ddp_prefix_step sd (fqn, fqn_with_ddp_prefix)).
Qed.

Lemma ddp_prefix_params_rename N model (canonical native : string -> string) l :
  forall sd : gmap string Value,
  (forall e, e ∈ l ->
     _get_fqns model e.1 true = Ok {[ canonical e.1 ]} /\
     _get_fqns model e.1 false = Ok {[ native e.1 ]}) ->
  foldM (ddp_prefix_param_step N model) sd l
  = foldM ddp_prefix_step sd ((fun e : string * Param => (canonical e.1, native e.1)) <$> l).
Proof.
  induction l as [|e l IH]; intros sd H; [done|].
  cbn [foldM fmap list_fmap].
  destruct (H e (list_elem_of_here _ _)) as [Ht Hf].
  rewrite (ddp_prefix_param_step_rename N model sd e _ _ Ht Hf).
  destruct (ddp_prefix_step sd _); cbn [mbind result_bind]; [|done].
  apply IH. intros e' He'. apply H. by apply list_elem_of_further.
Qed.

(** X20.  Where [load_state_dict] of the model is not patched: when the
    name of every parameter resolves to one canonical and one native name,
    the canonical names are distinct, and each canonical name that differs
    from the native one is a key of the caller's dict
    while the native one is not, the loop of [_load_model_state_dict]
    succeeds: what the native [load_state_dict] receives, and what the
    caller is left with, has the value of every parameter under its native
    name, no key under the canonical name of a renamed parameter, and every
    other key (the buffers' among them) as the caller gave it. *)
Theorem load_moves_param_values N model info w state_dict
    (canonical native : string -> string) :
  unpatched the_model "load_state_dict" w ->
  (forall name p, (name, p) ∈ named_parameters model ->
     _get_fqns model name true = Ok {[ canonical name ]} /\
     _get_fqns model name false = Ok {[ native name ]}) ->
  NoDup (canonical <$> (named_parameters model).*1) ->
  (forall name p, (name, p) ∈ named_parameters model ->
     canonical name ≠ native name ->
     (canonical name ∈ dom state_dict) /\ (native name ∉ dom state_dict) /\
     (native name ∉ canonical <$> (named_parameters model).*1)) ->
  (forall name p name' p',
     (name, p) ∈ named_parameters model -> (name', p') ∈ named_parameters model ->
     native name = native name' -> canonical name = canonical name') ->
  exists d,
    _load_model_state_dict N model state_dict info w
    = match nn_load_state_dict N (fsdp_context info) model d with
      | Ok ack => Done (ack, d) (emit (EvLoadStateDict (fsdp_context info) d) w)
      | Raise e => Fail e (emit (EvLoadStateDict (fsdp_context info) d) w)
      end /\
    (forall name p, (name, p) ∈ named_parameters model ->
       d !! native name = state_dict !! canonical name) /\
    (forall key, key ∉ native <$> (named_parameters model).*1 ->
       d !! key = if bool_decide (key ∈ canonical <$> (named_parameters model).*1)
                  then None else state_dict !! key).
Proof.
  intros Hun Hres Hnd Hmove Hinj.
  set (l := named_parameters model) in *.
  set (pairs := (fun e : string * Param => (canonical e.1, native e.1)) <$> l).
  assert (pairs.*1 = canonical <$> l.*1) as Hsrc.
  { unfold pairs. rewrite <- !list_fmap_compose. done. }
  assert (pairs.*2 = native <$> l.*1) as Htgt.
  { unfold pairs. rewrite <- !list_fmap_compose. done. }
  assert (forall a b, (a, b) ∈ pairs <->
            exists name p, (name, p) ∈ l /\ a = canonical name /\ b = native name)
    as Hpairs.
  { intros a b. unfold pairs. rewrite list_elem_of_fmap. split.
    - intros ([name p] & [= -> ->] & Hin). by exists name, p.
    - intros (name & p & Hin & -> & ->). by exists (name, p). }
  destruct (rename_fold pairs state_dict) as (d & Hfold & Hto & Hrest).
  { by rewrite Hsrc. }
  { intros a b (name & p & Hin & -> & ->)%Hpairs Hne.
    destruct (Hmove name p Hin Hne) as (H1 & H2 & H3).
    split; [by apply elem_of_dom|]. split; [by apply not_elem_of_dom|].
    by rewrite Hsrc. }
  { intros a b a' b' (name & p & Hin & -> & ->)%Hpairs
      (name' & p' & Hin' & -> & ->)%Hpairs Heq. by eapply Hinj. }
  exists d. split; [|split].
  - unfold _load_model_state_dict. fold l.
    rewrite (ddp_prefix_params_rename N model canonical native).
    2: { intros [name p] He. by apply (Hres name p). }
    fold pairs. rewrite Hfold.
    rewrite (bind_eq _ _ w d w) by done.
    rewrite (bind_eq _ _ _ _ _ (state_dict_fn_unpatched _ _ _ Hun)).
    cbn [call_native_with_argument]. unfold mbind, M_bind, write, lift.
    by destruct (nn_load_state_dict N (fsdp_context info) model d).
  - intros name p Hin. apply Hto. apply Hpairs. by exists name, p.
  - intros key Hk. rewrite <- Htgt in Hk. rewrite (Hrest key Hk). by rewrite Hsrc.
Qed.

Lemma load_moves_param_values_witness :
  exists d,
    _load_model_state_dict strict_native replica_with_buffer canonical_names_sd
      info_two fresh_world
    = match nn_load_state_dict strict_native (fsdp_context info_two)
              replica_with_buffer d with
      | Ok ack => Done (ack, d) (emit (EvLoadStateDict (fsdp_context info_two) d) fresh_world)
      | Raise e => Fail e (emit (EvLoadStateDict (fsdp_context info_two) d) fresh_world)
      end /\
    (forall name p, (name, p) ∈ named_parameters replica_with_buffer ->
       d !! add_module (strip_module name)
       = canonical_names_sd !! strip_module name) /\
    (forall key,
       key ∉ (fun n => add_module (strip_module n))
             <$> (named_parameters replica_with_buffer).*1 ->
       d !! key
       = if bool_decide (key ∈ strip_module <$> (named_parameters replica_with_buffer).*1)
         then None else canonical_names_sd !! key).
Proof.
  apply (load_moves_param_values strict_native replica_with_buffer info_two
           fresh_world canonical_names_sd strip_module
           (fun n => add_module (strip_module n))).
  - apply fresh_world_unpatched.
  - intros name p Hin. vm_compute in Hin.
    apply list_elem_of_singleton in Hin. injection Hin as -> ->.
    split; vm_compute; reflexivity.
  - vm_compute. apply NoDup_singleton.
  - intros name p Hin _. vm_compute in Hin.
    apply list_elem_of_singleton in Hin. injection Hin as -> ->.
    split; [|split].
    + apply elem_of_dom. by exists (Opaque 10).
    + apply not_elem_of_dom. reflexivity.
    + vm_compute. intros Hc. apply list_elem_of_singleton in Hc. discriminate.
  - intros name p name' p' Hin Hin' _. vm_compute in Hin, Hin'.
    apply list_elem_of_singleton in Hin, Hin'. by simplify_eq.
Defined.

(** ** The filter of the frozen parameters *)

Lemma pop_step (d : gmap string Value) key :
  (popped ← dict_pop key d; Ok popped.2)
  = match d !! key with Some _ => Ok (delete key d) | None => Raise KeyError end.
Proof. unfold dict_pop. by destruct (d !! key). Qed.

Lemma pop_fold (keys : list string) : forall d : gmap string Value,
  NoDup keys -> (forall k, k ∈ keys -> is_Some (d !! k)) ->
  exists d', foldM (fun d fqn => popped ← dict_pop fqn d; Ok popped.2) d keys = Ok d' /\
    forall k, d' !! k = if bool_decide (k ∈ keys) then None else d !! k.
Proof.
  induction keys as [|key keys IH]; intros d Hnd Hin.
  - by exists d.
  - apply NoDup_cons in Hnd as [Hkey Hnd]. cbn [foldM].
    destruct (Hin key (list_elem_of_here _ _)) as [v Hv].
    rewrite pop_step, Hv. cbn [mbind result_bind].
    destruct (IH (delete key d) Hnd) as (d' & Hfold & Hlook).
    { intros k Hk. rewrite lookup_delete_ne; [apply Hin; by apply list_elem_of_further|].
      by intros ->. }
    exists d'. split; [done|]. intros k. rewrite Hlook.
    case_bool_decide as H1.
    + rewrite bool_decide_eq_true_2; [done|]. by apply list_elem_of_further.
    + destruct (decide (k = key)) as [->|Hne].
      * rewrite bool_decide_eq_true_2 by apply list_elem_of_here. apply lookup_delete_eq.
      * rewrite lookup_delete_ne by done. rewrite bool_decide_eq_false_2; [done|].
        intros [?|?]%elem_of_cons; done.
Qed.

Lemma pop_fold_missing (keys : list string) : forall (d : gmap string Value) key,
  key ∈ keys -> d !! key = None ->
  foldM (fun d fqn => popped ← dict_pop fqn d; Ok popped.2) d keys = Raise KeyError.
Proof.
  induction keys as [|k keys IH]; intros d key Hin Hnone; [by apply elem_of_nil in Hin|].
  cbn [foldM]. rewrite pop_step.
  destruct (d !! k) as [v|] eqn:Hv; cbn [mbind result_bind]; [|done].
  apply elem_of_cons in Hin as [->|Hin]; [congruence|].
  apply (IH _ key Hin). destruct (decide (key = k)) as [->|Hne].
  - apply lookup_delete_eq.
  - by rewrite lookup_delete_ne.
Qed.

Lemma drop_frozen_fold model (fqns_of : string -> gset string) l :
  forall sd : gmap string Value,
  (forall name p, (name, p) ∈ l -> requires_grad p = false ->
     _get_fqns model name true = Ok (fqns_of name)) ->
  NoDup (dropped_fqns fqns_of l) ->
  (forall fqn, fqn ∈ dropped_fqns fqns_of l -> is_Some (sd !! fqn)) ->
  exists d, foldM (drop_frozen_step model) sd l = Ok d /\
    forall k, d !! k = if bool_decide (k ∈ dropped_fqns fqns_of l) then None else sd !! k.
Proof.
  induction l as [|[name p] l IH]; intros sd Hres Hnd Hin.
  - by exists sd.
  - unfold dropped_fqns in Hnd, Hin |- *. cbn [fmap list_fmap concat fst snd] in Hnd, Hin |- *.
    fold (dropped_fqns fqns_of l) in *.
    apply NoDup_app in Hnd as (Hhere & Hdisj & Hnd). cbn [foldM].
    destruct (requires_grad p) eqn:Hr.
    + assert (drop_frozen_step model sd (name, p) = Ok sd) as ->.
      { unfold drop_frozen_step. by rewrite Hr. }
      cbn [mbind result_bind].
      destruct (IH sd) as (d & Hfold & Hlook); [|done|..].
      * intros n q Hq. apply Hres. by apply list_elem_of_further.
      * intros fqn Hf. apply Hin. by apply elem_of_app; right.
      * exists d. split; [done|]. intros k. by rewrite Hlook.
    + destruct (pop_fold (elements (fqns_of name)) sd Hhere) as (d1 & Hpop & Hlook1).
      { intros k Hk. apply Hin. by apply elem_of_app; left. }
      assert (drop_frozen_step model sd (name, p) = Ok d1) as ->.
      { unfold drop_frozen_step. rewrite Hr.
        rewrite (Hres name p) by (done || apply list_elem_of_here). exact Hpop. }
      cbn [mbind result_bind].
      destruct (IH d1) as (d & Hfold & Hlook); [|done|..].
      * intros n q Hq. apply Hres. by apply list_elem_of_further.
      * intros fqn Hf. rewrite Hlook1. rewrite bool_decide_eq_false_2.
        -- apply Hin. by apply elem_of_app; right.
        -- intros Hc. by apply (Hdisj fqn Hc).
      * exists d. split; [done|]. intros k. rewrite Hlook, Hlook1.
        case_bool_decide as H1.
        -- rewrite bool_decide_eq_true_2; [done|]. by apply elem_of_app; right.
        -- case_bool_decide as H2.
           ++ rewrite bool_decide_eq_true_2; [done|]. by apply elem_of_app; left.
           ++ rewrite bool_decide_eq_false_2; [done|].
              intros [?|?]%elem_of_app; done.
Qed.

(** X21.  With [save_frozen_params] off, on a model whose native keys are
    already canonical, [_get_model_state_dict] returns the native dict
    without the canonical names of the frozen parameters and with every
    other entry, the buffers' among them, unchanged, provided those names
    are distinct keys of the native dict. *)
Theorem extraction_drops_frozen N model info w state_dict (fqns_of : string -> gset string) :
  patches_registered w ->
  nn_state_dict N (fsdp_context info) model = Ok state_dict ->
  save_frozen_params (info_options info) = false ->
  (forall key, key ∈ dom state_dict -> _get_fqns model key true = Ok {[ key ]}) ->
  (forall name p, (name, p) ∈ named_parameters model -> requires_grad p = false ->
     _get_fqns model name true = Ok (fqns_of name)) ->
  NoDup (dropped_fqns fqns_of (named_parameters model)) ->
  (forall fqn, fqn ∈ dropped_fqns fqns_of (named_parameters model) ->
     fqn ∈ dom state_dict) ->
  exists d, _get_model_state_dict N model info w = Done d w /\
    forall k, d !! k = if bool_decide (k ∈ dropped_fqns fqns_of (named_parameters model))
                       then None else state_dict !! k.
Proof.
  intros Hreg Hnative Hfrozen Hkeys Hres Hnd Hin.
  destruct (drop_frozen_fold model fqns_of (named_parameters model) state_dict Hres Hnd)
    as (d & Hfold & Hlook).
  { intros fqn Hf. apply elem_of_dom. by apply Hin. }
  exists d. split; [|done].
  unfold _get_model_state_dict.
  rewrite state_dict_fn_native by done.
  cbn [call_native]. rewrite Hnative.
  rewrite (bind_eq _ _ w state_dict w) by done.
  rewrite canonical_keys_fixed.
  2: { intros k Hk. apply Hkeys. by apply elem_of_elements. }
  rewrite (bind_eq _ _ w state_dict w) by done.
  rewrite Hfrozen. cbn [negb]. by rewrite Hfold.
Qed.

Lemma extraction_drops_frozen_witness :
  exists d,
    _get_model_state_dict plain_two_native plain_two
      (mkInfo trainable_only_options (fqn_param_mapping info_two) true false nullcontext [])
      fresh_world
    = Done d fresh_world /\
    forall k, d !! k
              = if bool_decide (k ∈ dropped_fqns (fun name => {[ name ]})
                                      (named_parameters plain_two))
                then None else canonical_two_sd !! k.
Proof.
  apply (extraction_drops_frozen plain_two_native plain_two
           (mkInfo trainable_only_options (fqn_param_mapping info_two) true false
              nullcontext [])
           fresh_world canonical_two_sd (fun name => {[ name ]})).
  - intros obj api call Hc. discriminate Hc.
  - reflexivity.
  - reflexivity.
  - intros key Hk. unfold canonical_two_sd in Hk.
    rewrite dom_insert_L, dom_singleton_L in Hk.
    apply elem_of_union in Hk as [Hk|Hk]; apply elem_of_singleton in Hk; by subst key.
  - intros name p Hin _. vm_compute in Hin.
    apply elem_of_cons in Hin as [[= -> ->]|Hin]; [done|].
    apply list_elem_of_singleton in Hin. by injection Hin as -> ->.
  - unfold dropped_fqns. vm_compute named_parameters. cbn.
    rewrite elements_singleton. apply NoDup_singleton.
  - unfold dropped_fqns. vm_compute named_parameters. cbn.
    rewrite elements_singleton. intros fqn Hf. apply list_elem_of_singleton in Hf.
    subst fqn. apply elem_of_dom. by exists (Opaque 21).
Defined.

Lemma pop_fold_outcome (keys : list string) : forall d : gmap string Value,
  (exists d', foldM (fun d fqn => popped ← dict_pop fqn d; Ok popped.2) d keys = Ok d' /\
              forall k, d !! k = None -> d' !! k = None) \/
  foldM (fun d fqn => popped ← dict_pop fqn d; Ok popped.2) d keys = Raise KeyError.
Proof.
  induction keys as [|key keys IH]; intros d; cbn [foldM].
  - left. by exists d.
  - rewrite pop_step. destruct (d !! key) as [v|] eqn:Hv; cbn [mbind result_bind];
      [|by right].
    destruct (IH (delete key d)) as [(d' & -> & Hmono)| ->]; [left|by right].
    exists d'. split; [done|]. intros k Hk. apply Hmono.
    destruct (decide (k = key)) as [->|Hne]; [apply lookup_delete_eq|].
    by rewrite lookup_delete_ne.
Qed.

Lemma drop_frozen_fold_missing model (fqns_of : string -> gset string) l name p fqn :
  forall sd : gmap string Value,
  (forall name p, (name, p) ∈ l -> requires_grad p = false ->
     _get_fqns model name true = Ok (fqns_of name)) ->
  (name, p) ∈ l -> requires_grad p = false -> fqn ∈ fqns_of name ->
  sd !! fqn = None ->
  foldM (drop_frozen_step model) sd l = Raise KeyError.
Proof.
  induction l as [|[n q] l IH]; intros sd Hres Hin Hr Hf Hnone;
    [by apply elem_of_nil in Hin|].
  cbn [foldM]. apply elem_of_cons in Hin as [[= <- <-]|Hin].
  - assert (drop_frozen_step model sd (name, p) = Raise KeyError) as ->; [|done].
    unfold drop_frozen_step. rewrite Hr.
    rewrite (Hres name p) by (done || apply list_elem_of_here).
    cbn [mbind result_bind]. apply (pop_fold_missing _ _ fqn); [|done].
    by apply elem_of_elements.
  - assert ((exists d1, drop_frozen_step model sd (n, q) = Ok d1 /\ d1 !! fqn = None) \/
            drop_frozen_step model sd (n, q) = Raise KeyError) as [(d1 & -> & Hd1)| ->].
    { unfold drop_frozen_step. destruct (requires_grad q) eqn:Hq.
      - left. by exists sd.
      - rewrite (Hres n q) by (done || apply list_elem_of_here).
        cbn [mbind result_bind].
        destruct (pop_fold_outcome (elements (fqns_of n)) sd) as [(d' & -> & Hmono)| ->];
          [left|by right].
        exists d'. split; [done|]. by apply Hmono. }
    + cbn [mbind result_bind]. apply IH; try done.
      intros n' q' Hq'. apply Hres. by apply list_elem_of_further.
    + done.
Qed.

(** X22.  With [save_frozen_params] off, on a model whose native keys are
    already canonical, when a canonical name of a frozen parameter is not a
    key of the native dict, [_get_model_state_dict] raises [KeyError]: the
    filter takes every frozen parameter to be in the state dict. *)
Theorem extraction_frozen_missing_key N model info w state_dict
    (fqns_of : string -> gset string) name p fqn :
  patches_registered w ->
  nn_state_dict N (fsdp_context info) model = Ok state_dict ->
  save_frozen_params (info_options info) = false ->
  (forall key, key ∈ dom state_dict -> _get_fqns model key true = Ok {[ key ]}) ->
  (forall name p, (name, p) ∈ named_parameters model -> requires_grad p = false ->
     _get_fqns model name true = Ok (fqns_of name)) ->
  (name, p) ∈ named_parameters model -> requires_grad p = false ->
  fqn ∈ fqns_of name -> fqn ∉ dom state_dict ->
  _get_model_state_dict N model info w = Fail KeyError w.
Proof.
  intros Hreg Hnative Hfrozen Hkeys Hres Hin Hr Hf Hmissing.
  unfold _get_model_state_dict.
  rewrite state_dict_fn_native by done.
  cbn [call_native]. rewrite Hnative.
  rewrite (bind_eq _ _ w state_dict w) by done.
  rewrite canonical_keys_fixed.
  2: { intros k Hk. apply Hkeys. by apply elem_of_elements. }
  rewrite (bind_eq _ _ w state_dict w) by done.
  rewrite Hfrozen. cbn [negb].
  rewrite (drop_frozen_fold_missing model fqns_of _ name p fqn); try done.
  by apply not_elem_of_dom.
Qed.

Lemma extraction_frozen_missing_key_witness :
  _get_model_state_dict plain_two_partial plain_two
    (mkInfo trainable_only_options (fqn_param_mapping info_two) true false nullcontext [])
    fresh_world
  = Fail KeyError fresh_world.
Proof.
  apply (extraction_frozen_missing_key plain_two_partial plain_two
           (mkInfo trainable_only_options (fqn_param_mapping info_two) true false
              nullcontext [])
           fresh_world {[ "w" := Opaque 20 ]} (fun name => {[ name ]})
           "frozen" frozen0 "frozen").
  - intros obj api call Hc. discriminate Hc.
  - reflexivity.
  - reflexivity.
  - intros key Hk. rewrite dom_singleton_L in Hk. apply elem_of_singleton in Hk.
    by subst key.
  - intros name p Hin _. vm_compute in Hin.
    apply elem_of_cons in Hin as [[= -> ->]|Hin]; [done|].
    apply list_elem_of_singleton in Hin. by injection Hin as -> ->.
  - vm_compute. apply list_elem_of_further, list_elem_of_here.
  - reflexivity.
  - by apply elem_of_singleton.
  - rewrite dom_singleton_L. intros Hc. apply elem_of_singleton in Hc. discriminate.
Defined.

(** ** Loading with an empty model state dict *)

Lemma rekey_empty_raises N model l :
  (forall name p, (name, p) ∈ l ->
     exists fqn fqn_with_ddp_prefix,
       _get_fqns model name true = Ok {[ fqn ]} /\
       _get_fqns model name false = Ok {[ fqn_with_ddp_prefix ]}) ->
  (exists name p fqn fqn_with_ddp_prefix,
     (name, p) ∈ l /\
     _get_fqns model name true = Ok {[ fqn ]} /\
     _get_fqns model name false = Ok {[ fqn_with_ddp_prefix ]} /\
     fqn ≠ fqn_with_ddp_prefix) ->
  foldM (ddp_prefix_param_step N model) (∅ : gmap string Value) l = Raise KeyError.
Proof.
  induction l as [|[name p] l IH]; intros Hres (n & q & c & t & Hin & Hc & Ht & Hne).
  - by apply elem_of_nil in Hin.
  - cbn [foldM].
    destruct (Hres name p (list_elem_of_here _ _)) as (c0 & t0 & Hc0 & Ht0).
    rewrite (ddp_prefix_param_step_rename N model ∅ (name, p) c0 t0 Hc0 Ht0).
    unfold ddp_prefix_step, dict_pop.
    destruct (String.eqb_spec c0 t0) as [Heq|Hdiff].
    + cbn [mbind result_bind]. apply IH.
      * intros n' q' Hq'. apply (Hres n' q'). by apply list_elem_of_further.
      * apply elem_of_cons in Hin as [[= -> ->]|Hin].
        -- rewrite Hc in Hc0. rewrite Ht in Ht0.
           assert (({[ c ]} : gset string) = {[ c0 ]}) as Hc1 by congruence.
           assert (({[ t ]} : gset string) = {[ t0 ]}) as Ht1 by congruence.
           apply (inj singleton) in Hc1, Ht1. congruence.
        -- by exists n, q, c, t.
    + by rewrite lookup_empty.
Qed.

(** X23.  A load with [optim_only] and the default, empty
    [model_state_dict] passes the verification and still runs the loop of
    [_load_model_state_dict]: on a model where the canonical and the native
    name of some parameter differ, as under a replica wrapper, it raises
    [KeyError], before the native load and before any optimizer is looked
    at. *)
Theorem optim_only_load_raises_on_replica
    N model optims optim_state_dict model_only optim_only options info w :
  _verify_options model optims model_only optim_only options = Ok info ->
  _verify_state_dict ∅ optim_state_dict info = Ok () ->
  (forall name p, (name, p) ∈ named_parameters model ->
     exists fqn fqn_with_ddp_prefix,
       _get_fqns model name true = Ok {[ fqn ]} /\
       _get_fqns model name false = Ok {[ fqn_with_ddp_prefix ]}) ->
  (exists name p fqn fqn_with_ddp_prefix,
     (name, p) ∈ named_parameters model /\
     _get_fqns model name true = Ok {[ fqn ]} /\
     _get_fqns model name false = Ok {[ fqn_with_ddp_prefix ]} /\
     fqn ≠ fqn_with_ddp_prefix) ->
  distributed_load_state_dict N model optims ∅ optim_state_dict
    model_only optim_only options w
  = Fail KeyError w.
Proof.
  intros Hv Hok Hres Hdiff.
  unfold distributed_load_state_dict. rewrite Hv.
  rewrite (bind_eq _ _ w info w) by done. rewrite Hok.
  rewrite (bind_eq _ _ w () w) by done.
  unfold _load_model_state_dict. by rewrite (rekey_empty_raises N model _ Hres Hdiff).
Qed.

Lemma replica_with_buffer_names name p :
  (name, p) ∈ named_parameters replica_with_buffer ->
  name = "module.w" /\
  _get_fqns replica_with_buffer name true = Ok {[ "w" ]} /\
  _get_fqns replica_with_buffer name false = Ok {[ "module.w" ]}.
Proof.
  intros Hin. vm_compute in Hin. apply list_elem_of_singleton in Hin.
  injection Hin as -> ->. split; [done|]. split; vm_compute; reflexivity.
Qed.

Lemma replica_with_buffer_renamed :
  exists name p fqn fqn_with_ddp_prefix,
    (name, p) ∈ named_parameters replica_with_buffer /\
    _get_fqns replica_with_buffer name true = Ok {[ fqn ]} /\
    _get_fqns replica_with_buffer name false = Ok {[ fqn_with_ddp_prefix ]} /\
    fqn ≠ fqn_with_ddp_prefix.
Proof.
  exists "module.w", w0, "w", "module.w".
  split; [vm_compute; apply list_elem_of_here|].
  split; [vm_compute; reflexivity|]. split; [vm_compute; reflexivity|]. discriminate.
Qed.

Lemma optim_only_load_raises_on_replica_witness :
  distributed_load_state_dict strict_native replica_with_buffer [optim_w] ∅
    merged_osd false true None fresh_world
  = Fail KeyError fresh_world.
Proof.
  eapply (optim_only_load_raises_on_replica strict_native replica_with_buffer
            [optim_w] merged_osd false true None).
  - vm_compute. reflexivity.
  - vm_compute. reflexivity.
  - intros name p Hin. exists "w", "module.w".
    by destruct (replica_with_buffer_names name p Hin) as (_ & ? & ?).
  - apply replica_with_buffer_renamed.
Defined.

(** ** The lambdas of [patch_optimizer_state_dict] *)

Lemma optim_load_lambda_binds N model optims options state_dict w :
  call_distributed_load_state_dict N
    [("model", ArgModule model); ("optims", ArgOptims optims);
     ("optim_only", ArgBool true); ("options", ArgOptions options);
     ("optim_state_dict", ArgOptimStateDict state_dict)] w
  = distributed_load_state_dict N model optims ∅ state_dict false true options w.
Proof. reflexivity. Qed.

(** X24.  The [load_state_dict] that [patch_optimizer_state_dict] builds
    passes a keyword that [distributed_load_state_dict] has, so the call
    binds; but it leaves [model_state_dict] at its empty default, and on a
    model where the canonical and the native name of some parameter differ,
    as under a replica wrapper, it never returns: for every optimizer state
    dict and in every world it raises, with the world as it was. *)
Theorem patched_optimizer_load_never_returns_on_replica
    N model optims options state_dict w :
  (forall name p, (name, p) ∈ named_parameters model ->
     exists fqn fqn_with_ddp_prefix,
       _get_fqns model name true = Ok {[ fqn ]} /\
       _get_fqns model name false = Ok {[ fqn_with_ddp_prefix ]}) ->
  (exists name p fqn fqn_with_ddp_prefix,
     (name, p) ∈ named_parameters model /\
     _get_fqns model name true = Ok {[ fqn ]} /\
     _get_fqns model name false = Ok {[ fqn_with_ddp_prefix ]} /\
     fqn ≠ fqn_with_ddp_prefix) ->
  exists e, run_optim_load_state_dict_call N model optims options state_dict w
            = Fail e w.
Proof.
  intros Hres Hdiff. unfold run_optim_load_state_dict_call.
  unfold mbind at 1, M_bind at 1. rewrite optim_load_lambda_binds.
  unfold distributed_load_state_dict.
  destruct (_verify_options model optims false true options) as [info|e] eqn:Hv.
  - rewrite (bind_eq _ _ w info w) by done.
    destruct (_verify_state_dict ∅ state_dict info) as [[]|e] eqn:Hok.
    + rewrite (bind_eq _ _ w () w) by done.
      unfold _load_model_state_dict.
      rewrite (rekey_empty_raises N model _ Hres Hdiff).
      by exists KeyError.
    + by exists e.
  - by exists e.
Qed.

Lemma patched_optimizer_load_never_returns_on_replica_witness :
  exists e, run_optim_load_state_dict_call strict_native replica_with_buffer
              [optim_w] None merged_osd fresh_world
            = Fail e fresh_world.
Proof.
  apply (patched_optimizer_load_never_returns_on_replica strict_native
           replica_with_buffer [optim_w] None merged_osd fresh_world).
  - intros name p Hin. exists "w", "module.w".
    by destruct (replica_with_buffer_names name p Hin) as (_ & ? & ?).
  - apply replica_with_buffer_renamed.
Defined.

(** ** [_get_optim_state_dict] without sharding wrappers: from ids to names *)

Lemma pid_fold_inv (ps : list Param) : forall k (m0 : gmap nat nat) t i,
  foldl (fun m (entry : Param * nat) => <[tensor_id entry.1 := entry.2]> m) m0
        (zip ps (seq k (length ps))) !! t = Some i ->
  (exists j p, ps !! j = Some p /\ tensor_id p = t /\ i = k + j) \/ m0 !! t = Some i.
Proof.
  induction ps as [|p ps IH]; intros k m0 t i H; [by right|].
  cbn [length seq zip zip_with foldl fst snd] in H.
  apply IH in H as [(j & q & Hj & Hq & ->)|H].
  - left. exists (S j), q. split; [done|]. split; [done|]. lia.
  - destruct (decide (t = tensor_id p)) as [->|Hne].
    + rewrite lookup_insert_eq in H. injection H as <-.
      left. exists 0, p. split; [done|]. split; [done|]. lia.
    + rewrite lookup_insert_ne in H by done. by right.
Qed.

Lemma pid_fold_frame (ps : list Param) : forall k (m0 : gmap nat nat) t,
  t ∉ tensor_id <$> ps ->
  foldl (fun m (entry : Param * nat) => <[tensor_id entry.1 := entry.2]> m) m0
        (zip ps (seq k (length ps))) !! t = m0 !! t.
Proof.
  induction ps as [|p ps IH]; intros k m0 t Ht; [done|].
  cbn [length seq zip zip_with foldl fst snd]. cbn [fmap list_fmap] in Ht.
  apply not_elem_of_cons in Ht as [Hne Ht]. rewrite IH by done.
  by rewrite lookup_insert_ne.
Qed.

Lemma pid_fold_lookup (ps : list Param) : forall k (m0 : gmap nat nat) j p,
  NoDup (tensor_id <$> ps) -> ps !! j = Some p ->
  foldl (fun m (entry : Param * nat) => <[tensor_id entry.1 := entry.2]> m) m0
        (zip ps (seq k (length ps))) !! tensor_id p = Some (k + j).
Proof.
  induction ps as [|q ps IH]; intros k m0 j p Hnd Hj; [done|].
  cbn [fmap list_fmap] in Hnd. apply NoDup_cons in Hnd as [Hq Hnd].
  cbn [length seq zip zip_with foldl fst snd].
  destruct j as [|j]; cbn in Hj.
  - injection Hj as ->. rewrite pid_fold_frame by done.
    rewrite lookup_insert_eq. f_equal. lia.
  - rewrite (IH (S k) _ j p Hnd Hj). f_equal. lia.
Qed.

Lemma param_pid_mapping_inv optim t pid :
  param_pid_mapping_of optim !! t = Some pid ->
  exists p, all_params optim !! pid = Some p /\ tensor_id p = t.
Proof.
  unfold param_pid_mapping_of. intros H.
  apply pid_fold_inv in H as [(j & p & Hj & Hp & ->)|H]; [|done].
  by exists p.
Qed.

Lemma param_pid_mapping_lookup optim pid p :
  NoDup (tensor_id <$> all_params optim) ->
  all_params optim !! pid = Some p ->
  param_pid_mapping_of optim !! tensor_id p = Some pid.
Proof.
  intros Hnd Hp. unfold param_pid_mapping_of.
  by rewrite (pid_fold_lookup _ 0 ∅ pid p Hnd Hp).
Qed.

Lemma fqn_pid_step_cases (model : Module) (ppm : gmap nat nat)
    (m0 : gmap (nat + string) (nat + string)) (name : string) (p : Param)
    (fqn : string) :
  _get_fqns model name true = Ok {[ fqn ]} ->
  fqn_pid_step model ppm m0 (name, p)
  = Ok (match ppm !! tensor_id p with
        | None => m0
        | Some pid => <[inl pid := inr fqn]> (<[inr fqn := inl pid]> m0)
        end).
Proof.
  intros Hf. unfold fqn_pid_step. rewrite Hf. cbn [mbind result_bind].
  rewrite elements_singleton. by destruct (ppm !! tensor_id p).
Qed.

(** The names that the loop over [named_parameters] records for the
    positions: an entry [inl pid] comes from a parameter at that position. *)
Lemma fqn_pid_fold (model : Module) (ppm : gmap nat nat) (canonical : string -> string)
    (l : list (string * Param)) :
  forall m0 : gmap (nat + string) (nat + string),
  (forall name p, (name, p) ∈ l -> _get_fqns model name true = Ok {[ canonical name ]}) ->
  exists mapping,
    foldM (fqn_pid_step model ppm) m0 l = Ok mapping /\
    (forall pid v, mapping !! inl pid = Some v ->
       m0 !! inl pid = Some v \/
       exists name p, (name, p) ∈ l /\ ppm !! tensor_id p = Some pid /\
                      v = inr (canonical name)) /\
    (forall pid, (forall name p, (name, p) ∈ l -> ppm !! tensor_id p ≠ Some pid) ->
       mapping !! inl pid = m0 !! inl pid).
Proof.
  induction l as [|[name p] l IH]; intros m0 Hres.
  - exists m0. split; [done|]. split; [by left|done].
  - cbn [foldM].
    rewrite (fqn_pid_step_cases model ppm m0 name p (canonical name))
      by (apply (Hres name p), list_elem_of_here).
    cbn [mbind result_bind].
    destruct (IH (match ppm !! tensor_id p with
                  | None => m0
                  | Some pid => <[inl pid := inr (canonical name)]>
                                  (<[inr (canonical name) := inl pid]> m0)
                  end)) as (mapping & Hfold & Hinv & Hframe).
    { intros n q Hq. apply (Hres n q). by apply list_elem_of_further. }
    exists mapping. split; [done|]. split.
    + intros pid v Hv. apply Hinv in Hv as [Hv|(n & q & Hq & Hpid & ->)].
      * destruct (ppm !! tensor_id p) as [pid'|] eqn:Hp; [|by left].
        destruct (decide (pid = pid')) as [->|Hne].
        -- rewrite lookup_insert_eq in Hv. injection Hv as <-.
           right. exists name, p. split; [apply list_elem_of_here|done].
        -- rewrite lookup_insert_ne in Hv by congruence.
           rewrite lookup_insert_ne in Hv by done. by left.
      * right. exists n, q. split; [by apply list_elem_of_further|done].
    + intros pid Hnone. rewrite Hframe.
      * destruct (ppm !! tensor_id p) as [pid'|] eqn:Hp; [|done].
        rewrite lookup_insert_ne.
        -- by rewrite lookup_insert_ne.
        -- intros [= ->]. by apply (Hnone name p (list_elem_of_here _ _)).
      * intros n q Hq. apply (Hnone n q). by apply list_elem_of_further.
Qed.

Lemma fqn_pid_fold_lookup (model : Module) (ppm : gmap nat nat)
    (canonical : string -> string) (l : list (string * Param)) :
  forall (m0 : gmap (nat + string) (nat + string)) mapping name p pid,
  (forall name p, (name, p) ∈ l -> _get_fqns model name true = Ok {[ canonical name ]}) ->
  NoDup ((fun e : string * Param => tensor_id e.2) <$> l) ->
  (forall t t' i, ppm !! t = Some i -> ppm !! t' = Some i -> t = t') ->
  foldM (fqn_pid_step model ppm) m0 l = Ok mapping ->
  (name, p) ∈ l -> ppm !! tensor_id p = Some pid ->
  mapping !! inl pid = Some (inr (canonical name)).
Proof.
  induction l as [|[n q] l IH]; intros m0 mapping name p pid Hres Hnd Hinj Hfold Hin Hp;
    [by apply elem_of_nil in Hin|].
  cbn [fmap list_fmap snd] in Hnd. apply NoDup_cons in Hnd as [Hq Hnd].
  cbn [foldM] in Hfold.
  rewrite (fqn_pid_step_cases model ppm m0 n q (canonical n))
    in Hfold by (apply (Hres n q), list_elem_of_here).
  cbn [mbind result_bind] in Hfold.
  apply elem_of_cons in Hin as [[= <- <-]|Hin].
  - destruct (fqn_pid_fold model ppm canonical l
                (match ppm !! tensor_id p with
                 | None => m0
                 | Some pid => <[inl pid := inr (canonical name)]>
                                 (<[inr (canonical name) := inl pid]> m0)
                 end)) as (mapping' & Hfold' & _ & Hframe).
    { intros n' q' Hq'. apply (Hres n' q'). by apply list_elem_of_further. }
    rewrite Hfold in Hfold'. injection Hfold' as <-.
    rewrite Hframe.
    + rewrite Hp. apply lookup_insert_eq.
    + intros n' q' Hq' Hc. apply Hq.
      rewrite (Hinj _ _ _ Hp Hc). apply list_elem_of_fmap. by exists (n', q').
  - eapply IH; try done. intros n' q' Hq'. apply (Hres n' q').
    by apply list_elem_of_further.
Qed.

Lemma state_key_step (mapping : gmap (nat + string) (nat + string))
    (d : gmap (nat + string) Value) (key fqn : nat + string) v :
  mapping !! key = Some fqn -> d !! key = Some v ->
  (fqn ← dict_get key mapping; popped ← dict_pop key d; Ok (<[fqn := popped.1]> popped.2))
  = Ok (<[fqn := v]> (delete key d)).
Proof. intros Hm Hd. unfold dict_get, dict_pop. by rewrite Hm, Hd. Qed.

Lemma state_key_step_raise (mapping : gmap (nat + string) (nat + string))
    (d : gmap (nat + string) Value) (key : nat + string) e :
  (fqn ← dict_get key mapping; popped ← dict_pop key d; Ok (<[fqn := popped.1]> popped.2))
  = Raise e -> e = KeyError.
Proof.
  unfold dict_get, dict_pop. destruct (mapping !! key); cbn [mbind result_bind];
    [|by intros [= <-]].
  destruct (d !! key); cbn [mbind result_bind]; [done|by intros [= <-]].
Qed.

Lemma state_key_step_inv (mapping : gmap (nat + string) (nat + string))
    (d : gmap (nat + string) Value) (key : nat + string) d' :
  (fqn ← dict_get key mapping; popped ← dict_pop key d; Ok (<[fqn := popped.1]> popped.2))
  = Ok d' -> is_Some (mapping !! key).
Proof. unfold dict_get. by destruct (mapping !! key). Qed.

Lemma state_rename_fold (mapping : gmap (nat + string) (nat + string))
    (fqn_of : nat -> string) (keys : list (nat + string)) :
  forall d : gmap (nat + string) Value,
  NoDup keys ->
  (forall key, key ∈ keys ->
     exists pid, key = inl pid /\ mapping !! key = Some (inr (fqn_of pid)) /\
                 is_Some (d !! key)) ->
  (forall pid pid', inl pid ∈ keys -> inl pid' ∈ keys ->
     fqn_of pid = fqn_of pid' -> pid = pid') ->
  exists d',
    foldM (fun d key =>
             fqn ← dict_get key mapping;
             popped ← dict_pop key d;
             Ok (<[fqn := popped.1]> popped.2)) d keys = Ok d' /\
    (forall pid, inl pid ∈ keys -> d' !! inr (fqn_of pid) = d !! inl pid) /\
    (forall key, (forall pid, inl pid ∈ keys -> key ≠ inr (fqn_of pid)) ->
       d' !! key = if bool_decide (key ∈ keys) then None else d !! key).
Proof.
  induction keys as [|key keys IH]; intros d Hnd Hkeys Hinj.
  - exists d. split; [done|]. split; [by intros pid ?%elem_of_nil|done].
  - apply NoDup_cons in Hnd as [Hkey Hnd].
    destruct (Hkeys key (list_elem_of_here _ _)) as (pid & -> & Hm & [v Hv]).
    cbn [foldM]. rewrite (state_key_step mapping d _ _ v Hm Hv).
    cbn [mbind result_bind].
    assert (forall k, k ≠ inl pid -> k ≠ inr (fqn_of pid) ->
              (<[inr (fqn_of pid) := v]> (delete (inl pid) d)) !! k = d !! k) as Hother.
    { intros k H1 H2. rewrite lookup_insert_ne by done. by rewrite lookup_delete_ne. }
    assert (forall s, (inr s : nat + string) ∉ keys) as Hinr.
    { intros s Hs. destruct (Hkeys (inr s)) as (pid' & Hc & _); [|done].
      by apply list_elem_of_further. }
    destruct (IH (<[inr (fqn_of pid) := v]> (delete (inl pid) d)) Hnd)
      as (d' & Hfold & Hto & Hrest).
    { intros k Hk. destruct (Hkeys k (list_elem_of_further _ _ _ Hk))
        as (pid' & -> & Hm' & Hsome).
      exists pid'. split; [done|]. split; [done|]. rewrite Hother; [done| |done].
      intros [= ->]. done. }
    { intros p1 p2 H1 H2. apply Hinj; by apply list_elem_of_further. }
    assert (forall pid', inl pid' ∈ keys -> fqn_of pid' ≠ fqn_of pid) as Hfresh.
    { intros pid' Hin Heq. apply Hkey.
      rewrite <- (Hinj pid' pid); [done|by apply list_elem_of_further
                                   |apply list_elem_of_here|done]. }
    exists d'. split; [done|]. split.
    + intros pid' [[= ->]|Hin]%elem_of_cons.
      * rewrite Hrest.
        -- rewrite bool_decide_eq_false_2 by apply Hinr.
           by rewrite lookup_insert_eq.
        -- intros pid' Hin [= Heq]. by apply (Hfresh pid' Hin).
      * rewrite (Hto pid' Hin). apply Hother; [|done]. intros [= ->]. done.
    + intros k Hk. rewrite Hrest.
      2: { intros pid' Hin. apply Hk. by apply list_elem_of_further. }
      case_bool_decide as H1.
      * rewrite bool_decide_eq_true_2; [done|]. by apply list_elem_of_further.
      * destruct (decide (k = inl pid)) as [->|Hne].
        -- rewrite bool_decide_eq_true_2 by apply list_elem_of_here.
           rewrite lookup_insert_ne by done. apply lookup_delete_eq.
        -- rewrite bool_decide_eq_false_2.
           ++ apply Hother; [done|]. apply Hk, list_elem_of_here.
           ++ intros [?|?]%elem_of_cons; done.
Qed.

Lemma group_params_named (mapping : gmap (nat + string) (nat + string))
    (fqn_of : nat -> string) (l : list (nat + string)) :
  (forall key, key ∈ l ->
     exists pid, key = inl pid /\ mapping !! key = Some (inr (fqn_of pid))) ->
  mapM (fun pid => dict_get pid mapping) l
  = Ok ((fun key : nat + string =>
           match key with inl pid => inr (fqn_of pid) | inr fqn => inr fqn end) <$> l).
Proof.
  induction l as [|key l IH]; intros H; [done|].
  cbn [mapM fmap list_fmap].
  destruct (H key (list_elem_of_here _ _)) as (pid & -> & Hm).
  assert (dict_get (inl pid) mapping = Ok (inr (fqn_of pid))) as ->.
  { unfold dict_get. by rewrite Hm. }
  cbn [mbind result_bind].
  rewrite IH; [done|]. intros k Hk. apply H. by apply list_elem_of_further.
Qed.

Lemma groups_named (mapping : gmap (nat + string) (nat + string))
    (fqn_of : nat -> string) (groups : list OsdGroup) :
  (forall group key, group ∈ groups -> key ∈ group_params group ->
     exists pid, key = inl pid /\ mapping !! key = Some (inr (fqn_of pid))) ->
  mapM (fun group =>
          ps ← mapM (fun pid => dict_get pid mapping) (group_params group);
          Ok (mkOsdGroup (group_id group) ps (group_hyper group))) groups
  = Ok (named_group fqn_of <$> groups).
Proof.
  induction groups as [|group groups IH]; intros H; [done|].
  cbn [mapM fmap list_fmap].
  rewrite (group_params_named mapping fqn_of).
  2: { intros key Hk. apply (H group key); [apply list_elem_of_here|done]. }
  cbn [mbind result_bind]. rewrite IH; [done|].
  intros g k Hg Hk. apply (H g k); [by apply list_elem_of_further|done].
Qed.

Lemma param_pid_mapping_inj optim t t' pid :
  param_pid_mapping_of optim !! t = Some pid ->
  param_pid_mapping_of optim !! t' = Some pid -> t = t'.
Proof.
  intros (p & Hp & <-)%param_pid_mapping_inv (p' & Hp' & <-)%param_pid_mapping_inv.
  congruence.
Qed.

(** X25.  Without sharding wrappers, for an optimizer whose parameters are
    distinct parameters of the model with distinct canonical names, and a
    native optimizer state dict keyed by positions in the optimizer's
    parameter list, the conversion of [_get_optim_state_dict] returns the
    state of every position under the canonical name of the parameter at
    that position and nothing else, and in every group the names of its
    positions, in their order. *)
Theorem ids_to_fqns_names_positions model optim osd state groups
    (canonical : string -> string) (fqn_of : nat -> string) :
  (forall name p, (name, p) ∈ named_parameters model ->
     _get_fqns model name true = Ok {[ canonical name ]}) ->
  NoDup (tensor_id <$> all_params optim) ->
  (forall pid p, all_params optim !! pid = Some p ->
     exists name p', (name, p') ∈ named_parameters model /\
                     tensor_id p' = tensor_id p /\ canonical name = fqn_of pid) ->
  (forall pid pid', pid < length (all_params optim) -> pid' < length (all_params optim) ->
     fqn_of pid = fqn_of pid' -> pid = pid') ->
  osd_state osd = Some state ->
  (forall key, key ∈ dom state ->
     exists pid, key = inl pid /\ pid < length (all_params optim)) ->
  osd_param_groups osd = Some groups ->
  (forall group key, group ∈ groups -> key ∈ group_params group ->
     exists pid, key = inl pid /\ pid < length (all_params optim)) ->
  exists state',
    ids_to_fqns model optim osd
    = Ok (mkOsd (Some state') (Some (named_group fqn_of <$> groups))) /\
    (forall pid, pid < length (all_params optim) ->
       state' !! inr (fqn_of pid) = state !! inl pid) /\
    (forall key, is_Some (state' !! key) ->
       exists pid, pid < length (all_params optim) /\ key = inr (fqn_of pid)).
Proof.
  intros Hres Hnd Hparam Hinj Hs Hkeys Hg Hgk.
  destruct (fqn_pid_fold model (param_pid_mapping_of optim) canonical
              (named_parameters model) ∅ Hres) as (mapping & Hfold & _ & _).
  assert (forall pid, pid < length (all_params optim) ->
            mapping !! inl pid = Some (inr (fqn_of pid))) as Hmap.
  { intros pid Hlt. apply lookup_lt_is_Some in Hlt as [p Hp].
    destruct (Hparam pid p Hp) as (name & p' & Hin & Hid & <-).
    apply (fqn_pid_fold_lookup model (param_pid_mapping_of optim) canonical
             (named_parameters model) ∅ mapping name p' pid); try done.
    - by destruct (remove_duplicate_spec ∅ (_named_members (fun ps _ => ps) "" model)).
    - apply param_pid_mapping_inj.
    - rewrite Hid. by apply param_pid_mapping_lookup. }
  destruct (state_rename_fold mapping fqn_of (elements (dom state)) state)
    as (state' & Hstate & Hto & Hrest).
  { apply NoDup_elements. }
  { intros key Hk. apply elem_of_elements in Hk.
    destruct (Hkeys key Hk) as (pid & -> & Hlt). exists pid.
    split; [done|]. split; [by apply Hmap|]. by apply elem_of_dom. }
  { intros pid pid' Hin Hin'. apply elem_of_elements in Hin, Hin'.
    destruct (Hkeys _ Hin) as (? & [= <-] & Hlt).
    destruct (Hkeys _ Hin') as (? & [= <-] & Hlt'). by apply Hinj. }
  assert (forall s, state !! (inr s : nat + string) = None) as Hinr.
  { intros s. apply not_elem_of_dom. intros Hc.
    by destruct (Hkeys _ Hc) as (? & ? & _). }
  exists state'. split; [|split].
  - unfold ids_to_fqns. rewrite Hfold. cbn [mbind result_bind].
    unfold get_state, get_param_groups. rewrite Hs, Hg. cbn [mbind result_bind].
    rewrite Hstate. cbn [mbind result_bind].
    rewrite (groups_named mapping fqn_of); [done|].
    intros group key Hgroup Hk. destruct (Hgk group key Hgroup Hk) as (pid & -> & Hlt).
    exists pid. split; [done|by apply Hmap].
  - intros pid Hlt. destruct (decide (inl pid ∈ elements (dom state))) as [Hin|Hnin].
    + by apply Hto.
    + rewrite Hrest.
      * rewrite bool_decide_eq_false_2.
        -- rewrite Hinr. symmetry. apply not_elem_of_dom.
           intros Hc. apply Hnin. by apply elem_of_elements.
        -- intros Hc. apply elem_of_elements in Hc.
           by destruct (Hkeys _ Hc) as (? & ? & _).
      * intros pid' Hin [= Heq]. apply Hnin.
        apply elem_of_elements in Hin. destruct (Hkeys _ Hin) as (? & [= <-] & Hlt').
        rewrite (Hinj pid pid' Hlt Hlt' Heq). by apply elem_of_elements.
  - intros key Hsome.
    set (target := fun k : nat + string =>
                     match k return nat + string with
                     | inl pid => inr (fqn_of pid)
                     | inr s => inr s
                     end).
    destruct (decide (key ∈ target <$> elements (dom state))) as [Hin|Hnot].
    + apply list_elem_of_fmap in Hin as (k & -> & Hin).
      apply elem_of_elements in Hin. destruct (Hkeys _ Hin) as (pid & -> & Hlt).
      by exists pid.
    + exfalso. rewrite Hrest in Hsome.
      * case_bool_decide as Hk; [by destruct Hsome|].
        destruct Hsome as [v Hv]. apply Hk. apply elem_of_elements.
        apply elem_of_dom. by exists v.
      * intros pid Hin ->. apply Hnot. apply list_elem_of_fmap. by exists (inl pid).
Qed.

Lemma plain_two_names name p :
  (name, p) ∈ named_parameters plain_two ->
  (name = "w" /\ p = w0) \/ (name = "frozen" /\ p = frozen0).
Proof.
  intros Hin. vm_compute in Hin.
  apply elem_of_cons in Hin as [[= -> ->]|Hin]; [by left|].
  apply list_elem_of_singleton in Hin. injection Hin as -> ->. by right.
Qed.

Lemma plain_two_resolves name p :
  (name, p) ∈ named_parameters plain_two ->
  _get_fqns plain_two name true = Ok {[ name ]}.
Proof. by intros [[-> _]|[-> _]]%plain_two_names. Qed.

Lemma native_osd_two_keys (key : nat + string) :
  key = inl 0 \/ key = inl 1 -> exists pid, key = inl pid /\ pid < 2.
Proof. intros [->| ->]; [exists 0|exists 1]; split; (done || lia). Qed.

Lemma ids_to_fqns_names_positions_witness :
  exists state',
    ids_to_fqns plain_two optim_two native_osd_two
    = Ok (mkOsd (Some state')
            (Some (named_group fqn_of_two <$> [mkOsdGroup 0 [inl 0; inl 1] 0]))) /\
    (forall pid, pid < length (all_params optim_two) ->
       state' !! inr (fqn_of_two pid)
       = ({[ inl 0 := Opaque 30; inl 1 := Opaque 31 ]} : gmap (nat + string) Value)
           !! inl pid) /\
    (forall key, is_Some (state' !! key) ->
       exists pid, pid < length (all_params optim_two) /\ key = inr (fqn_of_two pid)).
Proof.
  apply (ids_to_fqns_names_positions plain_two optim_two native_osd_two
           {[ inl 0 := Opaque 30; inl 1 := Opaque 31 ]}
           [mkOsdGroup 0 [inl 0; inl 1] 0] (fun name => name) fqn_of_two).
  - apply plain_two_resolves.
  - cbn. repeat (apply NoDup_cons_2; [set_solver|]). apply NoDup_nil_2.
  - intros [|[|pid]] p Hp; cbn in Hp; [| |done]; injection Hp as <-.
    + exists "w", w0. split; [|done]. vm_compute. apply list_elem_of_here.
    + exists "frozen", frozen0. split; [|done].
      vm_compute. apply list_elem_of_further, list_elem_of_here.
  - cbn. intros [|[|pid]] [|[|pid']] H1 H2 Heq; try done; lia.
  - reflexivity.
  - intros key Hk. apply native_osd_two_keys.
    rewrite dom_insert_L, dom_singleton_L in Hk.
    apply elem_of_union in Hk as [Hk|Hk]; apply elem_of_singleton in Hk; auto.
  - reflexivity.
  - intros group key Hg Hk. apply list_elem_of_singleton in Hg. subst group.
    apply native_osd_two_keys. cbn in Hk.
    apply elem_of_cons in Hk as [->|Hk]; [by left|].
    apply list_elem_of_singleton in Hk. by right.
Defined.

(** X26.  Without sharding wrappers, when the native optimizer state dict
    has state at the position of a parameter that is no parameter of the
    model, the conversion of [_get_optim_state_dict] raises [KeyError]:
    that position has no name. *)
Theorem ids_to_fqns_foreign_parameter model optim osd state
    (canonical : string -> string) pid p :
  (forall name p, (name, p) ∈ named_parameters model ->
     _get_fqns model name true = Ok {[ canonical name ]}) ->
  all_params optim !! pid = Some p ->
  (forall name p', (name, p') ∈ named_parameters model -> tensor_id p' ≠ tensor_id p) ->
  osd_state osd = Some state ->
  is_Some (state !! inl pid) ->
  ids_to_fqns model optim osd = Raise KeyError.
Proof.
  intros Hres Hp Hforeign Hs Hsome.
  destruct (fqn_pid_fold model (param_pid_mapping_of optim) canonical
              (named_parameters model) ∅ Hres) as (mapping & Hfold & Hinv & _).
  assert (mapping !! inl pid = None) as Hnone.
  { destruct (mapping !! inl pid) as [v|] eqn:Hv; [|done]. exfalso.
    apply Hinv in Hv as [Hv|(name & p' & Hin & Hpid & _)]; [done|].
    apply param_pid_mapping_inv in Hpid as (p'' & Hp'' & Hid).
    rewrite Hp in Hp''. injection Hp'' as <-. by apply (Hforeign name p' Hin). }
  unfold ids_to_fqns. rewrite Hfold. cbn [mbind result_bind].
  unfold get_state. rewrite Hs. cbn [mbind result_bind].
  destruct (foldM _ state (elements (dom state))) as [state'|e] eqn:Hstate.
  - exfalso.
    destruct (foldM_ok_each _ _ _ _ (inl pid) Hstate) as (d0 & d1 & Hstep).
    { apply elem_of_elements. by apply elem_of_dom. }
    apply state_key_step_inv in Hstep as [v Hv]. congruence.
  - cbn [mbind result_bind]. f_equal. revert Hstate.
    apply (foldM_raise _ (fun e => e = KeyError)).
    intros d key e0 _. apply state_key_step_raise.
Qed.

Lemma ids_to_fqns_foreign_parameter_witness :
  ids_to_fqns plain_two optim_foreign native_osd_two = Raise KeyError.
Proof.
  apply (ids_to_fqns_foreign_parameter plain_two optim_foreign native_osd_two
           {[ inl 0 := Opaque 30; inl 1 := Opaque 31 ]} (fun name => name) 1 b0).
  - apply plain_two_resolves.
  - reflexivity.
  - by intros name p' [[_ ->]|[_ ->]]%plain_two_names.
  - reflexivity.
  - exists (Opaque 31). reflexivity.
Defined.

(** ** Extraction with an optimizer that has state, without wrappers *)

Lemma unwrapped_index model options :
  unwrapped model ->
  use_dtensor options = true ->
  exists mapping, build_fqn_param_mapping model options = Ok mapping.
Proof.
  intros Hu Hdt. apply foldM_index_total. intros name p Hin. split; [|done].
  exists {[ name ]}. by apply (named_parameters_resolve _ _ p).
Qed.

Lemma unwrapped_get_model_state_dict N model info w state_dict :
  unwrapped model ->
  fsdp_context info = nullcontext ->
  save_frozen_params (info_options info) = true ->
  patches_registered w ->
  nn_state_dict N nullcontext model = Ok state_dict ->
  (forall k, k ∈ dom state_dict -> k ∈ state_dict_names model) ->
  _get_model_state_dict N model info w = Done state_dict w.
Proof.
  intros Hu Hctx Hfrozen Hreg Hnative Hkeys. unfold _get_model_state_dict.
  rewrite state_dict_fn_native by done.
  cbn [call_native]. rewrite Hctx, Hnative.
  rewrite (bind_eq _ _ w state_dict w) by done.
  rewrite canonical_keys_fixed.
  2: { intros k Hk. apply state_dict_names_resolve; [done|].
       apply Hkeys. by apply elem_of_elements. }
  rewrite (bind_eq _ _ w state_dict w) by done.
  by rewrite Hfrozen.
Qed.

Lemma initialized_get_optim_step N model info acc optim w osd named state groups :
  fsdp_modules info = [] ->
  patches_registered w ->
  default ∅ (optim_states w !! oid optim) ≠ ∅ ->
  optim_state_dict N optim w = Ok osd ->
  ids_to_fqns model optim osd = Ok named ->
  osd_state named = Some state -> osd_param_groups named = Some groups ->
  get_optim_step N model info acc optim w = Done (state ∪ acc.1, acc.2 ++ groups) w.
Proof.
  intros Hnil Hreg Hst Hosd Hnamed Hs Hg. unfold get_optim_step.
  rewrite (bind_eq _ _ _ _ _ (init_optim_state_initialized N optim w Hst)).
  rewrite state_dict_fn_native by done.
  cbn [call_native]. rewrite (bind_eq _ _ w osd w) by (by rewrite Hosd).
  rewrite Hnil. cbn [nonempty]. rewrite Hnamed.
  rewrite (bind_eq _ _ w named w) by done.
  unfold get_state, get_param_groups. rewrite Hs, Hg.
  rewrite (bind_eq _ _ w state w) by done.
  by rewrite (bind_eq _ _ w groups w) by done.
Qed.

(** X27.  For a model without wrappers and one optimizer that already has
    state, [distributed_state_dict] makes no optimizer step and changes
    nothing: it returns the native state dict of the model and the native
    state dict of the optimizer as the conversion from ids to names gives
    it; with [optim_only] too, the model's dict is returned, not an empty
    one.  The [state_dict] that [patch_optimizer_state_dict] builds returns
    the optimizer's part. *)
Theorem unwrapped_extraction_with_optimizer
    N model optim optim_only options w state_dict osd state groups :
  unwrapped model ->
  use_dtensor (default default_options options) = true ->
  save_frozen_params (default default_options options) = true ->
  patches_registered w ->
  nn_state_dict N nullcontext model = Ok state_dict ->
  state_dict ≠ ∅ ->
  (forall k, k ∈ dom state_dict ->
     k ∈ state_dict_names model /\ PyStr.contains FLAT_PARAM k = false) ->
  default ∅ (optim_states w !! oid optim) ≠ ∅ ->
  optim_state_dict N optim w = Ok osd ->
  ids_to_fqns model optim osd = Ok (mkOsd (Some state) (Some groups)) ->
  state ≠ ∅ ->
  distributed_state_dict N model [optim] false optim_only options w
  = Done (state_dict, mkOsd (Some state) (Some groups)) w /\
  run_optim_state_dict_call N model [optim] options w
  = Done (mkOsd (Some state) (Some groups)) w.
Proof.
  intros Hu Hdt Hfrozen Hreg Hnative Hne Hkeys Hst Hosd Hnamed Hstate.
  destruct (unwrapped_index model (default default_options options) Hu Hdt)
    as [mapping Hmapping].
  pose proof (fsdp_modules_of_unwrapped model Hu) as Hnil.
  assert (forall optim_only,
            distributed_state_dict N model [optim] false optim_only options w
            = Done (state_dict, mkOsd (Some state) (Some groups)) w) as Hcall.
  { clear optim_only. intros optim_only.
    set (info := mkInfo (default default_options options) mapping
                   (false || negb optim_only) (optim_only || (negb false && true))
                   nullcontext []).
    assert (_verify_options model [optim] false optim_only options = Ok info) as Hv.
    { erewrite verify_options_stages; [|exact Hmapping|by rewrite Hnil].
      rewrite Hnil. by destruct optim_only. }
    unfold distributed_state_dict. rewrite Hv.
    rewrite (bind_eq _ _ w info w) by done.
    rewrite (bind_eq _ _ _ _ _
               (unwrapped_get_model_state_dict N model info w state_dict
                  Hu eq_refl Hfrozen Hreg Hnative (fun k Hk => proj1 (Hkeys k Hk)))).
    assert (_get_optim_state_dict N model [optim] info w
            = Done (mkOsd (Some state) (Some groups)) w) as Hoptim.
    { unfold _get_optim_state_dict.
      assert (foldM_M (get_optim_step N model info) (∅, []) [optim] w
              = Done (state ∪ ∅, [] ++ groups) w) as Hfold.
      { cbn [foldM_M].
        by rewrite (bind_eq _ _ _ _ _
                      (initialized_get_optim_step N model info (∅, []) optim w osd
                         (mkOsd (Some state) (Some groups)) state groups
                         eq_refl Hreg Hst Hosd Hnamed eq_refl eq_refl)). }
      rewrite (bind_eq _ _ _ _ _ Hfold). cbn [fst snd app].
      by rewrite (right_id_L ∅ (∪)). }
    rewrite (bind_eq _ _ _ _ _ Hoptim).
    assert (_verify_state_dict state_dict (mkOsd (Some state) (Some groups)) info
            = Ok ()) as ->; [|done].
    unfold _verify_state_dict.
    cbn [info fsdp_modules find_fsdp_root mbind result_bind nonempty andb handle_model
         handle_optim].
    unfold map_is_empty at 1. rewrite bool_decide_eq_false_2 by done.
    rewrite andb_false_r. destruct optim_only; cbn [orb negb andb].
    - cbn [osd_is_empty osd_state get_state mbind result_bind].
      unfold map_is_empty. rewrite bool_decide_eq_false_2 by done.
      rewrite (proj2 (no_marker_in_keys state_dict)); [done|].
      intros key Hk. by apply Hkeys.
    - cbn [osd_is_empty osd_state get_state mbind result_bind].
      unfold map_is_empty. rewrite bool_decide_eq_false_2 by done.
      rewrite (proj2 (no_marker_in_keys state_dict)); [done|].
      intros key Hk. by apply Hkeys. }
  split; [apply Hcall|].
  unfold run_optim_state_dict_call.
  by rewrite (bind_eq _ _ _ _ _ (Hcall true)).
Qed.

Lemma unwrapped_extraction_with_optimizer_witness :
  distributed_state_dict plain_two_stepped plain_two [optim_two] false true None
    stepped_world
  = Done (canonical_two_sd, named_osd_two) stepped_world /\
  run_optim_state_dict_call plain_two_stepped plain_two [optim_two] None stepped_world
  = Done named_osd_two stepped_world.
Proof.
  apply (unwrapped_extraction_with_optimizer plain_two_stepped plain_two optim_two
           true None stepped_world canonical_two_sd native_osd_two
           {[ inr "w" := Opaque 30; inr "frozen" := Opaque 31 ]}
           [mkOsdGroup 0 [inr "w"; inr "frozen"] 0]).
  - apply plain_two_unwrapped.
  - reflexivity.
  - reflexivity.
  - intros obj api call Hc. discriminate Hc.
  - reflexivity.
  - apply insert_non_empty.
  - apply canonical_two_sd_unmarked.
  - vm_compute. discriminate.
  - reflexivity.
  - vm_compute. reflexivity.
  - apply insert_non_empty.
Defined.

(** ** What the load hands to an optimizer *)

Lemma load_optim_step_run N model osd info optim split handed w w1 :
  _split_optim_state_dict model optim osd info = Ok split ->
  (if nonempty (fsdp_modules info)
   then FSDP_optim_state_dict_to_load N (fsdp_context info) model optim split
   else Ok split) = Ok handed ->
  _init_optim_state N optim w = Done () w1 ->
  unpatched (the_optimizer (oid optim)) "load_state_dict" w1 ->
  load_optim_step N model osd info optim w
  = match optim_load_state_dict N optim handed w1 with
    | Ok loaded =>
        Done () (set_optim_state (oid optim) loaded
                   (emit (EvOptimLoadStateDict (oid optim) handed) w1))
    | Raise e => Fail e w1
    end.
Proof.
  intros Hsplit Hhanded Hinit Hun. unfold load_optim_step. rewrite Hsplit.
  rewrite (bind_eq _ _ w split w) by done.
  rewrite Hhanded.
  rewrite (bind_eq _ _ w handed w) by done.
  rewrite (bind_eq _ _ _ _ _ Hinit).
  rewrite (bind_eq _ _ _ _ _ (state_dict_fn_unpatched _ _ _ Hun)).
  reflexivity.
Qed.

(** C9.  When the merged dict has a state entry for every canonical name
    of the trainable parameters of the first optimizer, its split succeeds:
    the state of the split holds the merged entries of exactly those names,
    so nothing is pulled for a name that only frozen or foreign parameters
    have, and its groups are the merged groups that name a trainable
    parameter, in their order.  [_load_optim_state_dict] hands that split
    to the optimizer (through the conversion of the sharding wrapper, where
    the model has one): after the state of the optimizer is initialised,
    its native [load_state_dict], where it is not patched, is called once
    with it, the optimizer is left with what that call gives, and the loop
    goes on with the other optimizers, or stops with the error of the
    call. *)
Theorem split_pulls_trainable_only N model optim optims osd info state groups :
  osd_state osd = Some state ->
  osd_param_groups osd = Some groups ->
  (forall g p, g ∈ param_groups optim -> p ∈ params g -> requires_grad p = true ->
     is_Some (by_param (fqn_param_mapping info) !! tensor_id p)) ->
  (forall fqn, trainable_fqn optim info fqn -> is_Some (state !! inr fqn)) ->
  (forall g g', g ∈ groups -> g' ∈ groups -> group_id g = group_id g' -> g = g') ->
  exists (st : gmap (nat + string) Value) (ids : gset nat),
    let split := mkOsd (Some st) (Some (filter (fun g => group_id g ∈ ids) groups)) in
    _split_optim_state_dict model optim osd info = Ok split /\
    (forall k v, st !! k = Some v <->
       exists fqn, k = inr fqn /\ trainable_fqn optim info fqn /\ state !! k = Some v) /\
    (forall g, g ∈ groups -> group_id g ∈ ids <-> mentions_trainable optim info g) /\
    (forall w w1 handed,
       (if nonempty (fsdp_modules info)
        then FSDP_optim_state_dict_to_load N (fsdp_context info) model optim split
        else Ok split) = Ok handed ->
       _init_optim_state N optim w = Done () w1 ->
       unpatched (the_optimizer (oid optim)) "load_state_dict" w1 ->
       _load_optim_state_dict N model (optim :: optims) osd info w
       = match optim_load_state_dict N optim handed w1 with
         | Ok loaded =>
             _load_optim_state_dict N model optims osd info
               (set_optim_state (oid optim) loaded
                  (emit (EvOptimLoadStateDict (oid optim) handed) w1))
         | Raise e => Fail e w1
         end).
Proof.
  intros Hs Hg Hidx Hst Hid.
  destruct (split_pulls model optim osd info state groups Hs Hg Hidx Hst Hid)
    as (st & ids & Hsplit & Hstate & Hgroups).
  exists st, ids. cbv zeta. split; [done|]. split; [done|]. split; [done|].
  intros w w1 handed Hhanded Hinit Hun.
  unfold _load_optim_state_dict. cbn [forM_].
  unfold mbind at 1, M_bind at 1.
  rewrite (load_optim_step_run N model osd info optim _ handed w w1 Hsplit Hhanded
             Hinit Hun).
  by destruct (optim_load_state_dict N optim handed w1).
Qed.

Lemma split_pulls_trainable_only_witness :
  exists (st : gmap (nat + string) Value) (ids : gset nat),
    let split :=
      mkOsd (Some st)
        (Some (filter (fun g => group_id g ∈ ids)
                 [mkOsdGroup 0 [inr "w"; inr "frozen"] 0;
                  mkOsdGroup 1 [inr "other"] 0])) in
    _split_optim_state_dict plain_two optim_two merged_osd info_two = Ok split /\
    (forall k v, st !! k = Some v <->
       exists fqn, k = inr fqn /\ trainable_fqn optim_two info_two fqn /\
         ({[ inr "w" := Opaque 20; inr "frozen" := Opaque 21;
             inr "other" := Opaque 22 ]} : gmap (nat + string) Value) !! k = Some v) /\
    (forall g, g ∈ [mkOsdGroup 0 [inr "w"; inr "frozen"] 0; mkOsdGroup 1 [inr "other"] 0] ->
       group_id g ∈ ids <-> mentions_trainable optim_two info_two g) /\
    _load_optim_state_dict plain_two_native plain_two [optim_two] merged_osd info_two
      fresh_world
    = Done () (set_optim_state (oid optim_two) ∅
                 (emit (EvOptimLoadStateDict (oid optim_two) split)
                    (initialized optim_two ∅ fresh_world))).
Proof.
  assert (forall g p, g ∈ param_groups optim_two -> p ∈ params g ->
            requires_grad p = true -> p = w0) as Hw.
  { intros g p Hg Hp Hr. cbn in Hg.
    apply elem_of_cons in Hg as [->|Hg]; [|by apply elem_of_nil in Hg].
    cbn in Hp. apply elem_of_cons in Hp as [->|Hp]; [done|].
    apply elem_of_cons in Hp as [->|Hp]; [done|]. by apply elem_of_nil in Hp. }
  destruct (split_pulls_trainable_only plain_two_native plain_two optim_two []
              merged_osd info_two
              {[ inr "w" := Opaque 20; inr "frozen" := Opaque 21;
                 inr "other" := Opaque 22 ]}
              [mkOsdGroup 0 [inr "w"; inr "frozen"] 0; mkOsdGroup 1 [inr "other"] 0])
    as (st & ids & Hsplit & Hstate & Hgroups & Hload).
  - reflexivity.
  - reflexivity.
  - intros g p Hg Hp Hr. rewrite (Hw g p Hg Hp Hr). by eexists.
  - intros fqn (g & p & fqns & Hg & Hp & Hr & E & Hf).
    rewrite (Hw g p Hg Hp Hr) in E.
    assert (by_param (fqn_param_mapping info_two) !! tensor_id w0 = Some {[ "w" ]}) as E'
      by (vm_compute; reflexivity).
    rewrite E' in E. injection E as <-. apply elem_of_singleton in Hf as ->.
    by eexists.
  - intros g g' Hg Hg' Heq.
    apply elem_of_cons in Hg as [->|Hg]; apply elem_of_cons in Hg' as [->|Hg'];
      try done.
    + apply elem_of_cons in Hg' as [->|Hg']; [done|]. by apply elem_of_nil in Hg'.
    + apply elem_of_cons in Hg as [->|Hg]; [done|]. by apply elem_of_nil in Hg.
    + apply elem_of_cons in Hg as [->|Hg]; [|by apply elem_of_nil in Hg].
      apply elem_of_cons in Hg' as [->|Hg']; [done|]. by apply elem_of_nil in Hg'.
  - exists st, ids. cbv zeta. split; [exact Hsplit|]. split; [exact Hstate|].
    split; [exact Hgroups|].
    rewrite (Hload fresh_world (initialized optim_two ∅ fresh_world) _ eq_refl).
    + reflexivity.
    + vm_compute. reflexivity.
    + split; [reflexivity | by intros ?%elem_of_nil].
Defined.

(** ** Loading into an optimizer that has no state *)

Lemma init_optim_state_run N optim w st :
  default ∅ (optim_states w !! oid optim) = ∅ ->
  NoDup (tensor_id <$> all_params optim) ->
  (forall p, p ∈ all_params optim -> grads w !! tensor_id p = None) ->
  optim_step N optim (set_grads (synthesized (all_params optim) (grads w)) w) = Ok st ->
  _init_optim_state N optim w = Done () (initialized optim st w).
Proof.
  intros Hst Hnd Hnone Hstep.
  unfold _init_optim_state, read. unfold mbind at 1, M_bind at 1.
  rewrite Hst. unfold map_is_empty. rewrite bool_decide_eq_true_2 by done.
  cbn [negb]. unfold mbind at 1, M_bind at 1.
  rewrite (forM__fmap (forM_ init_param_grad) params).
  rewrite forM__concat. fold (all_params optim).
  rewrite (init_grads_fresh _ _ Hnd Hnone).
  unfold mbind, M_bind, step. rewrite Hstep. reflexivity.
Qed.

Lemma initialized_registered optim st w :
  patches_registered w -> patches_registered (initialized optim st w).
Proof. intros Hreg obj api call. apply Hreg. Qed.

Lemma initialized_unpatched obj api optim st w :
  unpatched obj api w -> unpatched obj api (initialized optim st w).
Proof. intros Hun. exact Hun. Qed.

(** X28.  Without sharding wrappers, on an optimizer whose
    [load_state_dict] is not patched, that has no state and whose parameters
    are distinct tensors that carry no gradient, and when the split of the
    merged dict, the step and the native load succeed:
    [_load_optim_state_dict] first makes a step on synthesized zero
    gradients and clears them, and then hands the native [load_state_dict]
    the part of the merged dict that the split gives for this optimizer;
    the optimizer is left with the state that the load gives, not the one
    of the step, and its parameters carry no gradient. *)
Theorem load_into_fresh_optimizer N model optim osd info w split st loaded :
  fsdp_modules info = [] ->
  unpatched (the_optimizer (oid optim)) "load_state_dict" w ->
  _split_optim_state_dict model optim osd info = Ok split ->
  default ∅ (optim_states w !! oid optim) = ∅ ->
  NoDup (tensor_id <$> all_params optim) ->
  (forall p, p ∈ all_params optim -> grads w !! tensor_id p = None) ->
  optim_step N optim (set_grads (synthesized (all_params optim) (grads w)) w) = Ok st ->
  optim_load_state_dict N optim split (initialized optim st w) = Ok loaded ->
  exists w',
    _load_optim_state_dict N model [optim] osd info w = Done () w' /\
    log w' = log w ++ [EvStep (oid optim) (synthesized (all_params optim) (grads w));
                       EvZeroGrad (oid optim);
                       EvOptimLoadStateDict (oid optim) split] /\
    optim_states w' !! oid optim = Some loaded /\
    (forall p, p ∈ all_params optim -> grads w' !! tensor_id p = None).
Proof.
  intros Hnil Hun Hsplit Hst Hnd Hnone Hstep Hload.
  exists (set_optim_state (oid optim) loaded
            (emit (EvOptimLoadStateDict (oid optim) split) (initialized optim st w))).
  split; [|split; [|split]].
  - unfold _load_optim_state_dict. cbn [forM_].
    assert (load_optim_step N model osd info optim w
            = Done () (set_optim_state (oid optim) loaded
                         (emit (EvOptimLoadStateDict (oid optim) split)
                            (initialized optim st w)))) as Hrun.
    { unfold load_optim_step. rewrite Hsplit, Hnil. cbn [nonempty].
      rewrite (bind_eq _ _ w split w) by done.
      rewrite (bind_eq _ _ w split w) by done.
      rewrite (bind_eq _ _ _ _ _ (init_optim_state_run N optim w st Hst Hnd Hnone Hstep)).
      rewrite (bind_eq _ _ _ _ _
                 (state_dict_fn_unpatched _ _ _
                    (initialized_unpatched _ _ optim st w Hun))).
      cbn [call_native_with_argument]. by rewrite Hload. }
    by rewrite (bind_eq _ _ _ _ _ Hrun).
  - cbn [log emit set_optim_state set_grads initialized grads].
    rewrite <- !app_assoc. reflexivity.
  - cbn [optim_states emit set_optim_state]. apply lookup_insert_eq.
  - intros p Hp. cbn [grads emit set_optim_state set_grads initialized].
    rewrite cleared_lookup. rewrite bool_decide_eq_true_2; [done|].
    apply list_elem_of_fmap. by exists p.
Qed.

Lemma load_into_fresh_optimizer_witness :
  exists w',
    _load_optim_state_dict plain_two_native plain_two [optim_two] merged_osd info_two
      fresh_world = Done () w' /\
    log w' = log fresh_world
             ++ [EvStep (oid optim_two)
                   (synthesized (all_params optim_two) (grads fresh_world));
                 EvZeroGrad (oid optim_two);
                 EvOptimLoadStateDict (oid optim_two) split_osd_two] /\
    optim_states w' !! oid optim_two = Some ∅ /\
    (forall p, p ∈ all_params optim_two -> grads w' !! tensor_id p = None).
Proof.
  apply (load_into_fresh_optimizer plain_two_native plain_two optim_two merged_osd
           info_two fresh_world split_osd_two ∅ ∅).
  - reflexivity.
  - apply fresh_world_unpatched.
  - vm_compute. reflexivity.
  - reflexivity.
  - cbn. repeat (apply NoDup_cons_2; [set_solver|]). apply NoDup_nil_2.
  - intros p Hp. apply lookup_empty.
  - reflexivity.
  - reflexivity.
Defined.

(** ** [_verify_options] on registered trees *)

Lemma registered_parameters_resolve model name p :
  registered model -> (name, p) ∈ named_parameters model ->
  exists fqns, _get_fqns model name true = Ok fqns.
Proof.
  intros Hreg Hin.
  destruct (remove_duplicate_spec ∅ (_named_members (fun ps _ => ps) "" model))
    as [_ Hsub].
  destruct (Hsub _ Hin) as [_ Hraw].
  destruct (named_members_walk true (fun ps _ => ps) model) with (prefix := "")
    (name := name) (t := p)
    as (path & fqn & ps & bs & cs & leaf & -> & Hall & Hleaf & _ & Hw & [t' Hattr]);
    try done.
  { intros ps bs e He. apply elem_of_app. by left. }
  rewrite foldl_with_prefix_empty.
  2: { eapply Forall_impl; [exact Hall|]. by intros s [_ ?]. }
  eexists. eapply get_fqns_walk_leaf; eauto.
  eapply Forall_impl; [exact Hall|]. by intros s [? _].
Qed.

(** X29.  On a tree of plain modules, replica and sharding wrappers whose
    names are registered as [nn.Module] does and where nothing is
    registered as the flat parameter, [_verify_options] returns for every
    consistent choice of flags and optimizers, provided no parameter is a
    distributed tensor while [use_dtensor] is off and the state-dict type
    is not [LOCAL_STATE_DICT] on a tree with sharding wrappers; the result
    lists the sharding wrappers of the tree. *)
Theorem verify_options_accepts_registered model optims model_only optim_only options :
  registered model ->
  (forall name p, (name, p) ∈ named_parameters model -> is_dtensor p = true ->
     use_dtensor (default default_options options) = true) ->
  (fsdp_modules_of model ≠ [] ->
   fsdp_state_dict_type (default default_options options) ≠ LOCAL_STATE_DICT) ->
  ~ contradictory optims model_only optim_only ->
  exists info,
    _verify_options model optims model_only optim_only options = Ok info /\
    fsdp_modules info = fsdp_modules_of model /\
    handle_model info = negb optim_only /\
    handle_optim info = nonempty optims.
Proof.
  intros Hreg Hdt Hty Hok.
  destruct (foldM_index_total model (default default_options options)
              (named_parameters model) (mkMapping ∅ ∅)) as [mapping Hmapping].
  { intros name p Hin. split; [by apply (registered_parameters_resolve _ _ p)|].
    by apply (Hdt name p). }
  assert (exists ctx, build_fsdp_context (fsdp_modules_of model)
                        (default default_options options) = Ok ctx) as [ctx Hctx].
  { unfold build_fsdp_context. destruct (fsdp_modules_of model) as [|m l]; [by eexists|].
    destruct (fsdp_state_dict_type (default default_options options)) eqn:E;
      try (by eexists). exfalso. by apply Hty. }
  rewrite (verify_options_stages _ _ _ _ _ mapping ctx Hmapping Hctx).
  unfold contradictory in Hok.
  destruct model_only, optim_only, optims as [|o optims]; cbn;
    try (by eexists); exfalso; apply Hok; auto.
Qed.

Lemma verify_options_accepts_registered_witness :
  exists info,
    _verify_options replica_nested [optim_two] false false None = Ok info /\
    fsdp_modules info = fsdp_modules_of replica_nested /\
    handle_model info = negb false /\
    handle_optim info = nonempty [optim_two].
Proof.
  apply (verify_options_accepts_registered replica_nested [optim_two] false false None).
  - apply replica_nested_registered.
  - reflexivity.
  - intros Hc. by contradict Hc.
  - intros [[? ?]|[[? ?]|[? ?]]]; done.
Defined.

(** ** The round trip of the parameters under replica wrappers *)

(** X30.  Where [load_state_dict] of the model is not patched: when the
    keys of the native state dict are the names of the parameters, each name resolves to itself with [skip_ddp_prefix] off and
    to one canonical name with it on, without collisions, then loading the
    dict that holds the native values under the canonical names (what
    [_get_model_state_dict] returns) hands the native [load_state_dict] the
    native dict itself, and leaves the caller with it. *)
Theorem load_restores_native_dict N model info w state_dict canonical_dict
    (canonical : string -> string) :
  unpatched the_model "load_state_dict" w ->
  NoDup (named_parameters model).*1 ->
  (forall name, name ∈ dom state_dict <-> name ∈ (named_parameters model).*1) ->
  (forall name p, (name, p) ∈ named_parameters model ->
     _get_fqns model name true = Ok {[ canonical name ]} /\
     _get_fqns model name false = Ok {[ name ]}) ->
  (forall name name', name ∈ dom state_dict -> name' ∈ dom state_dict ->
     canonical name = canonical name' -> name = name') ->
  (forall name, name ∈ dom state_dict -> canonical name ≠ name ->
     canonical name ∉ dom state_dict) ->
  (forall key, key ∈ dom state_dict ->
     canonical_dict !! canonical key = state_dict !! key) ->
  (forall fqn, is_Some (canonical_dict !! fqn) ->
     exists key, key ∈ dom state_dict /\ fqn = canonical key) ->
  _load_model_state_dict N model canonical_dict info w
  = match nn_load_state_dict N (fsdp_context info) model state_dict with
    | Ok ack =>
        Done (ack, state_dict) (emit (EvLoadStateDict (fsdp_context info) state_dict) w)
    | Raise e => Fail e (emit (EvLoadStateDict (fsdp_context info) state_dict) w)
    end.
Proof.
  intros Hun Hnd Hdom Hres Hinj Hfresh Hto Honly.
  set (l := named_parameters model) in *.
  set (pairs := (fun e : string * Param => (canonical e.1, e.1)) <$> l).
  assert (pairs.*1 = canonical <$> l.*1) as Hsrc.
  { unfold pairs. rewrite <- !list_fmap_compose. done. }
  assert (pairs.*2 = l.*1) as Htgt.
  { unfold pairs. rewrite <- !list_fmap_compose. done. }
  assert (forall a b, (a, b) ∈ pairs <-> b ∈ dom state_dict /\ a = canonical b) as Hpairs.
  { intros a b. unfold pairs. rewrite list_elem_of_fmap, Hdom. split.
    - intros ([name p] & [= -> ->] & Hin). split; [|done].
      apply list_elem_of_fmap. by exists (name, p).
    - intros [([name p] & -> & Hin)%list_elem_of_fmap ->]. by exists (name, p). }
  assert (forall name, name ∈ dom state_dict -> canonical name ≠ name ->
            forall key, key ∈ dom state_dict -> name ≠ canonical key) as Hnot.
  { intros name Hname Hne key Hkey ->.
    destruct (decide (canonical key = key)) as [Heq|Hdiff].
    - apply Hne. by rewrite Heq.
    - by apply (Hfresh key Hkey Hdiff). }
  destruct (rename_fold pairs canonical_dict) as (d & Hfold & Hmoved & Hrest).
  { rewrite Hsrc. apply NoDup_fmap_2_strong; [|done].
    intros n n' Hn Hn'. apply Hinj; by apply Hdom. }
  { intros a b [Hb ->]%Hpairs Hne. split; [|split].
    - rewrite (Hto b Hb). by apply elem_of_dom.
    - destruct (canonical_dict !! b) as [v|] eqn:Hv; [|done]. exfalso.
      destruct (Honly b) as (key & Hkey & Hb'); [by eexists|].
      by apply (Hnot b Hb Hne key Hkey).
    - rewrite Hsrc. intros (key & Hb' & Hkey)%list_elem_of_fmap.
      apply (Hnot b Hb Hne key); [by apply Hdom|done]. }
  { by intros a b a' b' [_ ->]%Hpairs [_ ->]%Hpairs ->. }
  assert (d = state_dict) as ->.
  { apply map_eq. intros k. destruct (decide (k ∈ dom state_dict)) as [Hk|Hk].
    - rewrite (Hmoved (canonical k) k) by (by apply Hpairs). by apply Hto.
    - rewrite Hrest by (by rewrite Htgt, <- Hdom).
      rewrite (proj1 (not_elem_of_dom state_dict k) Hk).
      case_bool_decide as Hc; [done|].
      destruct (canonical_dict !! k) as [v|] eqn:Hv; [|done]. exfalso.
      destruct (Honly k) as (key & Hkey & ->); [by eexists|].
      apply Hc. rewrite Hsrc. apply list_elem_of_fmap. exists key.
      split; [done|]. by apply Hdom. }
  unfold _load_model_state_dict. fold l.
  rewrite (ddp_prefix_params_rename N model canonical (fun name => name)).
  2: { intros [name p] He. by apply (Hres name p). }
  fold pairs. rewrite Hfold.
  rewrite (bind_eq _ _ w state_dict w) by done.
  rewrite (bind_eq _ _ _ _ _ (state_dict_fn_unpatched _ _ _ Hun)).
  cbn [call_native_with_argument]. unfold mbind, M_bind, write, lift.
  by destruct (nn_load_state_dict N (fsdp_context info) model state_dict).
Qed.

Lemma load_restores_native_dict_witness :
  _load_model_state_dict plain_two_native replica_plain canonical_w_sd info_two
    fresh_world
  = match nn_load_state_dict plain_two_native (fsdp_context info_two) replica_plain
            native_w_sd with
    | Ok ack =>
        Done (ack, native_w_sd)
          (emit (EvLoadStateDict (fsdp_context info_two) native_w_sd) fresh_world)
    | Raise e =>
        Fail e (emit (EvLoadStateDict (fsdp_context info_two) native_w_sd) fresh_world)
    end.
Proof.
  assert (forall name, name ∈ dom native_w_sd <-> name = "module.w") as Hdom.
  { intros name. unfold native_w_sd. rewrite dom_singleton_L. apply elem_of_singleton. }
  apply (load_restores_native_dict plain_two_native replica_plain info_two fresh_world
           native_w_sd canonical_w_sd strip_module).
  - apply fresh_world_unpatched.
  - vm_compute. apply NoDup_singleton.
  - intros name. rewrite Hdom. vm_compute (named_parameters replica_plain).*1.
    by rewrite list_elem_of_singleton.
  - intros name p Hin. vm_compute in Hin. apply list_elem_of_singleton in Hin.
    injection Hin as -> ->. split; vm_compute; reflexivity.
  - intros name name' ->%Hdom ->%Hdom _. done.
  - intros name ->%Hdom _ Hc%Hdom. discriminate.
  - intros key ->%Hdom. reflexivity.
  - intros fqn [v Hv]. exists "module.w". split; [by apply Hdom|].
    unfold canonical_w_sd in Hv. apply lookup_singleton_Some in Hv as [<- _]. done.
Defined.
